(** * clack-prompts: the rendering core of [src/prompt/index.ts]

    A shallow embedding of the viewport window ([limitOptions]), the ANSI
    pattern ([ansiRegex], [strip]), the box builder ([buildBox]), the task
    log ([taskLog]) and the spinner with its process hooks ([spinner]),
    followed by the properties proved about them.

    Conventions.
    - A JavaScript string is the list of its UTF-16 code units ([jsstring]);
      [.length] is [length], template concatenation is [++].
    - JavaScript numbers that the code only uses as integers (indices, row
      and column counts, exit codes) are [Z].
    - [process.stdout.write] appends to an explicit output trace.
    - The colour functions of picocolors, the flag returned by
      [isUnicodeSupported] and the terminal geometry come from outside
      [index.ts]; they are parameters of the definitions that use them. *)

From Stdlib Require Import Ascii String.
From Stdlib Require Import ZArith NArith List Bool Lia.
Import ListNotations.
Local Open Scope Z_scope.

Set Implicit Arguments.

(* ===================================================================== *)
(** ** JavaScript strings and array helpers *)
(* ===================================================================== *)

Module JS.

(** A string is its sequence of UTF-16 code units. *)
Definition jsstring := list N.

(** A literal of the source, unit by unit. *)
Definition lit (s : string) : jsstring :=
  map N_of_ascii (list_ascii_of_string s).
Arguments lit s%_string.

Definition chr (a : ascii) : N := N_of_ascii a.
Arguments chr a%_char.

(** [s.length] as a JavaScript number. *)
Definition len {A : Type} (l : list A) : Z := Z.of_nat (length l).

(** [Array.prototype.slice(start, end)]: negative arguments count from the
    end, both are clamped to the array, an empty range gives []. *)
Definition slice {A : Type} (start end_ : Z) (l : list A) : list A :=
  let n := len l in
  let k := if start <? 0 then Z.max (n + start) 0 else Z.min start n in
  let final := if end_ <? 0 then Z.max (n + end_) 0 else Z.min end_ n in
  firstn (Z.to_nat (final - k)) (skipn (Z.to_nat k) l).

(** [Array.prototype.map((x, i, arr) => ...)]: the callback receives the
    index; [mapi_from i0] numbers the elements from [i0]. *)
Fixpoint mapi_from {A B : Type} (f : Z -> A -> B) (i : Z) (l : list A)
  : list B :=
  match l with
  | [] => []
  | x :: t => f i x :: mapi_from f (i + 1) t
  end.

Definition mapi {A B : Type} (f : Z -> A -> B) (l : list A) : list B :=
  mapi_from f 0 l.

(** [String.prototype.repeat(n)] for [n >= 0] (a negative count raises a
    RangeError in JavaScript; every call site below is shown to pass a
    non-negative count). *)
Definition repeat_str (s : jsstring) (n : Z) : jsstring :=
  concat (repeat s (Z.to_nat n)).

(** [Array.prototype.join(sep)]. *)
Fixpoint join (sep : jsstring) (l : list jsstring) : jsstring :=
  match l with
  | [] => []
  | [x] => x
  | x :: t => x ++ sep ++ join sep t
  end.

Definition newline : N := 10%N.

(** [s.split('\n')]: always at least one piece. *)
Fixpoint split_nl (s : jsstring) : list jsstring :=
  match s with
  | [] => [[]]
  | c :: s' =>
      if N.eqb c newline then [] :: split_nl s'
      else match split_nl s' with
           | [] => [[c]]
           | l :: ls => (c :: l) :: ls
           end
  end.

(** The string holds no newline. *)
Definition noNewline (s : jsstring) : bool :=
  forallb (fun c => negb (N.eqb c newline)) s.

(** The last element of an array, if any: [arr[arr.length - 1]]. *)
Definition lastRow {A : Type} (l : list A) : option A :=
  nth_error l (length l - 1).

(** [Math.ceil(a / b)] for integers [a >= 0] and [b > 0] (the quotient of
    two such doubles is exact enough for every length a string can have).*)
Definition ceil_div (a b : Z) : Z := (a + b - 1) / b.

End JS.
Import JS.

(* ===================================================================== *)
(** ** Viewport window: [limitOptions] *)
(* ===================================================================== *)

Module Viewport.

(** [params.maxItems] is [number | undefined]; [undefined ?? Infinity]
    makes the caller's limit infinite, which [Math.min] then discards.
    [rows] is [process.stdout.rows] of a terminal, an integer. *)
Definition effectiveMax (paramMaxItems : option Z) (rows : Z) : Z :=
  let outputMaxItems := Z.max (rows - 4) 0 in
  match paramMaxItems with
  | Some p => Z.min outputMaxItems (Z.max p 5)
  | None => outputMaxItems
  end.

(** The value of [slidingWindowLocation] after the [if]/[else if]. *)
Definition slidingWindowLocation (cursor maxItems length : Z) : Z :=
  let slidingWindowLocation := 0 in
  if cursor >=? slidingWindowLocation + maxItems - 3 then
    Z.max (Z.min (cursor - maxItems + 3) (length - maxItems)) 0
  else if cursor <? slidingWindowLocation + 2 then
    Z.max (cursor - 2) 0
  else slidingWindowLocation.

Definition shouldRenderTopEllipsis (maxItems start length : Z) : bool :=
  (maxItems <? length) && (start >? 0).

Definition shouldRenderBottomEllipsis (maxItems start length : Z) : bool :=
  (maxItems <? length) && (start + maxItems <? length).

Section LimitOptions.
Context {TOption R : Type}.

Record LimitOptionsParams := {
  options : list TOption;
  maxItems : option Z;
  cursor : Z;
  style : TOption -> bool -> R
}.

(** [rows] is [process.stdout.rows]; [ellipsis] is what the callback
    returns for a limit row ([color.dim('...')] in the source). The
    result type is left open so that the same function can be read
    with strings or with tagged rows. *)
Definition limitOptionsWith (rows : Z) (ellipsis : R)
    (params : LimitOptionsParams) : list R :=
  let cursor := params.(cursor) in
  let options := params.(options) in
  let style := params.(style) in
  let maxItems := effectiveMax params.(maxItems) rows in
  let start := slidingWindowLocation cursor maxItems (len options) in
  let top := shouldRenderTopEllipsis maxItems start (len options) in
  let bottom := shouldRenderBottomEllipsis maxItems start (len options) in
  let arr := slice start (start + maxItems) options in
  mapi (fun i option =>
          let isTopLimit := (i =? 0) && top in
          let isBottomLimit := (i =? len arr - 1) && bottom in
          if isTopLimit || isBottomLimit
          then ellipsis
          else style option (i + start =? cursor))
       arr.
End LimitOptions.

(** A returned row, before it is turned into text. *)
Inductive row (TOption : Type) : Type :=
| Ellipsis : row TOption
| Styled : TOption -> bool -> row TOption.
Arguments Ellipsis {TOption}.

(** [limitOptions] as the source has it: rows are strings. *)
Definition limitOptions {TOption : Type} (dim : jsstring -> jsstring)
    (rows : Z) (params : @LimitOptionsParams TOption jsstring)
  : list jsstring :=
  limitOptionsWith rows (dim (lit "...")) params.

(** The same call with the rows left tagged. *)
Definition limitRows {TOption : Type} (rows : Z)
    (opts : list TOption) (maxItems : option Z) (cursor : Z)
  : list (row TOption) :=
  limitOptionsWith rows Ellipsis
    {| options := opts; maxItems := maxItems; cursor := cursor;
       style := @Styled TOption |}.

Definition render {TOption : Type} (ellipsis : jsstring)
    (style : TOption -> bool -> jsstring) (r : row TOption) : jsstring :=
  match r with
  | Ellipsis => ellipsis
  | Styled o active => style o active
  end.

End Viewport.

(* ===================================================================== *)
(** ** Text metrics: [ansiRegex] and [strip] *)
(* ===================================================================== *)

Module Ansi.

(** The fragment of JavaScript regular expressions that [ansiRegex] uses:
    character classes, sequence, alternation and greedy quantifiers. All
    groups of the pattern are non-capturing. *)
Inductive regex : Type :=
| Eps : regex
| Class : (N -> bool) -> regex
| Cat : regex -> regex -> regex
| Alt : regex -> regex -> regex
| Rep : nat -> option nat -> regex -> regex.   (* r{min,max}, greedy *)

Definition Star (r : regex) : regex := Rep 0 None r.        (* star *)
Definition Plus (r : regex) : regex := Rep 1 None r.        (* plus *)
Definition Opt (r : regex) : regex := Rep 0 (Some 1%nat) r. (* option *)

(** Backtracking semantics. [ms r s] lists, in the order in which a
    backtracking matcher tries them, the suffixes of [s] that remain after
    [r] has matched a prefix of [s]: the left alternative comes first and a
    greedy quantifier tries one more iteration before it stops.

    [reps step min max s] is the quantifier (RepeatMatcher of ECMA-262): an
    iteration that consumes nothing is rejected; every quantified group of
    [ansiRegex] consumes at least one code unit, so an unbounded quantifier
    needs at most [length s] iterations. *)
Fixpoint reps (step : jsstring -> list jsstring) (min max : nat)
    (s : jsstring) : list jsstring :=
  match max with
  | O => if Nat.eqb min 0 then [s] else []
  | S max' =>
      flat_map (fun s' => if (length s' <? length s)%nat
                          then reps step (pred min) max' s'
                          else [])
               (step s)
      ++ (if Nat.eqb min 0 then [s] else [])
  end.

Fixpoint ms (r : regex) (s : jsstring) : list jsstring :=
  match r with
  | Eps => [s]
  | Class p => match s with
               | c :: s' => if p c then [s'] else []
               | [] => []
               end
  | Cat r1 r2 => flat_map (ms r2) (ms r1 s)
  | Alt r1 r2 => ms r1 s ++ ms r2 s
  | Rep min max r1 =>
      reps (ms r1) min (match max with Some m => m | None => length s end) s
  end.

(** [str.replace(re, '')] with the [g] flag: scan from the left; at each
    index take the first match in backtracking order, drop it and go on
    after it; where nothing matches keep the code unit. *)
Fixpoint replaceAll (r : regex) (fuel : nat) (s : jsstring) : jsstring :=
  match fuel with
  | O => s
  | S n =>
      match s with
      | [] => []
      | c :: s' =>
          match ms r s with
          | rest :: _ =>
              if (length rest <? length s)%nat then replaceAll r n rest
              else c :: replaceAll r n s'
          | [] => c :: replaceAll r n s'
          end
      end
  end.

(** Character classes of the pattern. *)
Definition one (a : ascii) (c : N) : bool := (c =? N_of_ascii a)%N.
Definition between (lo hi : ascii) (c : N) : bool :=
  (N_of_ascii lo <=? c)%N && (c <=? N_of_ascii hi)%N.
Arguments one a%_char c.
Arguments between lo%_char hi%_char c.

Definition ESC : N := 27%N.    (* \u001B *)
Definition CSI1 : N := 155%N.  (* \u009B *)
Definition BEL : N := 7%N.     (* \u0007 *)

Definition digit (c : N) : bool := between "0" "9" c.            (* \d *)
(* [\u001B\u009B] *)
Definition cIntro (c : N) : bool := (c =? ESC)%N || (c =? CSI1)%N.
(* [[\]()#;?] *)
Definition cPrefix (c : N) : bool :=
  one "[" c || one "]" c || one "(" c || one ")" c || one "#" c || one ";" c
  || one "?" c.
(* [-a-zA-Z\d\/#&.:=?%@~_] *)
Definition cParam (c : N) : bool :=
  one "-" c || between "a" "z" c || between "A" "Z" c || digit c
  || one "/" c || one "#" c || one "&" c || one "." c || one ":" c || one "=" c
  || one "?" c || one "%" c || one "@" c || one "~" c || one "_" c.
(* [a-zA-Z\d] *)
Definition cAlnum (c : N) : bool :=
  between "a" "z" c || between "A" "Z" c || digit c.
(* [\dA-PR-TZcf-nq-uy=><~] *)
Definition cFinal (c : N) : bool :=
  digit c || between "A" "P" c || between "R" "T" c || one "Z" c || one "c" c
  || between "f" "n" c || between "q" "u" c || one "y" c || one "=" c
  || one ">" c || one "<" c || one "~" c.
Definition cBel (c : N) : bool := (c =? BEL)%N.
Definition cSemi (c : N) : bool := one ";" c.

(** The optional group of the first branch (blanks added between tokens):
    (?: (?: ;[-a-zA-Z\d\/#&.:=?%@~_]+ )* | [a-zA-Z\d]+ (?: ;[-a-zA-Z\d\/#&.:=?%@~_]* )* )? *)
Definition belParams : regex :=
  Opt (Alt (Star (Cat (Class cSemi) (Plus (Class cParam))))
           (Cat (Plus (Class cAlnum))
                (Star (Cat (Class cSemi) (Star (Class cParam)))))).

(** The group above followed by \u0007: the first branch of the
    pattern's alternation. *)
Definition belBranch : regex := Cat belParams (Class cBel).

(** ;\d{0,4} *)
Definition numGroup : regex :=
  Cat (Class cSemi) (Rep 0 (Some 4%nat) (Class digit)).

(** \d{1,4} (?: ;\d{0,4} )* *)
Definition numParams : regex :=
  Cat (Rep 1 (Some 4%nat) (Class digit)) (Star numGroup).

(** (?: \d{1,4} (?: ;\d{0,4} )* )? [\dA-PR-TZcf-nq-uy=><~] : the second
    branch. *)
Definition finalBranch : regex := Cat (Opt numParams) (Class cFinal).

(** The pattern built by [ansiRegex()]: the two array elements joined by
    '|' read [\u001B\u009B] [[\]()#;?]* (?: first | second ). *)
Definition ansiRegex : regex :=
  Cat (Class cIntro)
      (Cat (Star (Class cPrefix)) (Alt belBranch finalBranch)).

(** const strip = (str) => str.replace(ansiRegex(), '') *)
Definition strip (str : jsstring) : jsstring :=
  replaceAll ansiRegex (length str) str.

(** Visible length: what [buildBox] measures with [strip(x).length]. *)
Definition visibleLength (str : jsstring) : Z := len (strip str).

(** *** Vocabulary for stating what [strip] removes *)

(** All character classes of a pattern satisfy [Q]. *)
Fixpoint classes (Q : (N -> bool) -> Prop) (r : regex) : Prop :=
  match r with
  | Eps => True
  | Class p => Q p
  | Cat r1 r2 | Alt r1 r2 => classes Q r1 /\ classes Q r2
  | Rep _ _ r1 => classes Q r1
  end.

(** [within K p]: the class [p] only accepts code units of [K].
    [eats K step]: whatever [step] consumes is made of code units of [K]. *)
Definition within (K p : N -> bool) : Prop :=
  forall c, p c = true -> K c = true.

Definition eats (K : N -> bool) (step : jsstring -> list jsstring) : Prop :=
  forall s t, In t (step s) ->
    exists pre, s = pre ++ t /\ Forall (fun c => K c = true) pre.

(** [rejects c p]: the class [p] does not accept [c]. [local c y step]:
    in front of [c :: y] the matcher [step] behaves as at the end of the
    string. *)
Definition rejects (c : N) (p : N -> bool) : Prop := p c = false.
Definition past (c : N) (y t : jsstring) : jsstring := t ++ c :: y.
Definition local (c : N) (y : jsstring)
    (step : jsstring -> list jsstring) : Prop :=
  forall x, step (past c y x) = map (past c y) (step x).

(** [run step n s t]: starting from [s], a quantifier whose body is
    [step] takes [n] iterations, each time the first result of the body and
    each time consuming something, and reaches [t]. *)
Inductive run (step : jsstring -> list jsstring)
  : nat -> jsstring -> jsstring -> Prop :=
| run_zero : forall s, run step 0 s s
| run_more : forall n s s' l t,
    step s = s' :: l -> (length s' < length s)%nat ->
    run step n s' t -> run step (S n) s t.

(** [startsOutside p s]: [s] is empty or begins with a code unit that the
    class [p] does not accept. *)
Definition startsOutside (p : N -> bool) (s : jsstring) : bool :=
  match s with
  | [] => true
  | c :: _ => negb (p c)
  end.

(** [guarded s]: scanning [s] from the left, an introducer comes before any
    BEL. *)
Fixpoint guarded (s : jsstring) : bool :=
  match s with
  | [] => true
  | c :: t => if cIntro c then true
              else if cBel c then false
              else guarded t
  end.

(** The code units the optional group of the first branch can consume. *)
Definition cBelParams (c : N) : bool := cParam c || cSemi c.

(** Escape sequences in the two shapes of the pattern, written out:
    - [FinalSeq i p ns f]: introducer [i], prefix units [p], numeric
      parameters [ns] separated by ';' and a final unit [f];
    - [BelSeq i p w gs]: introducer, prefix units, a word [w] of letters
      and digits, ';'-led groups [gs] and the terminating BEL. *)
Inductive escape : Type :=
| FinalSeq : N -> jsstring -> list jsstring -> N -> escape
| BelSeq : N -> jsstring -> jsstring -> list jsstring -> escape.

Definition semi : N := N_of_ascii ";".

Definition groupsText (gs : list jsstring) : jsstring :=
  concat (map (fun g => semi :: g) gs).

Definition numbersText (ns : list jsstring) : jsstring :=
  match ns with
  | [] => []
  | n :: rest => n ++ groupsText rest
  end.

Definition escapeText (e : escape) : jsstring :=
  match e with
  | FinalSeq i p ns f => i :: p ++ numbersText ns ++ [f]
  | BelSeq i p w gs => i :: p ++ w ++ groupsText gs ++ [BEL]
  end.

Definition digitsUpTo (k : nat) (n : jsstring) : bool :=
  forallb digit n && (length n <=? k)%nat.

(** Well-formed sequences: the first number has 1 to 4 digits, the later
    ones 0 to 4; the final unit is in the final class and is not a digit;
    the word is not empty. *)
Definition escapeOk (e : escape) : bool :=
  match e with
  | FinalSeq i p ns f =>
      cIntro i && forallb cPrefix p
      && match ns with
         | [] => true
         | n :: rest =>
             negb (length n =? 0)%nat && digitsUpTo 4 n
             && forallb (digitsUpTo 4) rest
         end
      && cFinal f && negb (digit f)
  | BelSeq i p w gs =>
      cIntro i && forallb cPrefix p
      && negb (length w =? 0)%nat && forallb cAlnum w
      && forallb (forallb cParam) gs
  end.

(** A text is a sequence of pieces: plain runs and escape sequences. A
    plain run holds no introducer and no BEL. *)
Inductive piece : Type :=
| Plain : jsstring -> piece
| Escape : escape -> piece.

Definition plainOk (t : jsstring) : bool :=
  forallb (fun c => negb (cIntro c) && negb (cBel c)) t.

Definition pieceOk (p : piece) : bool :=
  match p with
  | Plain t => plainOk t
  | Escape e => escapeOk e
  end.

Definition pieceText (p : piece) : jsstring :=
  match p with
  | Plain t => t
  | Escape e => escapeText e
  end.

Definition isEscape (p : piece) : bool :=
  match p with
  | Plain _ => false
  | Escape _ => true
  end.

Definition pieceVisible (p : piece) : jsstring :=
  match p with
  | Plain t => t
  | Escape _ => []
  end.

(** The string a list of pieces spells, and the same with the escape
    sequences removed by hand. *)
Definition piecesText (ps : list piece) : jsstring :=
  concat (map pieceText ps).
Definition piecesVisible (ps : list piece) : jsstring :=
  concat (map pieceVisible ps).

End Ansi.
Import Ansi.

(* ===================================================================== *)
(** ** The terminal: glyphs, colours and the output stream *)
(* ===================================================================== *)

Module Term.

(** One [process.stdout.write]. The control strings of sisteransi are kept
    symbolic: [cursor.up(n)], [cursor.move(x, y)] and [erase.down(n)]. *)
Inductive chunk : Type :=
| Text : jsstring -> chunk
| CursorUp : Z -> chunk
| CursorMove : Z -> Z -> chunk
| EraseDown : Z -> chunk.

(** The functions of picocolors that the rendering code calls. *)
Record Colors : Type := {
  gray : jsstring -> jsstring;
  dim : jsstring -> jsstring;
  green : jsstring -> jsstring;
  red : jsstring -> jsstring;
  magenta : jsstring -> jsstring;
  reset : jsstring -> jsstring
}.

(** const s = (c, fallback) => (unicode ? c : fallback) *)
Definition s (unicode : bool) (c fallback : jsstring) : jsstring :=
  if unicode then c else fallback.

Definition S_STEP_CANCEL u := s u [9632%N] (lit "x").          (* U+25A0 *)
Definition S_STEP_ERROR u := s u [9650%N] (lit "x").           (* U+25B2 *)
Definition S_STEP_SUBMIT u := s u [9671%N] (lit "o").          (* U+25C7 *)
Definition S_BAR u := s u [9474%N] (lit "|").                  (* U+2502 *)
Definition S_BAR_H u := s u [9472%N] (lit "-").                (* U+2500 *)
Definition S_CORNER_TOP_RIGHT u := s u [9582%N] (lit "+").     (* U+256E *)
Definition S_CONNECT_LEFT u := s u [9500%N] (lit "+").         (* U+251C *)
Definition S_CORNER_BOTTOM_RIGHT u := s u [9583%N] (lit "+").  (* U+256F *)
Definition S_SUCCESS u := s u [9670%N] (lit "*").              (* U+25C6 *)
Definition S_ERROR u := s u [9632%N] (lit "x").                (* U+25A0 *)

Definition nl : jsstring := [newline].

(** Two instances for examples. With colours switched off every function
    is the identity; with colours on, picocolors wraps the text in a pair
    of SGR sequences (for text that does not hold the closing sequence). *)
Definition plainColors : Colors :=
  {| gray := fun x => x; dim := fun x => x; green := fun x => x;
     red := fun x => x; magenta := fun x => x; reset := fun x => x |}.

Definition sgr (open close : string) (text : jsstring) : jsstring :=
  ESC :: lit "[" ++ lit open ++ lit "m" ++ text
  ++ ESC :: lit "[" ++ lit close ++ lit "m".

Definition sgrColors : Colors :=
  {| gray := sgr "90" "39"; dim := sgr "2" "22"; green := sgr "32" "39";
     red := sgr "31" "39"; magenta := sgr "35" "39"; reset := sgr "0" "0" |}.

End Term.
Import Term.

(* ===================================================================== *)
(** ** Box layout: [buildBox], [note], [box] *)
(* ===================================================================== *)

Module Box.
Section BuildBox.
Variable unicode : bool.
Variable color : Colors.

(** const lines = `\n${message}\n`.split('\n') *)
Definition bodyLines (message : jsstring) : list jsstring :=
  split_nl (nl ++ message ++ nl).

(** lines.reduce((sum, ln) => { ln = strip(ln);
                                return ln.length > sum ? ln.length : sum }, 0) *)
Definition widest (lines : list jsstring) : Z :=
  fold_left (fun sum ln => let ln := strip ln in
                           if len ln >? sum then len ln else sum)
            lines 0.

(** The local [len] of [buildBox]. *)
Definition boxLen (message title : jsstring) : Z :=
  let titleLen := len (strip title) in
  Z.max (widest (bodyLines message)) titleLen + 2.

(** The callback of [lines.map]. *)
Definition bodyRow (dimmed : bool) (len_ : Z) (ln : jsstring) : jsstring :=
  gray color (S_BAR unicode) ++ lit "  "
  ++ (if dimmed then dim color ln else ln)
  ++ repeat_str (lit " ") (len_ - len (strip ln))
  ++ gray color (S_BAR unicode).

Definition topBorder (len_ titleLen : Z) : jsstring :=
  gray color (repeat_str (S_BAR_H unicode) (Z.max (len_ - titleLen - 1) 1)
              ++ S_CORNER_TOP_RIGHT unicode).

Definition bottomBorder (len_ : Z) : jsstring :=
  gray color (S_CONNECT_LEFT unicode
              ++ repeat_str (S_BAR_H unicode) (len_ + 2)
              ++ S_CORNER_BOTTOM_RIGHT unicode).

(** [buildBox(message, title, dimmed)]: the one string it writes. *)
Definition buildBox (message title : jsstring) (dimmed : bool)
  : list chunk :=
  let lines := bodyLines message in
  let titleLen := len (strip title) in
  let len_ := boxLen message title in
  let msg := join nl (map (bodyRow dimmed len_) lines) in
  [Text (gray color (S_BAR unicode) ++ nl
         ++ green color (S_STEP_SUBMIT unicode) ++ lit "  "
         ++ reset color title ++ lit " "
         ++ topBorder len_ titleLen ++ nl
         ++ msg ++ nl
         ++ bottomBorder len_ ++ nl)].

Definition note (message title : jsstring) := buildBox message title true.
Definition box (message title : jsstring) := buildBox message title false.

(** The text of a body row as it is painted. *)
Definition painted (dimmed : bool) (ln : jsstring) : jsstring :=
  if dimmed then dim color ln else ln.

(** What the layout is meant to compute: the widest visible body line or
    the visible title, whichever is larger, plus 2. *)
Definition contentWidth (message title : jsstring) : Z :=
  Z.max (fold_right Z.max 0 (map visibleLength (bodyLines message)))
        (visibleLength title) + 2.

End BuildBox.
End Box.

(* ===================================================================== *)
(** ** Live log: [taskLog] *)
(* ===================================================================== *)

Module TaskLog.

(** The two variables captured by the closures. *)
Record state : Type := {
  output : jsstring;
  frame : jsstring
}.

Section TaskLog.
Variable unicode : bool.
Variable color : Colors.
(** [options.parser], when given. *)
Variable parser : option (jsstring -> jsstring).

Definition BAR : jsstring := dim color (S_BAR unicode).
Definition ACTIVE : jsstring := green color (S_STEP_SUBMIT unicode).
Definition SUCCESS : jsstring := green color (S_SUCCESS unicode).
Definition ERROR : jsstring := red color (S_ERROR unicode).

(** [taskLog(title)]: writes the heading, starts with empty buffers. *)
Definition taskLog (title : jsstring) : state * list chunk :=
  ({| output := []; frame := [] |},
   [Text (BAR ++ nl); Text (ACTIVE ++ lit "  " ++ title ++ nl)]).

(** frame.split('\n').reduce((height, line) =>
      height + Math.ceil(line.length / terminalWidth), 0), for a terminal
    of positive width (with 0 columns the JavaScript sum is NaN, which
    this integer does not follow). *)
Definition frameHeight (terminalWidth : Z) (frame : jsstring) : Z :=
  fold_left (fun height line => height + ceil_div (len line) terminalWidth)
            (split_nl frame) 0.

(** [clear(eraseTitle)]; [columns] is [process.stdout.columns], read at the
    call. An empty [frame] is falsy: nothing is written. *)
Definition clear (columns : Z) (eraseTitle : bool) (st : state)
  : list chunk :=
  match st.(frame) with
  | [] => []
  | _ :: _ =>
      let terminalWidth := columns in
      let lines := frameHeight terminalWidth st.(frame)
                   + (if eraseTitle then 1 else 0) in
      [CursorUp lines; EraseDown 1]
  end.

(** [print(limit)]: re-renders the whole buffer into [frame]. *)
Definition print (limit : Z) (st : state) : state * list chunk :=
  let parsedOutput := match parser with
                      | Some parse => parse st.(output)
                      | None => st.(output)
                      end in
  let all := split_nl parsedOutput in
  let lines := slice (- limit) (len all) all in
  let frame := fold_left (fun frame line =>
                            frame ++ BAR ++ lit "  " ++ line ++ nl)
                         lines [] in
  ({| output := st.(output); frame := frame |}, [Text (dim color frame)]).

(** set text(data) *)
Definition text (columns : Z) (data : jsstring) (st : state)
  : state * list chunk :=
  let w1 := clear columns false st in
  let st1 := {| output := st.(output) ++ data; frame := st.(frame) |} in
  let (st2, w2) := print 0 st1 in
  (st2, w1 ++ w2).

Definition fail (columns : Z) (message : jsstring) (st : state)
  : state * list chunk :=
  let w1 := clear columns true st in
  let w2 := [Text (ERROR ++ lit "  " ++ message ++ nl)] in
  let (st2, w3) := print 0 st in
  (st2, w1 ++ w2 ++ w3).

Definition success (columns : Z) (message : jsstring) (st : state)
  : state * list chunk :=
  let w1 := clear columns true st in
  (st, w1 ++ [Text (SUCCESS ++ lit "  " ++ message ++ nl)]).

(** What [print] paints for a buffer of one line. *)
Definition oneLine (o : jsstring) : jsstring :=
  BAR ++ lit "  " ++ o ++ nl.

(** [n] appends in a row, from a given state. *)
Definition appendAll (columns : Z) (datas : list jsstring) (st : state)
  : state * list chunk :=
  fold_left (fun acc data =>
               let (st', w) := text columns data (fst acc) in
               (st', snd acc ++ w))
            datas (st, []).

End TaskLog.
End TaskLog.

(* ===================================================================== *)
(** ** Frame clock and lifecycle guard: [spinner] *)
(* ===================================================================== *)

Module Spinner.

(** The three functions the spinner registers as process listeners;
    [handleExitListener] is [handleExit] itself, listening to 'exit'. *)
Inductive handler : Type :=
| errorEventHandler
| signalEventHandler
| handleExitListener.

Inductive eventName : Type :=
| uncaughtExceptionMonitor
| unhandledRejection
| SIGINT
| SIGTERM
| exit.

(** Calls that leave the spinner, in the order they are made. *)
Inductive effect : Type :=
| Write : chunk -> effect
| Block : effect
| Unblock : effect
| SetInterval : nat -> effect
| ClearInterval : option nat -> effect
| On : eventName -> handler -> effect
| RemoveListener : eventName -> handler -> effect.

(** The closure variables of [spinner()] together with the part of the
    process they act on. *)
Record state : Type := {
  isSpinnerActive : bool;
  _message : jsstring;
  unblock : bool;               (* [unblock] holds the function from block() *)
  loop : option nat;            (* handle returned by the last setInterval *)
  frameIndex : Z;               (* of the interval callback *)
  dotsTimer8 : Z;               (* [dotsTimer], counted in eighths *)
  timers : list nat;            (* intervals that are still scheduled *)
  nextTimer : nat;
  listeners : list (eventName * handler); (* process listeners, in order *)
  inputBlocked : bool;
  trace : list effect
}.

Inductive completion : Type :=
| Normal
| TypeError.   (* calling [unblock] while it is still undefined *)

Definition handler_eqb (a b : handler) : bool :=
  match a, b with
  | errorEventHandler, errorEventHandler
  | signalEventHandler, signalEventHandler
  | handleExitListener, handleExitListener => true
  | _, _ => false
  end.

Definition eventName_eqb (a b : eventName) : bool :=
  match a, b with
  | uncaughtExceptionMonitor, uncaughtExceptionMonitor
  | unhandledRejection, unhandledRejection
  | SIGINT, SIGINT
  | SIGTERM, SIGTERM
  | exit, exit => true
  | _, _ => false
  end.

Definition same (x y : eventName * handler) : bool :=
  eventName_eqb (fst x) (fst y) && handler_eqb (snd x) (snd y).

Fixpoint removeFirst (x : eventName * handler)
    (l : list (eventName * handler)) : list (eventName * handler) :=
  match l with
  | [] => []
  | y :: t => if same x y then t else y :: removeFirst x t
  end.

(** [process.removeListener] removes the most recently added instance. *)
Definition removeLast (x : eventName * handler)
    (l : list (eventName * handler)) : list (eventName * handler) :=
  rev (removeFirst x (rev l)).

(** Assignments to one closure variable, and calls into the process. Each
    takes the state apart once and rebuilds it with one part changed. *)
Definition setActive (b : bool) (st : state) : state :=
  let (_, m, u, lp, fi, dt, ts, nt, ls, ib, tr) := st in
  Build_state b m u lp fi dt ts nt ls ib tr.

Definition setMessage (m : jsstring) (st : state) : state :=
  let (a, _, u, lp, fi, dt, ts, nt, ls, ib, tr) := st in
  Build_state a m u lp fi dt ts nt ls ib tr.

Definition setCounters (fi dt : Z) (st : state) : state :=
  let (a, m, u, lp, _, _, ts, nt, ls, ib, tr) := st in
  Build_state a m u lp fi dt ts nt ls ib tr.

Definition logEffect (e : effect) (st : state) : state :=
  let (a, m, u, lp, fi, dt, ts, nt, ls, ib, tr) := st in
  Build_state a m u lp fi dt ts nt ls ib (tr ++ [e]).

(** unblock = block() *)
Definition block (st : state) : state :=
  let (a, m, _, lp, fi, dt, ts, nt, ls, _, tr) := logEffect Block st in
  Build_state a m true lp fi dt ts nt ls true tr.

(** unblock(), once [unblock] holds a function. [inputBlocked] is one
    flag: it follows the input while at most one function returned by
    [block()] is outstanding, as in the life of a spinner that is started
    and stopped in turn; what is held after a second [start] is counted
    from the trace (see [heldBlocks]). *)
Definition callUnblock (st : state) : state :=
  let (a, m, u, lp, fi, dt, ts, nt, ls, _, tr) := logEffect Unblock st in
  Build_state a m u lp fi dt ts nt ls false tr.

(** loop = setInterval(callback, delay) *)
Definition setInterval (st : state) : state :=
  let (a, m, u, _, fi, dt, ts, nt, ls, ib, tr) :=
    logEffect (SetInterval st.(nextTimer)) st in
  Build_state a m u (Some nt) fi dt (nt :: ts) (S nt) ls ib tr.

(** clearInterval(loop) *)
Definition clearInterval (st : state) : state :=
  let (a, m, u, lp, fi, dt, ts, nt, ls, ib, tr) :=
    logEffect (ClearInterval st.(loop)) st in
  Build_state a m u lp fi dt
    (match lp with
     | Some id => filter (fun t => negb (Nat.eqb id t)) ts
     | None => ts
     end)
    nt ls ib tr.

(** process.on(ev, h) *)
Definition on (ev : eventName) (h : handler) (st : state) : state :=
  let (a, m, u, lp, fi, dt, ts, nt, ls, ib, tr) := logEffect (On ev h) st in
  Build_state a m u lp fi dt ts nt (ls ++ [(ev, h)]) ib tr.

(** process.removeListener(ev, h) *)
Definition removeListener (ev : eventName) (h : handler) (st : state)
  : state :=
  let (a, m, u, lp, fi, dt, ts, nt, ls, ib, tr) :=
    logEffect (RemoveListener ev h) st in
  Build_state a m u lp fi dt ts nt (removeLast (ev, h) ls) ib tr.

(** process.stdout.write(c) *)
Definition write (c : chunk) (st : state) : state := logEffect (Write c) st.

Definition registerHooks (st : state) : state :=
  let st := on uncaughtExceptionMonitor errorEventHandler st in
  let st := on unhandledRejection errorEventHandler st in
  let st := on SIGINT signalEventHandler st in
  let st := on SIGTERM signalEventHandler st in
  on exit handleExitListener st.

Definition clearHooks (st : state) : state :=
  let st := removeListener uncaughtExceptionMonitor errorEventHandler st in
  let st := removeListener unhandledRejection errorEventHandler st in
  let st := removeListener SIGINT signalEventHandler st in
  let st := removeListener SIGTERM signalEventHandler st in
  removeListener exit handleExitListener st.

Section Spinner.
Variable unicode : bool.
Variable color : Colors.

Definition frames : list jsstring :=
  if unicode then [[9682%N]; [9680%N]; [9683%N]; [9681%N]]
  else [[8226%N]; lit "o"; lit "O"; lit "0"].

(** A spinner that has just been created in a process that holds nothing
    else. *)
Definition init : state :=
  {| isSpinnerActive := false; _message := []; unblock := false;
     loop := None; frameIndex := 0; dotsTimer8 := 0; timers := [];
     nextTimer := 0; listeners := []; inputBlocked := false; trace := [] |}.

Definition dot : N := N_of_ascii ".".

(** msg.replace(/\.+$/, ''): the trailing run of dots is dropped. *)
Fixpoint dropDots (rev_msg : jsstring) : jsstring :=
  match rev_msg with
  | c :: t => if N.eqb c dot then dropDots t else rev_msg
  | [] => []
  end.
Definition stripTrailingDots (msg : jsstring) : jsstring :=
  rev (dropDots (rev msg)).

Definition start (msg : jsstring) (st : state) : state :=
  let st := setActive true st in
  let st := block st in
  let st := setMessage (stripTrailingDots msg) st in
  let st := write (Text (gray color (S_BAR unicode) ++ nl)) st in
  let st := setCounters 0 0 st in        (* frameIndex = 0, dotsTimer = 0 *)
  let st := registerHooks st in
  setInterval st.

(** One firing of the interval callback of the last [start]; it only
    fires while that interval is scheduled. *)
Definition tick (st : state) : state :=
  match st.(loop) with
  | Some id =>
      if existsb (Nat.eqb id) st.(timers) then
        let frameIndex := st.(frameIndex) in
        let dotsTimer8 := st.(dotsTimer8) in
        let frame := magenta color (nth (Z.to_nat frameIndex) frames []) in
        let loadingDots := firstn 3 (repeat_str [dot] (dotsTimer8 / 8)) in
        let st := write (CursorMove (-999) 0) st in
        let st := write (EraseDown 1) st in
        let st :=
          write (Text (frame ++ lit "  " ++ st.(_message) ++ loadingDots))
                st in
        setCounters
          (if frameIndex + 1 <? len frames then frameIndex + 1 else 0)
          (if dotsTimer8 <? 8 * len frames then dotsTimer8 + 1 else 0)
          st
      else st
  | None => st
  end.

(** The glyph of the final line. *)
Definition step (code : Z) : jsstring :=
  if code =? 0 then green color (S_STEP_SUBMIT unicode)
  else if code =? 1 then red color (S_STEP_CANCEL unicode)
  else red color (S_STEP_ERROR unicode).

(** [stop(msg, code)]. [msg] is a string (an omitted argument is ''), so
    [msg ?? _message] is [msg]. *)
Definition stop (msg : jsstring) (code : Z) (st : state)
  : state * completion :=
  let st := setMessage msg st in
  let st := setActive false st in
  let st := clearInterval st in
  let st := write (CursorMove (-999) 0) st in
  let st := write (EraseDown 1) st in
  let st := write (Text (step code ++ lit "  " ++ msg ++ nl)) st in
  let st := clearHooks st in
  if st.(unblock) then (callUnblock st, Normal) else (st, TypeError).

Definition message (msg : jsstring) (st : state) : state :=
  setMessage msg st.

(** const msg = code > 1 ? 'Something went wrong' : 'Canceled' *)
Definition exitMessage (code : Z) : jsstring :=
  if code >? 1 then lit "Something went wrong" else lit "Canceled".

Definition handleExit (code : Z) (st : state) : state * completion :=
  let msg := exitMessage code in
  if st.(isSpinnerActive) then stop msg code st else (st, Normal).

(** Calling a registered listener; [arg] is the exit code that the 'exit'
    event passes to its listeners. *)
Definition call (h : handler) (arg : Z) (st : state) : state * completion :=
  match h with
  | errorEventHandler => handleExit 2 st
  | signalEventHandler => handleExit 1 st
  | handleExitListener => handleExit arg st
  end.

(** [process.emit(ev, arg)]: the listeners registered for [ev] at the time
    of the call run in registration order; an exception ends the round. *)
Fixpoint runAll (hs : list handler) (arg : Z) (st : state)
  : state * completion :=
  match hs with
  | [] => (st, Normal)
  | h :: t =>
      match call h arg st with
      | (st', Normal) => runAll t arg st'
      | (st', TypeError) => (st', TypeError)
      end
  end.

Definition listenersOf (ev : eventName) (st : state) : list handler :=
  map snd (filter (fun l => eventName_eqb ev (fst l)) st.(listeners)).

Definition emit (ev : eventName) (arg : Z) (st : state)
  : state * completion :=
  runAll (listenersOf ev st) arg st.

(** The five events the guard listens to, with the exit code each of them
    leads to: a signal is a cancellation, a fault is an error, the exit
    event carries the process's own exit code. *)
Definition exitCodeOf (ev : eventName) (arg : Z) : Z :=
  match ev with
  | uncaughtExceptionMonitor | unhandledRejection => 2
  | SIGINT | SIGTERM => 1
  | exit => arg
  end.

(** The final glyph as the three cases of the exit code. *)
Definition finalGlyph (code : Z) : jsstring :=
  match code with
  | 0 => green color (S_STEP_SUBMIT unicode)
  | 1 => red color (S_STEP_CANCEL unicode)
  | _ => red color (S_STEP_ERROR unicode)
  end.

(** Life of one spinner: created, then started and stopped in turn, with
    ticks and [message] calls while it runs. *)
Inductive phase : Type := Stopped | Running.

Inductive lifecycle : phase -> state -> Prop :=
| life_init : lifecycle Stopped init
| life_start : forall st msg,
    lifecycle Stopped st -> lifecycle Running (start msg st)
| life_tick : forall st,
    lifecycle Running st -> lifecycle Running (tick st)
| life_message : forall p st msg,
    lifecycle p st -> lifecycle p (message msg st)
| life_stop : forall st msg code,
    lifecycle Running st -> lifecycle Stopped (fst (stop msg code st))
| life_emit : forall p st ev arg,
    lifecycle p st -> lifecycle Stopped (fst (emit ev arg st)).

Definition hooks : list (eventName * handler) :=
  [(uncaughtExceptionMonitor, errorEventHandler);
   (unhandledRejection, errorEventHandler);
   (SIGINT, signalEventHandler);
   (SIGTERM, signalEventHandler);
   (exit, handleExitListener)].

(** What holds of a spinner in each phase of its life. *)
Definition phaseInv (ph : phase) (st : state) : Prop :=
  match ph with
  | Running =>
      st.(isSpinnerActive) = true /\ st.(unblock) = true
      /\ (exists id, st.(loop) = Some id /\ st.(timers) = [id])
      /\ st.(listeners) = hooks /\ st.(inputBlocked) = true
  | Stopped =>
      st.(isSpinnerActive) = false /\ st.(timers) = []
      /\ st.(listeners) = [] /\ st.(inputBlocked) = false
  end.

(** The effects of one [stop] on a running spinner, in order. *)
Definition stopEffects (id : nat) (msg : jsstring) (code : Z)
  : list effect :=
  [ClearInterval (Some id);
   Write (CursorMove (-999) 0);
   Write (EraseDown 1);
   Write (Text (finalGlyph code ++ lit "  " ++ msg ++ nl));
   RemoveListener uncaughtExceptionMonitor errorEventHandler;
   RemoveListener unhandledRejection errorEventHandler;
   RemoveListener SIGINT signalEventHandler;
   RemoveListener SIGTERM signalEventHandler;
   RemoveListener exit handleExitListener;
   Unblock].

End Spinner.
End Spinner.

(* ===================================================================== *)
(** ** The spinner under any use *)
(* ===================================================================== *)

Module SpinnerUse.
Import Spinner.

(** The exit code a handler passes to [handleExit]; [arg] is the code
    that the 'exit' event carries. *)
Definition codeOf (h : handler) (arg : Z) : Z :=
  match h with
  | errorEventHandler => 2
  | signalEventHandler => 1
  | handleExitListener => arg
  end.

(** The process listeners after [n] calls of [registerHooks] that no
    [clearHooks] has undone: [n] copies of the five hooks. *)
Definition hooksTimes (n : nat) : list (eventName * handler) :=
  concat (repeat hooks n).

(** What holds of the closure variables and the listeners however the
    spinner is used. *)
Definition useInv (st : state) : Prop :=
  exists n : nat,
    st.(listeners) = hooksTimes n
    /\ (st.(isSpinnerActive) = true ->
        st.(unblock) = true /\ (1 <= n)%nat).

Section Use.
Variable unicode : bool.
Variable color : Colors.

(** Every state one spinner can be brought to: the three functions it
    returns called in any order and any number of times ([start] on a
    spinner that runs and [stop] on one that does not included), firings
    of the interval of the last [start], guarded events, and any other
    write to the terminal (a firing of the interval of an earlier [start]
    that was never cleared writes three chunks). *)
Inductive anyUse : state -> Prop :=
| use_init : anyUse init
| use_start : forall st msg,
    anyUse st -> anyUse (start unicode color msg st)
| use_tick : forall st,
    anyUse st -> anyUse (tick unicode color st)
| use_message : forall st msg,
    anyUse st -> anyUse (message msg st)
| use_stop : forall st msg code,
    anyUse st -> anyUse (fst (stop unicode color msg code st))
| use_emit : forall st ev arg,
    anyUse st -> anyUse (fst (emit unicode color ev arg st))
| use_write : forall st c,
    anyUse st -> anyUse (write c st).

End Use.
End SpinnerUse.

(* ===================================================================== *)
(** ** More of [index.ts]: vocabulary *)
(* ===================================================================== *)

Module Vocab.

(** [subseq a b]: [a] is [b] with some elements left out. *)
Inductive subseq {A : Type} : list A -> list A -> Prop :=
| subseq_nil : subseq [] []
| subseq_skip : forall x a b, subseq a b -> subseq a (x :: b)
| subseq_keep : forall x a b, subseq a b -> subseq (x :: a) (x :: b).

(** The number of newlines in a string: the number of terminal lines it
    ends when it is written. *)
Definition countNl (s : jsstring) : Z :=
  len (filter (fun c => N.eqb c newline) s).

(** A style function that adds no newline to a text that has none. *)
Definition lineSafe (f : jsstring -> jsstring) : Prop :=
  forall x, noNewline x = true -> noNewline (f x) = true.

End Vocab.
Import Vocab.

(* ===================================================================== *)
(** ** The live log, seen line by line *)
(* ===================================================================== *)

Module TaskLogLines.
Section Lines.
Variable unicode : bool.
Variable color : Colors.
Variable parser : option (jsstring -> jsstring).

(** parser ? parser(output) : output *)
Definition parsed (output : jsstring) : jsstring :=
  match parser with
  | Some parse => parse output
  | None => output
  end.

(** One line of the frame: `${BAR}  ${line}\n`. *)
Definition paintLine (line : jsstring) : jsstring :=
  TaskLog.BAR unicode color ++ lit "  " ++ line ++ nl.

(** The frame of a buffer: its parsed lines, painted one after another. *)
Definition paintedFrame (output : jsstring) : jsstring :=
  concat (map paintLine (split_nl (parsed output))).

(** Terminal rows that [clear] counts for a buffer on [w] columns. *)
Definition rowsOf (w : Z) (output : jsstring) : Z :=
  fold_right Z.add 0
    (map (fun line =>
            ceil_div (len (TaskLog.BAR unicode color) + 2 + len line) w)
         (split_nl (parsed output))).

End Lines.
End TaskLogLines.

(* ===================================================================== *)
(** ** The spinner over time *)
(* ===================================================================== *)

Module SpinnerRuns.
Import Spinner.
Section Runs.
Variable unicode : bool.
Variable color : Colors.

(** [k] firings of the interval callback. *)
Fixpoint ticks (k : nat) (st : state) : state :=
  match k with
  | O => st
  | S k' => tick unicode color (ticks k' st)
  end.

(** `${frame}  ${_message}${loadingDots}`: what the callback writes when
    its counters stand at [fi] and [dt] (eighths) and the message is [m]. *)
Definition tickLine (fi dt : Z) (m : jsstring) : chunk :=
  let frame := magenta color (nth (Z.to_nat fi) (frames unicode) []) in
  let loadingDots := firstn 3 (repeat_str [dot] (dt / 8)) in
  Text (frame ++ lit "  " ++ m ++ loadingDots).

End Runs.

(** The calls of a trace that are not writes to the terminal. *)
Definition isWrite (e : effect) : bool :=
  match e with
  | Write _ => true
  | _ => false
  end.

Definition nonWrites (tr : list effect) : list effect :=
  filter (fun e => negb (isWrite e)) tr.

(** What one spinner that is started and stopped once does to the process,
    its writes apart, when its interval gets the handle [id]. *)
Definition bracket (id : nat) : list effect :=
  [Block;
   On uncaughtExceptionMonitor errorEventHandler;
   On unhandledRejection errorEventHandler;
   On SIGINT signalEventHandler;
   On SIGTERM signalEventHandler;
   On exit handleExitListener;
   SetInterval id;
   ClearInterval (Some id);
   RemoveListener uncaughtExceptionMonitor errorEventHandler;
   RemoveListener unhandledRejection errorEventHandler;
   RemoveListener SIGINT signalEventHandler;
   RemoveListener SIGTERM signalEventHandler;
   RemoveListener exit handleExitListener;
   Unblock].

(** Calls of [block()] in a trace less calls of a function that [block()]
    returned: the acquisitions of the input that are still held, as long
    as no release function is called twice. *)
Definition heldBlocks (tr : list effect) : Z :=
  len (filter (fun e => match e with Block => true | _ => false end) tr)
  - len (filter (fun e => match e with Unblock => true | _ => false end)
                tr).

End SpinnerRuns.

(* ===================================================================== *)
(** ** [tasks] *)
(* ===================================================================== *)

Module Tasks.
Import Spinner.

(** What a task function does while [tasks] awaits it, as far as the
    spinner is concerned: it calls the [message] function it was given,
    and the interval of the spinner fires in between. *)
Inductive taskStep : Type :=
| Says : jsstring -> taskStep     (* message(string) *)
| Fires : taskStep.               (* one firing of the interval *)

(** How the awaited call ends: with a string, with undefined, or with an
    exception (a rejected promise). *)
Inductive outcome : Type :=
| Returns : option jsstring -> outcome
| Throws : outcome.

Record Task : Type := {
  title : jsstring;
  script : list taskStep;
  ending : outcome;
  enabled : option bool            (* enabled?: boolean *)
}.

(** The promise that [tasks] returns. *)
Inductive settled : Type := Resolved | Rejected.

(** [spinner()]: new closure variables, in the same process. *)
Definition spinner (st : state) : state :=
  let (_, _, _, _, fi, dt, ts, nt, ls, ib, tr) := st in
  Build_state false [] false None fi dt ts nt ls ib tr.

(** result || task.title *)
Definition resultOrTitle (result : option jsstring) (title : jsstring)
  : jsstring :=
  match result with
  | Some (c :: r) => c :: r
  | Some [] | None => title
  end.

(** task.enabled === false *)
Definition skipped (task : Task) : bool :=
  match task.(enabled) with
  | Some false => true
  | _ => false
  end.

Section Tasks.
Variable unicode : bool.
Variable color : Colors.

Definition runStep (st : state) (s : taskStep) : state :=
  match s with
  | Says msg => message msg st
  | Fires => tick unicode color st
  end.

Fixpoint tasks (ts : list Task) (st : state) : state * settled :=
  match ts with
  | [] => (st, Resolved)
  | task :: rest =>
      if skipped task then tasks rest st
      else
        let st := spinner st in
        let st := start unicode color task.(title) st in
        let st := fold_left runStep task.(script) st in
        match task.(ending) with
        | Throws => (st, Rejected)
        | Returns result =>
            match stop unicode color
                    (resultOrTitle result task.(title)) 0 st with
            | (st, Normal) => tasks rest st
            | (st, TypeError) => (st, Rejected)
            end
        end
  end.

End Tasks.
End Tasks.

(* ===================================================================== *)
(** ** [log.message] and its variants *)
(* ===================================================================== *)

Module Log.

Definition S_INFO u := s u [9679%N] [8226%N].                  (* U+25CF *)
Definition S_WARN u := s u [9650%N] (lit "!").                 (* U+25B2 *)

Section Log.
Variable unicode : bool.
Variable color : Colors.
Variable blue : jsstring -> jsstring.      (* color.blue *)
Variable yellow : jsstring -> jsstring.    (* color.yellow *)

(** [log.message(message, { symbol })]; the text that is written. An
    omitted symbol is [None]. [split] never returns an empty array. *)
Definition message (message : jsstring) (symbol : option jsstring)
  : jsstring :=
  let symbol := match symbol with
                | Some symbol => symbol
                | None => gray color (S_BAR unicode)
                end in
  let parts := [gray color (S_BAR unicode)] in
  let parts :=
    match message with
    | [] => parts
    | _ :: _ =>
        match split_nl message with
        | firstLine :: lines =>
            parts
            ++ (symbol ++ lit "  " ++ firstLine)
               :: map (fun ln => gray color (S_BAR unicode) ++ lit "  " ++ ln)
                      lines
        | [] => parts
        end
    end in
  join nl parts ++ nl.

Definition info (msg : jsstring) : jsstring :=
  message msg (Some (blue (S_INFO unicode))).

Definition success (msg : jsstring) : jsstring :=
  message msg (Some (green color (S_SUCCESS unicode))).

Definition step (msg : jsstring) : jsstring :=
  message msg (Some (green color (S_STEP_SUBMIT unicode))).

Definition warn (msg : jsstring) : jsstring :=
  message msg (Some (yellow (S_WARN unicode))).

Definition warning (msg : jsstring) : jsstring := warn msg.

Definition error (msg : jsstring) : jsstring :=
  message msg (Some (red color (S_ERROR unicode))).

End Log.
End Log.

(* ===================================================================== *)
(** ** The frame of [select] *)
(* ===================================================================== *)

Module Select.

Definition S_STEP_ACTIVE u := s u [9670%N] (lit "*").          (* U+25C6 *)
Definition S_BAR_END u := s u [9492%N] [8212%N].               (* U+2514 *)
Definition S_RADIO_ACTIVE u := s u [9679%N] (lit ">").         (* U+25CF *)
Definition S_RADIO_INACTIVE u := s u [9675%N] (lit " ").       (* U+25CB *)

(** The states of a prompt of the core library. *)
Inductive State : Type := Initial | Active | Cancel | Error | Submit.

(** The second argument of [opt]. *)
Inductive optState : Type := inactive | active | selected | cancelled.

Section Select.
Variable unicode : bool.
Variable color : Colors.
Variable cyan : jsstring -> jsstring.           (* color.cyan *)
Variable yellow : jsstring -> jsstring.         (* color.yellow *)
Variable strikethrough : jsstring -> jsstring.  (* color.strikethrough *)
Variable Value : Type.
Variable toString : Value -> jsstring.         (* String(option.value) *)

Record Option : Type := {
  value : Value;
  label : option jsstring;
  hint : option jsstring
}.

Definition symbol (state : State) : jsstring :=
  match state with
  | Initial | Active => cyan (S_STEP_ACTIVE unicode)
  | Cancel => red color (S_STEP_CANCEL unicode)
  | Error => yellow (S_STEP_ERROR unicode)
  | Submit => green color (S_STEP_SUBMIT unicode)
  end.

(** option.label ?? String(option.value) *)
Definition labelOf (option : Option) : jsstring :=
  match option.(label) with
  | Some label => label
  | None => toString option.(value)
  end.

(** option.hint ? color.dim(`(${option.hint})`) : '' *)
Definition hintOf (option : Option) : jsstring :=
  match option.(hint) with
  | Some (c :: h) => dim color (lit "(" ++ (c :: h) ++ lit ")")
  | Some [] | None => []
  end.

Definition opt (option : Option) (state : optState) : jsstring :=
  let label := labelOf option in
  match state with
  | selected => dim color label
  | active =>
      green color (S_RADIO_ACTIVE unicode) ++ lit " " ++ label ++ lit " "
      ++ hintOf option
  | cancelled => strikethrough (dim color label)
  | inactive =>
      dim color (S_RADIO_INACTIVE unicode) ++ lit " " ++ dim color label
  end.

(** this.options[this.cursor] *)
Definition optionAt (options : list Option) (cursor : Z) : option Option :=
  if cursor <? 0 then None else nth_error options (Z.to_nat cursor).

(** The [render] method of the prompt that [select] builds, as a function
    of what it reads: the terminal height, [opts.message] and
    [opts.maxItems], and the prompt's state, options and cursor. [None] is
    the TypeError of reading a property of [undefined], when the cursor
    does not point at an option. *)
Definition render (rows : Z) (message : jsstring) (maxItems : option Z)
    (state : State) (options : list Option) (cursor : Z)
  : option jsstring :=
  let title := gray color (S_BAR unicode) ++ nl
               ++ symbol state ++ lit "  " ++ message ++ nl in
  match state with
  | Submit =>
      match optionAt options cursor with
      | Some o =>
          Some (title ++ gray color (S_BAR unicode) ++ lit "  "
                ++ opt o selected)
      | None => None
      end
  | Cancel =>
      match optionAt options cursor with
      | Some o =>
          Some (title ++ gray color (S_BAR unicode) ++ lit "  "
                ++ opt o cancelled ++ nl ++ gray color (S_BAR unicode))
      | None => None
      end
  | _ =>
      Some (title ++ cyan (S_BAR unicode) ++ lit "  "
            ++ join (nl ++ cyan (S_BAR unicode) ++ lit "  ")
                 (Viewport.limitOptions (dim color) rows
                    {| Viewport.cursor := cursor;
                       Viewport.options := options;
                       Viewport.maxItems := maxItems;
                       Viewport.style :=
                         fun item act =>
                           opt item (if act : bool then active
                                     else inactive) |})
            ++ nl ++ cyan (S_BAR_END unicode) ++ nl)
  end.

End Select.
End Select.

(* ===================================================================== *)
(** * Properties *)
(* ===================================================================== *)

(** ** Lists, [slice] and [mapi] *)

Module JSFacts.

Lemma len_nonneg {A : Type} (l : list A) : 0 <= len l.
Proof. unfold len; lia. Qed.

Lemma length_mapi_from {A B : Type} (f : Z -> A -> B) (l : list A) :
  forall i, length (mapi_from f i l) = length l.
Proof. induction l as [|x t IH]; intros i; simpl; [reflexivity|]. now rewrite IH. Qed.

Lemma nth_error_mapi_from {A B : Type} (f : Z -> A -> B) (l : list A) :
  forall i k,
    nth_error (mapi_from f i l) k
    = option_map (f (i + Z.of_nat k)) (nth_error l k).
Proof.
  induction l as [|x t IH]; intros i k.
  - destruct k; reflexivity.
  - destruct k as [|k]; simpl.
    + now rewrite Z.add_0_r.
    + rewrite IH. do 2 f_equal. lia.
Qed.

Lemma nth_error_mapi {A B : Type} (f : Z -> A -> B) (l : list A) (k : nat) :
  nth_error (mapi f l) k = option_map (f (Z.of_nat k)) (nth_error l k).
Proof. unfold mapi. now rewrite nth_error_mapi_from. Qed.

Lemma mapi_from_map {A B C : Type} (g : B -> C) (f : Z -> A -> B)
    (l : list A) :
  forall i, mapi_from (fun k x => g (f k x)) i l = map g (mapi_from f i l).
Proof. induction l as [|x t IH]; intros i; simpl; [reflexivity|]. now rewrite IH. Qed.

Lemma mapi_from_ext {A B : Type} (f g : Z -> A -> B) (l : list A) :
  (forall k x, f k x = g k x) ->
  forall i, mapi_from f i l = mapi_from g i l.
Proof.
  intros E. induction l as [|x t IH]; intros i; simpl; [reflexivity|].
  now rewrite E, IH.
Qed.

(** For arguments that are not negative [slice] is [firstn] of [skipn]. *)
Lemma slice_nonneg {A : Type} (l : list A) (a b : Z) :
  0 <= a -> 0 <= b ->
  slice a b l
  = firstn (Z.to_nat (Z.min b (len l) - Z.min a (len l)))
           (skipn (Z.to_nat (Z.min a (len l))) l).
Proof.
  intros Ha Hb. unfold slice.
  destruct (Z.ltb_spec a 0); [lia|]. destruct (Z.ltb_spec b 0); [lia|].
  reflexivity.
Qed.

Lemma length_slice {A : Type} (l : list A) (a b : Z) :
  0 <= a -> a <= b ->
  len (slice a b l) = Z.min b (len l) - Z.min a (len l).
Proof.
  intros Ha Hb. rewrite slice_nonneg by lia. unfold len.
  rewrite length_firstn, length_skipn. lia.
Qed.

Lemma nth_error_slice {A : Type} (l : list A) (a b : Z) (k : nat) :
  0 <= a -> a + Z.of_nat k < b -> a + Z.of_nat k < len l ->
  nth_error (slice a b l) k = nth_error l (Z.to_nat (a + Z.of_nat k)).
Proof.
  intros Ha Hb Hl. rewrite slice_nonneg by lia. unfold len in *.
  rewrite nth_error_firstn.
  destruct (Nat.ltb_spec k (Z.to_nat (Z.min b (Z.of_nat (length l))
                                      - Z.min a (Z.of_nat (length l)))));
    [|lia].
  rewrite nth_error_skipn. f_equal. lia.
Qed.

End JSFacts.

(** ** Viewport window *)

Module ViewportFacts.
Import Viewport JSFacts.

Lemma effectiveMax_nonneg (mi : option Z) (rows : Z) :
  0 <= effectiveMax mi rows.
Proof. unfold effectiveMax. destruct mi; lia. Qed.

Lemma window_cases (c m L : Z) :
  let st := slidingWindowLocation c m L in
  (m - 3 <= c /\ st = Z.max (Z.min (c - m + 3) (L - m)) 0)
  \/ (c < m - 3 /\ st = 0).
Proof.
  unfold slidingWindowLocation. cbv zeta.
  rewrite Z.geb_leb.
  destruct (Z.leb_spec (0 + m - 3) c); [left; lia|].
  destruct (Z.ltb_spec c (0 + 2)); right; lia.
Qed.

Lemma window_nonneg (c m L : Z) : 0 <= slidingWindowLocation c m L.
Proof. destruct (window_cases c m L) as [[_ ->]|[_ ->]]; lia. Qed.

Lemma window_fits (c m L : Z) :
  m <= L -> slidingWindowLocation c m L + m <= L.
Proof. intros H. destruct (window_cases c m L) as [[_ ->]|[_ ->]]; lia. Qed.

Lemma window_whole (c m L : Z) : L <= m -> slidingWindowLocation c m L = 0.
Proof. intros H. destruct (window_cases c m L) as [[_ ->]|[_ ->]]; lia. Qed.

(** The flags say what their names say: the guard [maxItems < length] is
    implied by the other conjunct. *)
Lemma top_flag (c m L : Z) :
  shouldRenderTopEllipsis m (slidingWindowLocation c m L) L = true
  <-> slidingWindowLocation c m L > 0.
Proof.
  unfold shouldRenderTopEllipsis.
  rewrite andb_true_iff, Z.ltb_lt, Z.gtb_ltb, Z.ltb_lt.
  destruct (window_cases c m L) as [[_ ->]|[_ ->]]; lia.
Qed.

Lemma bottom_flag (c m L : Z) :
  0 <= m ->
  shouldRenderBottomEllipsis m (slidingWindowLocation c m L) L = true
  <-> slidingWindowLocation c m L + m < L.
Proof.
  intros Hm. unfold shouldRenderBottomEllipsis.
  rewrite andb_true_iff, !Z.ltb_lt.
  pose proof (window_nonneg c m L). lia.
Qed.

Section Rows.
Context {TOption R : Type}.
Variables (rows : Z) (ellipsis : R) (p : @LimitOptionsParams TOption R).

Lemma limitOptionsWith_length :
  len (limitOptionsWith rows ellipsis p)
  = Z.min (effectiveMax p.(maxItems) rows) (len p.(options)).
Proof.
  unfold limitOptionsWith, mapi, len at 1.
  rewrite length_mapi_from. fold (len (slice
    (slidingWindowLocation (cursor p) (effectiveMax (maxItems p) rows)
       (len (options p)))
    (slidingWindowLocation (cursor p) (effectiveMax (maxItems p) rows)
       (len (options p)) + effectiveMax (maxItems p) rows) (options p))).
  pose proof (effectiveMax_nonneg p.(maxItems) rows) as Hm.
  pose proof (window_nonneg p.(cursor) (effectiveMax p.(maxItems) rows)
                (len p.(options))) as Hs.
  rewrite length_slice by lia.
  destruct (Z.le_gt_cases (effectiveMax p.(maxItems) rows) (len p.(options)))
    as [Hle|Hgt].
  - pose proof (window_fits p.(cursor) Hle). lia.
  - rewrite window_whole in * by lia. pose proof (len_nonneg p.(options)). lia.
Qed.

(** Row [k] of the result is the option at [start + k], or the ellipsis
    when [k] is a limit row. *)
Lemma limitOptionsWith_nth (k : Z) :
  let m := effectiveMax p.(maxItems) rows in
  let L := len p.(options) in
  let st := slidingWindowLocation p.(cursor) m L in
  0 <= k < Z.min m L ->
  exists o,
    nth_error p.(options) (Z.to_nat (st + k)) = Some o
    /\ nth_error (limitOptionsWith rows ellipsis p) (Z.to_nat k)
       = Some (if ((k =? 0) && shouldRenderTopEllipsis m st L)
                  || ((k =? Z.min m L - 1)
                      && shouldRenderBottomEllipsis m st L)
               then ellipsis
               else p.(style) o (k + st =? p.(cursor))).
Proof.
  intros m L st Hk.
  pose proof (effectiveMax_nonneg p.(maxItems) rows) as Hm. fold m in Hm.
  pose proof (window_nonneg p.(cursor) m L) as Hs. fold st in Hs.
  assert (Hfit : st + k < L).
  { destruct (Z.le_gt_cases m L) as [Hle|Hgt].
    - pose proof (window_fits p.(cursor) Hle). fold st in H. lia.
    - unfold st. rewrite window_whole by lia. lia. }
  assert (Hlen : len (slice st (st + m) p.(options)) = Z.min m L).
  { rewrite length_slice by lia. fold L.
    destruct (Z.le_gt_cases m L) as [Hle|Hgt].
    - pose proof (window_fits p.(cursor) Hle). fold st in H. lia.
    - unfold st in *. rewrite window_whole in * by lia. lia. }
  destruct (nth_error p.(options) (Z.to_nat (st + k))) as [o|] eqn:Ho.
  2:{ apply nth_error_None in Ho. unfold L, len in Hfit. lia. }
  exists o. split; [reflexivity|].
  unfold limitOptionsWith. fold m L st.
  rewrite nth_error_mapi, Hlen.
  rewrite nth_error_slice; unfold L, len in *; try lia.
  replace (st + Z.of_nat (Z.to_nat k)) with (st + k) by lia.
  rewrite Ho. simpl. rewrite Z2Nat.id by lia. reflexivity.
Qed.

End Rows.

(** Reading the rows as text: the string result is the tagged result with
    every row rendered. *)
Lemma limitOptions_render {TOption : Type} (dim : jsstring -> jsstring)
    (rows : Z) (p : @LimitOptionsParams TOption jsstring) :
  limitOptions dim rows p
  = map (render (dim (lit "...")) p.(style))
        (limitRows rows p.(options) p.(maxItems) p.(cursor)).
Proof.
  unfold limitOptions, limitRows, limitOptionsWith, mapi. simpl.
  rewrite <- mapi_from_map. apply mapi_from_ext.
  intros k x. now destruct (_ || _).
Qed.

Lemma limitRows_length {TOption : Type} (rows : Z) (opts : list TOption)
    (mi : option Z) (c : Z) :
  len (limitRows rows opts mi c) = Z.min (effectiveMax mi rows) (len opts).
Proof. unfold limitRows. now rewrite limitOptionsWith_length. Qed.

Lemma limitRows_nth {TOption : Type} (rows : Z) (opts : list TOption)
    (mi : option Z) (c k : Z) :
  let m := effectiveMax mi rows in
  let L := len opts in
  let st := slidingWindowLocation c m L in
  0 <= k < Z.min m L ->
  exists o,
    nth_error opts (Z.to_nat (st + k)) = Some o
    /\ nth_error (limitRows rows opts mi c) (Z.to_nat k)
       = Some (if ((k =? 0) && shouldRenderTopEllipsis m st L)
                  || ((k =? Z.min m L - 1)
                      && shouldRenderBottomEllipsis m st L)
               then Ellipsis
               else Styled o (k + st =? c)).
Proof.
  intros m L st Hk. unfold limitRows.
  exact (limitOptionsWith_nth rows Ellipsis
           {| options := opts; maxItems := mi; cursor := c;
              style := @Styled TOption |} (k := k) Hk).
Qed.

(** C1 (as amended). The result never has more than [effectiveMax] rows.
    When the effective maximum is at least 4, or the whole list fits, the
    cursor lies inside the window and its row is the styled, active option
    at the cursor: it is not replaced by the ellipsis. *)
Theorem limitOptions_keeps_cursor :
  forall (TOption : Type) (opts : list TOption) (mi : option Z)
         (c rows : Z),
    let m := effectiveMax mi rows in
    let st := slidingWindowLocation c m (len opts) in
    len (limitRows rows opts mi c) <= m
    /\ (0 <= c < len opts ->
        4 <= m \/ len opts <= m ->
        st <= c < st + m
        /\ exists o,
             nth_error opts (Z.to_nat c) = Some o
             /\ nth_error (limitRows rows opts mi c) (Z.to_nat (c - st))
                = Some (Styled o true)).
Proof.
  intros T opts mi c rows m st.
  split.
  { rewrite limitRows_length. fold m. lia. }
  intros Hc Hm.
  pose proof (effectiveMax_nonneg mi rows) as Hm0. fold m in Hm0.
  pose proof (window_cases c m (len opts)) as Hw. cbv zeta in Hw.
  fold st in Hw.
  assert (Hin : st <= c < st + m) by lia.
  split; [exact Hin|].
  destruct (limitRows_nth rows opts mi c (k := c - st))
    as (o & Ho & Hrow).
  { fold m st. lia. }
  fold m st in Ho, Hrow.
  replace (st + (c - st)) with c in Ho by lia.
  exists o. split; [exact Ho|].
  rewrite Hrow.
  unfold shouldRenderTopEllipsis, shouldRenderBottomEllipsis.
  replace (c - st + st =? c) with true by (symmetry; apply Z.eqb_eq; lia).
  destruct (Z.eqb_spec (c - st) 0) as [E0|E0];
    destruct (Z.eqb_spec (c - st) (Z.min m (len opts) - 1)) as [E1|E1];
    destruct (Z.ltb_spec m (len opts));
    rewrite ?Z.gtb_ltb;
    destruct (Z.ltb_spec 0 st);
    destruct (Z.ltb_spec (st + m) (len opts));
    simpl; try reflexivity; exfalso; lia.
Qed.

Lemma limitOptions_keeps_cursor_witness :
  exists o,
    nth_error [10; 11; 12; 13; 14; 15; 16; 17; 18; 19] (Z.to_nat 7) = Some o
    /\ nth_error (limitRows 9 [10; 11; 12; 13; 14; 15; 16; 17; 18; 19]
                            (Some 3) 7)
                 (Z.to_nat (7 - slidingWindowLocation 7
                                   (effectiveMax (Some 3) 9) 10))
       = Some (Styled o true).
Proof.
  apply (limitOptions_keeps_cursor
           [10; 11; 12; 13; 14; 15; 16; 17; 18; 19] (Some 3) 7 9).
  - vm_compute. split; [intro; discriminate | reflexivity].
  - left. vm_compute. intro; discriminate.
Defined.

(** C1 (as stated) fails on a terminal of four rows: the row budget is 0,
    no row is returned, and the window [3, 3) does not hold the cursor. *)
Lemma limitOptions_cursor_lost_on_short_terminal :
  let opts := [10; 11; 12; 13; 14; 15; 16; 17; 18; 19] in
  0 <= 0 < len opts
  /\ limitRows 4 opts None 0 = []
  /\ ~ (slidingWindowLocation 0 (effectiveMax None 4) (len opts) <= 0
        < slidingWindowLocation 0 (effectiveMax None 4) (len opts)
          + effectiveMax None 4).
Proof.
  cbv zeta. split.
  { vm_compute. split; [intro; discriminate | reflexivity]. }
  split; [reflexivity|]. vm_compute. intros [H _]. apply H. reflexivity.
Qed.

(** C2 (as amended). A caller's limit below 5 is raised to 5, but the
    terminal's budget [max(rows - 4, 0)] caps the result: the effective
    maximum lies between [min(5, budget)] and the budget. It can exceed the
    length of the list; the number of rows returned is the smaller of the
    two, so it never exceeds the length. *)
Theorem effectiveMax_bounds :
  forall (TOption : Type) (opts : list TOption) (mi : option Z)
         (c rows : Z),
    let budget := Z.max (rows - 4) 0 in
    Z.min 5 budget <= effectiveMax mi rows <= budget
    /\ effectiveMax mi rows
       = match mi with
         | Some requested => Z.min budget (Z.max requested 5)
         | None => budget
         end
    /\ len (limitRows rows opts mi c)
       = Z.min (effectiveMax mi rows) (len opts)
    /\ len (limitRows rows opts mi c) <= len opts.
Proof.
  intros T opts mi c rows budget.
  pose proof (limitRows_length rows opts mi c) as E.
  repeat split; try exact E; try (rewrite E; lia);
    unfold effectiveMax; fold budget; destruct mi; lia.
Qed.

(** C2 (as stated) fails twice: on a terminal of six rows the effective
    maximum is 2, below 5; and with 24 rows and no caller limit it is 20
    for a list of three options. *)
Lemma effectiveMax_below_five_and_above_length :
  effectiveMax (Some 10) 6 = 2
  /\ ~ 5 <= effectiveMax (Some 10) 6
  /\ effectiveMax None 24 = 20
  /\ ~ effectiveMax None 24 <= len [1; 2; 3].
Proof. vm_compute. repeat split; try reflexivity; intros H; apply H; reflexivity. Qed.

(** C3 (as amended). The two flags are set exactly when the window starts
    after the first option, respectively ends before the last. When the
    effective maximum is at least 2 the first returned row is the ellipsis
    exactly when the window start is positive, and the last returned row
    exactly when the window ends before the list does. When the whole list
    fits no row is the ellipsis. *)
Theorem limitOptions_ellipsis_rows :
  forall (TOption : Type) (opts : list TOption) (mi : option Z)
         (c rows : Z),
    let m := effectiveMax mi rows in
    let L := len opts in
    let st := slidingWindowLocation c m L in
    let out := limitRows rows opts mi c in
    (shouldRenderTopEllipsis m st L = true <-> st > 0)
    /\ (shouldRenderBottomEllipsis m st L = true <-> st + m < L)
    /\ (2 <= m ->
        (hd_error out = Some Ellipsis <-> st > 0)
        /\ (lastRow out = Some Ellipsis <-> st + m < L))
    /\ (L <= m -> ~ In Ellipsis out).
Proof.
  intros T opts mi c rows m L st out.
  pose proof (effectiveMax_nonneg mi rows) as Hm0. fold m in Hm0.
  pose proof (len_nonneg opts) as HL0. fold L in HL0.
  pose proof (window_nonneg c m L) as Hs0. fold st in Hs0.
  assert (Hlen : len out = Z.min m L).
  { unfold out. now rewrite limitRows_length. }
  assert (Hrow : forall k, 0 <= k < Z.min m L ->
            exists o, nth_error out (Z.to_nat k)
              = Some (if ((k =? 0) && shouldRenderTopEllipsis m st L)
                         || ((k =? Z.min m L - 1)
                             && shouldRenderBottomEllipsis m st L)
                      then Ellipsis else Styled o (k + st =? c))).
  { intros k Hk.
    destruct (limitRows_nth rows opts mi c (k := k)) as (o & _ & Hr);
      [exact Hk|]. exists o. exact Hr. }
  pose proof (top_flag c m L) as Htop. fold st in Htop.
  pose proof (bottom_flag c L Hm0) as Hbot. fold st in Hbot.
  split; [exact Htop|]. split; [exact Hbot|]. split.
  - intros Hm2.
    destruct (Z.le_gt_cases L 1) as [Hsmall|Hbig].
    + (* at most one option: the list fits, the window starts at 0 *)
      assert (Est : st = 0) by (unfold st; apply window_whole; lia).
      assert (Etop : shouldRenderTopEllipsis m st L = false).
      { destruct (shouldRenderTopEllipsis m st L); [|reflexivity].
        exfalso. destruct Htop as [H _]. specialize (H eq_refl). lia. }
      assert (Ebot : shouldRenderBottomEllipsis m st L = false).
      { destruct (shouldRenderBottomEllipsis m st L); [|reflexivity].
        exfalso. destruct Hbot as [H _]. specialize (H eq_refl). lia. }
      unfold lastRow. unfold len in Hlen.
      destruct out as [|r [|r' out']]; simpl in *.
      * split; split; intros H; try discriminate; lia.
      * destruct (Hrow 0) as (o & Ho); [lia|]. simpl in Ho.
        rewrite Etop, Ebot, !andb_false_r in Ho. simpl in Ho.
        injection Ho as ->.
        split; split; intros H; try discriminate; lia.
      * lia.
    + (* at least two rows are returned *)
      destruct (Hrow 0) as (o0 & H0); [lia|].
      destruct (Hrow (Z.min m L - 1)) as (o1 & H1); [lia|].
      assert (E0 : hd_error out = nth_error out (Z.to_nat 0))
        by (destruct out; reflexivity).
      assert (E1 : lastRow out = nth_error out (Z.to_nat (Z.min m L - 1))).
      { unfold lastRow. f_equal. unfold len in Hlen. lia. }
      rewrite E0, E1, H0, H1.
      replace (0 =? Z.min m L - 1) with false
        by (symmetry; apply Z.eqb_neq; lia).
      replace (Z.min m L - 1 =? 0) with false
        by (symmetry; apply Z.eqb_neq; lia).
      rewrite !Z.eqb_refl. rewrite <- Htop, <- Hbot.
      destruct (shouldRenderTopEllipsis m st L),
               (shouldRenderBottomEllipsis m st L);
        simpl; split; split; intros H; try reflexivity; try discriminate.
  - intros Hfit Hin.
    apply In_nth_error in Hin. destruct Hin as [k Hk].
    assert (Hk' : (k < length out)%nat).
    { apply nth_error_Some. rewrite Hk. discriminate. }
    unfold len in Hlen.
    destruct (Hrow (Z.of_nat k)) as (o & Ho); [lia|].
    rewrite Nat2Z.id, Hk in Ho.
    unfold shouldRenderTopEllipsis, shouldRenderBottomEllipsis in Ho.
    destruct (Z.ltb_spec m L); [lia|].
    simpl in Ho. rewrite !andb_false_r in Ho. simpl in Ho. discriminate.
Qed.

Lemma limitOptions_ellipsis_rows_witness :
  (hd_error (limitRows 9 [10; 11; 12] (Some 3) 1) = Some Ellipsis
   <-> slidingWindowLocation 1 (effectiveMax (Some 3) 9) 3 > 0)
  /\ (lastRow (limitRows 9 [10; 11; 12] (Some 3) 1) = Some Ellipsis
      <-> slidingWindowLocation 1 (effectiveMax (Some 3) 9) 3
          + effectiveMax (Some 3) 9 < 3)
  /\ ~ In Ellipsis (limitRows 9 [10; 11; 12] (Some 3) 1).
Proof.
  destruct (limitOptions_ellipsis_rows [10; 11; 12] (Some 3) 1 9)
    as (_ & _ & Hrows & Hfit).
  destruct Hrows as [Hfirst Hlast].
  - vm_compute. intro; discriminate.
  - split; [exact Hfirst|]. split; [exact Hlast|].
    apply Hfit. vm_compute. intro; discriminate.
Defined.

(** C3 (as stated) fails on a terminal of five rows: one row is returned,
    it is the first and the last at once and it is the ellipsis, although
    the window ends where the list ends. *)
Lemma limitOptions_single_row_is_ellipsis :
  let opts := [10; 11; 12; 13; 14; 15; 16; 17; 18; 19] in
  limitRows 5 opts None 9 = [Ellipsis]
  /\ lastRow (limitRows 5 opts None 9) = Some Ellipsis
  /\ ~ (slidingWindowLocation 9 (effectiveMax None 5) (len opts)
        + effectiveMax None 5 < len opts).
Proof.
  cbv zeta. split; [reflexivity|]. split; [reflexivity|].
  vm_compute. intros H; discriminate.
Qed.

(** C4. A list of 100 options, [maxItems = 10], 50 terminal rows, cursor at
    50: the effective maximum is 10, the window starts at
    [min(50 - 10 + 3, 100 - 10) = 43], ten rows are returned, the first and
    the last are the ellipsis and the eight between are the options 44 to
    51, the one at 50 active. *)
Theorem limitOptions_hundred_options :
  forall (TOption : Type) (opts : list TOption),
    len opts = 100 ->
    let out := limitRows 50 opts (Some 10) 50 in
    effectiveMax (Some 10) 50 = 10
    /\ slidingWindowLocation 50 10 100 = Z.min (50 - 10 + 3) (100 - 10)
    /\ slidingWindowLocation 50 10 100 = 43
    /\ len out = 10
    /\ hd_error out = Some Ellipsis
    /\ lastRow out = Some Ellipsis
    /\ forall k, 1 <= k <= 8 ->
         exists o, nth_error opts (Z.to_nat (43 + k)) = Some o
                   /\ nth_error out (Z.to_nat k)
                      = Some (Styled o (k =? 7)).
Proof.
  intros T opts HL out.
  assert (Em : effectiveMax (Some 10) 50 = 10) by reflexivity.
  assert (Es : slidingWindowLocation 50 10 100 = 43) by reflexivity.
  assert (Hlen : len out = 10).
  { unfold out. rewrite limitRows_length, HL. reflexivity. }
  assert (Hrow : forall k, 0 <= k < 10 ->
            exists o, nth_error opts (Z.to_nat (43 + k)) = Some o
              /\ nth_error out (Z.to_nat k)
                 = Some (if (k =? 0) || (k =? 9) then Ellipsis
                         else Styled o (k + 43 =? 50))).
  { intros k Hk.
    destruct (limitRows_nth 50 opts (Some 10) 50 (k := k)) as (o & Ho & Hr).
    - rewrite HL, Em. lia.
    - rewrite HL, Em, Es in Ho, Hr.
      exists o. split; [exact Ho|]. unfold out.
      rewrite Hr. change (shouldRenderTopEllipsis 10 43 100) with true.
      change (shouldRenderBottomEllipsis 10 43 100) with true.
      change (Z.min 10 100 - 1) with 9. now rewrite !andb_true_r. }
  repeat split; try assumption; try reflexivity.
  - destruct (Hrow 0) as (o & _ & H0); [lia|].
    destruct out; [discriminate H0| exact H0].
  - destruct (Hrow 9) as (o & _ & H9); [lia|].
    unfold lastRow. unfold len in Hlen.
    replace (length out - 1)%nat with (Z.to_nat 9) by lia. exact H9.
  - intros k Hk. destruct (Hrow k) as (o & Ho & Hr); [lia|].
    exists o. split; [exact Ho|]. rewrite Hr.
    destruct (Z.eqb_spec k 0); [lia|]. destruct (Z.eqb_spec k 9); [lia|].
    simpl. do 2 f_equal.
    destruct (Z.eqb_spec (k + 43) 50), (Z.eqb_spec k 7); lia || reflexivity.
Qed.

Lemma limitOptions_hundred_options_witness :
  hd_error (limitRows 50 (repeat tt 100) (Some 10) 50) = Some Ellipsis
  /\ lastRow (limitRows 50 (repeat tt 100) (Some 10) 50) = Some Ellipsis.
Proof.
  destruct (limitOptions_hundred_options (repeat tt 100))
    as (_ & _ & _ & _ & Hfirst & Hlast & _).
  - reflexivity.
  - split; [exact Hfirst | exact Hlast].
Defined.

End ViewportFacts.

(** ** The backtracking matcher *)

Module MatcherFacts.

Lemma flat_map_nil {A B : Type} (f : A -> list B) (l : list A) :
  (forall x, In x l -> f x = []) -> flat_map f l = [].
Proof.
  induction l as [|x t IH]; intros H; simpl; [reflexivity|].
  rewrite (H x) by (left; reflexivity). apply IH.
  intros y Hy. apply H. right. exact Hy.
Qed.

Lemma flat_map_pointwise {A B : Type} (f g : A -> list B) (l : list A) :
  (forall x, In x l -> f x = g x) -> flat_map f l = flat_map g l.
Proof.
  induction l as [|x t IH]; intros H; simpl; [reflexivity|].
  rewrite (H x) by (left; reflexivity). f_equal. apply IH.
  intros y Hy. apply H. right. exact Hy.
Qed.

Lemma flat_map_of_map {A B C : Type} (g : A -> B) (f : B -> list C)
    (l : list A) :
  flat_map f (map g l) = flat_map (fun x => f (g x)) l.
Proof. induction l as [|x t IH]; simpl; [reflexivity|]. now rewrite IH. Qed.

Lemma map_of_flat_map {A B C : Type} (g : B -> C) (f : A -> list B)
    (l : list A) :
  map g (flat_map f l) = flat_map (fun x => map g (f x)) l.
Proof.
  induction l as [|x t IH]; simpl; [reflexivity|].
  now rewrite map_app, IH.
Qed.

(** An unbounded quantifier never needs more iterations than the string
    has code units: any larger bound gives the same results. *)
Lemma reps_fuel (step : jsstring -> list jsstring) :
  forall max1 max2 min s,
    (length s <= max1)%nat -> (length s <= max2)%nat ->
    reps step min max1 s = reps step min max2 s.
Proof.
  assert (Hempty : forall min max,
             reps step min max [] = if Nat.eqb min 0 then [[]] else []).
  { intros min [|max]; simpl; [reflexivity|].
    rewrite flat_map_nil; [reflexivity|]. intros x _. reflexivity. }
  induction max1 as [|m1 IH]; intros max2 min s H1 H2.
  - destruct s; [|simpl in H1; lia]. now rewrite !Hempty.
  - destruct max2 as [|m2].
    + destruct s; [|simpl in H2; lia]. now rewrite !Hempty.
    + simpl. f_equal. apply flat_map_pointwise. intros s' _.
      destruct (Nat.ltb_spec (length s') (length s)); [|reflexivity].
      apply IH; lia.
Qed.

(** What a pattern consumes is made of code units its classes accept. *)
Section Consumed.
Variable K : N -> bool.

Local Abbreviation within := (Ansi.within K).
Local Abbreviation eats := (Ansi.eats K).

Lemma reps_eats (step : jsstring -> list jsstring) :
  eats step -> forall max min, eats (reps step min max).
Proof.
  intros Hs. induction max as [|max IH]; intros min s t Hin; simpl in Hin.
  - destruct (Nat.eqb min 0); [|contradiction].
    destruct Hin as [<-|[]]. exists []. split; [reflexivity|constructor].
  - apply in_app_or in Hin. destruct Hin as [Hin|Hin].
    + apply in_flat_map in Hin. destruct Hin as (s' & Hs' & Hin).
      destruct (Nat.ltb_spec (length s') (length s)); [|contradiction].
      destruct (Hs _ _ Hs') as (p1 & -> & F1).
      destruct (IH _ _ _ Hin) as (p2 & -> & F2).
      exists (p1 ++ p2). rewrite <- app_assoc. split; [reflexivity|].
      apply Forall_app. split; assumption.
    + destruct (Nat.eqb min 0); [|contradiction].
      destruct Hin as [<-|[]]. exists []. split; [reflexivity|constructor].
Qed.

Lemma ms_eats (r : regex) : classes within r -> eats (ms r).
Proof.
  induction r as [|p|r1 IH1 r2 IH2|r1 IH1 r2 IH2|min max r IH];
    simpl; intros Hc s t Hin.
  - destruct Hin as [<-|[]]. exists []. split; [reflexivity|constructor].
  - destruct s as [|c s']; [contradiction|].
    destruct (p c) eqn:Hp; [|contradiction].
    destruct Hin as [<-|[]]. exists [c]. split; [reflexivity|].
    constructor; [apply Hc; exact Hp|constructor].
  - destruct Hc as [Hc1 Hc2]. simpl in Hin.
    apply in_flat_map in Hin. destruct Hin as (s' & Hs' & Hin).
    destruct (IH1 Hc1 _ _ Hs') as (p1 & -> & F1).
    destruct (IH2 Hc2 _ _ Hin) as (p2 & -> & F2).
    exists (p1 ++ p2). rewrite <- app_assoc. split; [reflexivity|].
    apply Forall_app. split; assumption.
  - destruct Hc as [Hc1 Hc2]. simpl in Hin.
    apply in_app_or in Hin. destruct Hin as [Hin|Hin];
      [apply (IH1 Hc1)|apply (IH2 Hc2)]; exact Hin.
  - simpl in Hin. exact (reps_eats (IH Hc) _ _ _ _ Hin).
Qed.

End Consumed.

Lemma classes_any (r : regex) : classes (within (fun _ => true)) r.
Proof.
  induction r; simpl; try tauto. intros c _. reflexivity.
Qed.

(** Every result is a suffix of the subject. *)
Lemma ms_suffix (r : regex) (s t : jsstring) :
  In t (ms r s) -> exists pre, s = pre ++ t.
Proof.
  intros Hin.
  destruct (@ms_eats (fun _ => true) r (classes_any r) _ _ Hin)
    as (pre & E & _).
  exists pre. exact E.
Qed.

(** A code unit that no class of the pattern accepts stops every match: in
    front of it the matcher behaves as at the end of the string. *)
Section Separator.
Variables (c : N) (y : jsstring).

Local Abbreviation rejects := (Ansi.rejects c).
Local Abbreviation past := (Ansi.past c y).
Local Abbreviation local := (Ansi.local c y).

Lemma length_past (t : jsstring) :
  length (past t) = (length t + S (length y))%nat.
Proof. unfold Ansi.past. rewrite length_app. reflexivity. Qed.

Lemma reps_local (step : jsstring -> list jsstring) :
  local step -> forall max min, local (reps step min max).
Proof.
  intros Hs. induction max as [|max IH]; intros min x; simpl.
  - destruct (Nat.eqb min 0); reflexivity.
  - rewrite map_app. f_equal; [|destruct (Nat.eqb min 0); reflexivity].
    rewrite Hs, flat_map_of_map, map_of_flat_map.
    apply flat_map_pointwise. intros s' _.
    rewrite !length_past.
    destruct (Nat.ltb_spec (length s') (length x)).
    + destruct (Nat.ltb_spec (length s' + S (length y))
                             (length x + S (length y))); [|lia].
      apply IH.
    + destruct (Nat.ltb_spec (length s' + S (length y))
                             (length x + S (length y))); [lia|].
      reflexivity.
Qed.

Lemma ms_local (r : regex) : classes rejects r -> local (ms r).
Proof.
  induction r as [|p|r1 IH1 r2 IH2|r1 IH1 r2 IH2|min max r IH];
    simpl; intros Hc x.
  - reflexivity.
  - destruct x as [|a x']; simpl.
    + unfold rejects in Hc. now rewrite Hc.
    + destruct (p a); reflexivity.
  - destruct Hc as [Hc1 Hc2]. simpl.
    rewrite (IH1 Hc1), flat_map_of_map, map_of_flat_map.
    apply flat_map_pointwise. intros s' _. apply (IH2 Hc2).
  - destruct Hc as [Hc1 Hc2]. simpl.
    now rewrite (IH1 Hc1), (IH2 Hc2), map_app.
  - simpl. destruct max as [m|].
    + apply (reps_local (IH Hc)).
    + rewrite (reps_local (IH Hc)). f_equal.
      apply reps_fuel; rewrite ?length_past; lia.
Qed.

End Separator.

(** [replaceAll] needs no more fuel than the string has code units. *)
Lemma replaceAll_fuel (r : regex) :
  forall n m s,
    (length s <= n)%nat -> (length s <= m)%nat ->
    replaceAll r n s = replaceAll r m s.
Proof.
  induction n as [|n IH]; intros m s Hn Hm.
  - destruct s; [|simpl in Hn; lia]. destruct m; reflexivity.
  - destruct m as [|m].
    + destruct s; [|simpl in Hm; lia]. reflexivity.
    + simpl. destruct s as [|a s']; [reflexivity|].
      simpl in Hn, Hm.
      destruct (ms r (a :: s')) as [|rest l].
      * f_equal. apply IH; lia.
      * destruct (Nat.ltb_spec (length rest) (length (a :: s')));
          simpl in *; [apply IH; lia|f_equal; apply IH; lia].
Qed.

End MatcherFacts.

(** ** Text metrics: [strip] *)

Module StripFacts.
Import MatcherFacts.

(** Class membership turned into arithmetic on the code unit. *)
Ltac codes :=
  repeat match goal with
         | |- context [N_of_ascii ?a] =>
             let v := eval vm_compute in (N_of_ascii a) in
             change (N_of_ascii a) with v
         | H : context [N_of_ascii ?a] |- _ =>
             let v := eval vm_compute in (N_of_ascii a) in
             change (N_of_ascii a) with v in H
         end.

Ltac class_arith :=
  cbn [startsOutside numbersText app] in *;
  unfold startsOutside, cBelParams, cIntro, cPrefix, cParam, cAlnum, cFinal,
    cBel, cSemi, digit, one, between, semi, ESC, CSI1, BEL in *;
  codes;
  rewrite ?negb_true_iff, ?negb_false_iff in *;
  rewrite ?orb_true_iff, ?andb_true_iff, ?orb_false_iff, ?andb_false_iff,
    ?N.eqb_eq, ?N.eqb_neq, ?N.leb_le, ?N.leb_gt in *;
  lia.

Lemma replaceAll_keep (r : regex) (c : N) (s : jsstring) :
  ms r (c :: s) = [] ->
  replaceAll r (length (c :: s)) (c :: s) = c :: replaceAll r (length s) s.
Proof. intros H. simpl. rewrite H. reflexivity. Qed.

Lemma replaceAll_drop (r : regex) (s rest : jsstring) (l : list jsstring) :
  ms r s = rest :: l -> (length rest < length s)%nat ->
  replaceAll r (length s) s = replaceAll r (length rest) rest.
Proof.
  intros H Hlt. destruct s as [|c s']; [simpl in Hlt; lia|].
  simpl. rewrite H. simpl in Hlt.
  destruct (Nat.ltb_spec (length rest) (S (length s'))); [|lia].
  apply replaceAll_fuel; lia.
Qed.

(** A match of the pattern is never empty. *)
Lemma ansi_progress (s t : jsstring) :
  In t (ms ansiRegex s) -> (length t < length s)%nat.
Proof.
  unfold ansiRegex. intros Hin. simpl in Hin.
  destruct s as [|c s']; [contradiction|].
  destruct (cIntro c); [|contradiction].
  simpl in Hin. rewrite app_nil_r in Hin.
  change (In t (ms (Cat (Star (Class cPrefix)) (Alt belBranch finalBranch)) s'))
    in Hin.
  destruct (ms_suffix _ _ _ Hin) as [pre ->].
  simpl. rewrite length_app. lia.
Qed.

Lemma ansi_needs_intro (c : N) (s : jsstring) :
  cIntro c = false -> ms ansiRegex (c :: s) = [].
Proof. intros H. unfold ansiRegex. simpl. rewrite H. reflexivity. Qed.

Lemma strip_nil : strip [] = [].
Proof. reflexivity. Qed.

Lemma strip_keep (c : N) (s : jsstring) :
  ms ansiRegex (c :: s) = [] -> strip (c :: s) = c :: strip s.
Proof. intros H. unfold strip. now apply replaceAll_keep. Qed.

Lemma strip_drop (s rest : jsstring) (l : list jsstring) :
  ms ansiRegex s = rest :: l -> strip s = strip rest.
Proof.
  intros H. unfold strip. apply replaceAll_drop with (l := l); [exact H|].
  apply ansi_progress. rewrite H. left. reflexivity.
Qed.

(** Code units that are not introducers are kept as they are. *)
Lemma strip_plain (t s : jsstring) :
  forallb (fun c => negb (cIntro c)) t = true ->
  strip (t ++ s) = t ++ strip s.
Proof.
  induction t as [|c t IH]; intros H; [reflexivity|].
  simpl in H. apply andb_true_iff in H. destruct H as [Hc Ht].
  simpl. rewrite strip_keep.
  - now rewrite IH.
  - apply ansi_needs_intro. now apply negb_true_iff.
Qed.

(** A code unit outside every class of the pattern splits the string into
    two parts that are stripped independently. *)
Lemma strip_separator (c : N) :
  classes (rejects c) ansiRegex ->
  forall x y, strip (x ++ c :: y) = strip x ++ c :: strip y.
Proof.
  intros Hc x y.
  remember (length x) as n eqn:Hn.
  revert x Hn. induction n as [n IH] using lt_wf_ind. intros x Hn.
  pose proof (@ms_local c y ansiRegex Hc x) as Hloc. unfold past in Hloc.
  destruct x as [|a x'].
  - cbn [app map] in *. change (ms ansiRegex []) with (@nil jsstring) in Hloc.
    rewrite strip_keep by exact Hloc. reflexivity.
  - destruct (ms ansiRegex (a :: x')) as [|rest l] eqn:Hm.
    + cbn [app map] in *. rewrite strip_keep by exact Hloc.
      rewrite (@strip_keep _ _ Hm). cbn [app]. f_equal.
      apply (IH (length x')); [simpl in Hn; lia|reflexivity].
    + cbn [app map] in *. rewrite (@strip_drop _ _ _ Hloc), (@strip_drop _ _ _ Hm).
      apply (IH (length rest)); [|reflexivity].
      subst n. apply ansi_progress. rewrite Hm. left. reflexivity.
Qed.

Lemma space_is_separator : classes (rejects 32%N) ansiRegex.
Proof. simpl. repeat split; reflexivity. Qed.

Lemma newline_is_separator : classes (rejects newline) ansiRegex.
Proof. simpl. repeat split; reflexivity. Qed.

End StripFacts.

(** ** Escape sequences that the pattern matches exactly *)

Module EscapeFacts.
Import MatcherFacts StripFacts.

(** The first result of a quantifier whose body keeps succeeding. *)
Lemma reps_run (step : jsstring -> list jsstring) :
  forall n s t, run step n s t ->
  forall min max,
    (min <= n)%nat -> (n <= max)%nat ->
    ((n < max)%nat -> step t = []) ->
    exists l, reps step min max s = t :: l.
Proof.
  induction 1 as [s|n s s' l t Hs Hlt Hrun IH]; intros min max Hmin Hmax Hend.
  - assert (min = 0)%nat as -> by lia.
    destruct max as [|m]; simpl; [now exists []|].
    rewrite Hend by lia. now exists [].
  - destruct max as [|m]; [lia|]. simpl. rewrite Hs. simpl.
    destruct (Nat.ltb_spec (length s') (length s)); [|lia].
    destruct (IH (pred min) m) as [l1 ->]; try lia.
    + intros Hn. apply Hend. lia.
    + eexists. reflexivity.
Qed.

Lemma run_length (step : jsstring -> list jsstring) :
  forall n s t, run step n s t -> (n + length t <= length s)%nat.
Proof. induction 1; simpl; lia. Qed.

Lemma rep_head (r : regex) (n : nat) (s t : jsstring) (min : nat)
    (max : option nat) :
  run (ms r) n s t -> (min <= n)%nat ->
  match max with
  | Some m => (n <= m)%nat /\ ((n < m)%nat -> ms r t = [])
  | None => ms r t = []
  end ->
  exists l, ms (Rep min max r) s = t :: l.
Proof.
  intros Hrun Hmin Hmax. simpl. destruct max as [m|].
  - destruct Hmax as [Hle Hend]. now apply reps_run with (n := n).
  - apply reps_run with (n := n); try assumption.
    + pose proof (run_length Hrun). lia.
    + intros _. exact Hmax.
Qed.

Lemma cat_head (r1 r2 : regex) (s t1 t2 : jsstring) :
  (exists l, ms r1 s = t1 :: l) -> (exists l, ms r2 t1 = t2 :: l) ->
  exists l, ms (Cat r1 r2) s = t2 :: l.
Proof.
  intros [l1 H1] [l2 H2]. simpl. rewrite H1. simpl. rewrite H2.
  eexists. reflexivity.
Qed.

Lemma class_head (p : N -> bool) (c : N) (s : jsstring) :
  p c = true -> exists l, ms (Class p) (c :: s) = s :: l.
Proof. intros H. simpl. rewrite H. now exists []. Qed.

Lemma class_stops (p : N -> bool) (y : jsstring) :
  startsOutside p y = true -> ms (Class p) y = [].
Proof.
  destruct y as [|c y]; simpl; [reflexivity|].
  intros H. apply negb_true_iff in H. now rewrite H.
Qed.

Lemma run_class (p : N -> bool) (xs y : jsstring) :
  forallb p xs = true -> run (ms (Class p)) (length xs) (xs ++ y) y.
Proof.
  induction xs as [|c xs IH]; simpl; intros H; [constructor|].
  apply andb_true_iff in H. destruct H as [Hc Hxs].
  apply run_more with (s' := xs ++ y) (l := []).
  - now rewrite Hc.
  - simpl. lia.
  - now apply IH.
Qed.

(** A run of class units followed by something outside the class: the
    greedy quantifier takes the whole run first. *)
Lemma class_run_head (p : N -> bool) (xs y : jsstring) (min : nat)
    (max : option nat) :
  forallb p xs = true -> startsOutside p y = true ->
  (min <= length xs)%nat ->
  (forall m, max = Some m -> (length xs <= m)%nat) ->
  exists l, ms (Rep min max (Class p)) (xs ++ y) = y :: l.
Proof.
  intros Hxs Hy Hmin Hmax.
  apply rep_head with (n := length xs); [now apply run_class|exact Hmin|].
  destruct max as [m|].
  - split; [now apply Hmax|]. intros _. now apply class_stops.
  - now apply class_stops.
Qed.

(** Groups [;xxx] of the two branches. *)
Section Groups.
Variables (q : N -> bool) (mx : option nat).
Hypothesis q_semi : q semi = false.

Let grp : regex := Cat (Class cSemi) (Rep 0 mx (Class q)).
Let fits (g : jsstring) : Prop :=
  forallb q g = true /\ forall m, mx = Some m -> (length g <= m)%nat.

Lemma group_head (g z : jsstring) :
  fits g -> startsOutside q z = true ->
  exists l, ms grp (semi :: g ++ z) = z :: l.
Proof.
  intros [Hg Hb] Hz. apply cat_head with (t1 := g ++ z).
  - apply class_head. reflexivity.
  - apply class_run_head; try assumption. lia.
Qed.

Lemma groups_start (gs : list jsstring) (z : jsstring) :
  startsOutside q z = true -> startsOutside q (groupsText gs ++ z) = true.
Proof.
  destruct gs as [|g gs]; simpl; [trivial|]. intros _.
  now rewrite q_semi.
Qed.

Lemma groups_run (gs : list jsstring) (z : jsstring) :
  Forall fits gs -> startsOutside q z = true ->
  run (ms grp) (length gs) (groupsText gs ++ z) z.
Proof.
  intros Hgs Hz. induction Hgs as [|g gs Hg Hgs IH]; simpl; [constructor|].
  unfold groupsText in *. simpl. rewrite <- !app_assoc.
  destruct (@group_head g (concat (map (fun g0 => semi :: g0) gs) ++ z) Hg)
    as [l Hl].
  { now apply groups_start. }
  apply run_more with (s' := concat (map (fun g0 => semi :: g0) gs) ++ z)
                      (l := l).
  - exact Hl.
  - simpl. rewrite !length_app. lia.
  - exact IH.
Qed.

Lemma groups_head (gs : list jsstring) (z : jsstring) :
  Forall fits gs -> startsOutside q z = true ->
  startsOutside cSemi z = true ->
  exists l, ms (Star grp) (groupsText gs ++ z) = z :: l.
Proof.
  intros Hgs Hz Hsemi.
  apply rep_head with (n := length gs); [now apply groups_run|lia|].
  change (ms grp z)
    with (flat_map (ms (Rep 0 mx (Class q))) (ms (Class cSemi) z)).
  now rewrite (class_stops _ _ Hsemi).
Qed.

End Groups.

Lemma reps_stuck (step : jsstring -> list jsstring) (max : nat)
    (s : jsstring) :
  step s = [] -> reps step 0 max s = [s].
Proof. intros H. destruct max; simpl; [reflexivity|]. now rewrite H. Qed.

Lemma opt_alt_head (r1 r2 : regex) (s t : jsstring) (l : list jsstring) :
  ms r1 s = [s] -> ms r2 s = t :: l -> (length t < length s)%nat ->
  exists l', ms (Opt (Alt r1 r2)) s = t :: l'.
Proof.
  intros H1 H2 Hlt. unfold Opt.
  change (ms (Rep 0 (Some 1%nat) (Alt r1 r2)) s)
    with (reps (fun x => ms r1 x ++ ms r2 x) 0 1 s).
  cbn [reps]. rewrite H1, H2. cbn [app flat_map].
  rewrite Nat.ltb_irrefl.
  destruct (Nat.ltb_spec (length t) (length s)); [|lia].
  cbn. eexists. reflexivity.
Qed.

(** The first branch needs a BEL that it can reach. *)
Lemma belParams_classes : classes (within cBelParams) belParams.
Proof. simpl. repeat split; intros c H; class_arith. Qed.

Lemma guarded_blocks_bel (pre : jsstring) (c : N) (t : jsstring) :
  Forall (fun c => cBelParams c = true) pre -> cBel c = true ->
  guarded (pre ++ c :: t) = false.
Proof.
  intros Hpre Hc. induction Hpre as [|a pre Ha _ IH]; simpl.
  - replace (cIntro c) with false by (symmetry; class_arith).
    now rewrite Hc.
  - replace (cIntro a) with false by (symmetry; class_arith).
    replace (cBel a) with false by (symmetry; class_arith).
    exact IH.
Qed.

Lemma belBranch_fails (y : jsstring) :
  guarded y = true -> ms belBranch y = [].
Proof.
  intros Hg. unfold belBranch.
  change (ms (Cat belParams (Class cBel)) y)
    with (flat_map (ms (Class cBel)) (ms belParams y)).
  apply flat_map_nil. intros t Hin.
  destruct (@ms_eats cBelParams belParams belParams_classes _ _ Hin)
    as (pre & -> & Hpre).
  destruct t as [|c t]; [reflexivity|]. simpl.
  destruct (cBel c) eqn:Hc; [|reflexivity].
  rewrite (@guarded_blocks_bel pre c t Hpre Hc) in Hg. discriminate.
Qed.

Lemma guarded_app (a s : jsstring) :
  forallb (fun c => negb (cBel c)) a = true -> guarded s = true ->
  guarded (a ++ s) = true.
Proof.
  intros Ha Hs. induction a as [|c a IH]; simpl; [exact Hs|].
  simpl in Ha. apply andb_true_iff in Ha. destruct Ha as [Hc Ha].
  apply negb_true_iff in Hc. rewrite Hc.
  destruct (cIntro c); [reflexivity|]. now apply IH.
Qed.

Lemma forallb_weaken (p q : N -> bool) (l : jsstring) :
  (forall c, p c = true -> q c = true) ->
  forallb p l = true -> forallb q l = true.
Proof.
  intros H. induction l as [|c l IH]; simpl; [trivial|].
  rewrite !andb_true_iff. intros [Hc Hl]. split; [now apply H|now apply IH].
Qed.

Lemma forallb_groupsText (q : N -> bool) (gs : list jsstring) :
  q semi = true -> forallb (forallb q) gs = true ->
  forallb q (groupsText gs) = true.
Proof.
  intros Hs. unfold groupsText.
  induction gs as [|g gs IH]; simpl; [trivial|].
  rewrite andb_true_iff. intros [Hg Hgs].
  rewrite Hs, forallb_app, Hg. now apply IH.
Qed.

(** A well-formed sequence with a final unit is the first match at its
    introducer, whatever follows, as long as no BEL can be reached. *)
Lemma final_seq_head (i : N) (p : jsstring) (ns : list jsstring) (f : N)
    (rest : jsstring) :
  escapeOk (FinalSeq i p ns f) = true -> guarded rest = true ->
  exists l, ms ansiRegex (escapeText (FinalSeq i p ns f) ++ rest)
            = rest :: l.
Proof.
  intros Hok Hrest. cbn [escapeOk] in Hok.
  rewrite !andb_true_iff in Hok.
  destruct Hok as [[[[Hi Hp] Hns] Hf] Hfd]. apply negb_true_iff in Hfd.
  set (y := numbersText ns ++ f :: rest).
  replace (escapeText (FinalSeq i p ns f) ++ rest) with (i :: p ++ y)
    by (unfold y; cbn [escapeText app]; now rewrite <- !app_assoc).
  assert (Hfsemi : startsOutside cSemi (f :: rest) = true) by class_arith.
  assert (Hfdig : startsOutside digit (f :: rest) = true)
    by (simpl; now rewrite Hfd).
  (* the numbers are digits and semicolons *)
  assert (Hy : startsOutside cPrefix y = true
               /\ forallb (fun c => negb (cBel c)) (numbersText ns) = true
               /\ exists l, ms (Opt numParams) y = (f :: rest) :: l).
  { unfold y. destruct ns as [|n ns'].
    - split; [class_arith|]. split; [reflexivity|].
      apply rep_head with (n := 0%nat); [constructor|lia|].
      split; [lia|]. intros _. unfold numParams.
      change (ms (Cat (Rep 1 (Some 4%nat) (Class digit)) (Star numGroup))
                 ([] ++ f :: rest))
        with (flat_map (ms (Star numGroup))
                (ms (Rep 1 (Some 4%nat) (Class digit)) (f :: rest))).
      cbn. now rewrite Hfd.
    - rewrite !andb_true_iff in Hns. destruct Hns as [[Hn0 Hn] Hns'].
      apply negb_true_iff, Nat.eqb_neq in Hn0.
      unfold digitsUpTo in Hn. apply andb_true_iff in Hn.
      destruct Hn as [Hnd Hn4]. apply Nat.leb_le in Hn4.
      assert (Hfits : Forall (fun g => forallb digit g = true
                 /\ forall m, Some 4%nat = Some m -> (length g <= m)%nat)
                 ns').
      { apply Forall_forall. intros g Hg.
        rewrite forallb_forall in Hns'. specialize (Hns' g Hg).
        unfold digitsUpTo in Hns'. apply andb_true_iff in Hns'.
        destruct Hns' as [Hgd Hg4]. apply Nat.leb_le in Hg4.
        split; [exact Hgd|]. intros m [= <-]. exact Hg4. }
      assert (Hdsemi : digit semi = false) by reflexivity.
      split; [|split].
      + destruct n as [|c n]; [contradiction|]. simpl in Hnd |- *.
        apply andb_true_iff in Hnd. destruct Hnd as [Hc _]. class_arith.
      + cbn [numbersText]. rewrite forallb_app. apply andb_true_iff. split.
        * apply forallb_weaken with (p := digit); [|exact Hnd].
          intros c Hc. class_arith.
        * apply forallb_groupsText; [reflexivity|].
          rewrite forallb_forall. intros g Hg.
          rewrite forallb_forall in Hns'. specialize (Hns' g Hg).
          unfold digitsUpTo in Hns'. apply andb_true_iff in Hns'.
          apply forallb_weaken with (p := digit); [|apply Hns'].
          intros c Hc. class_arith.
      + cbn [numbersText]. rewrite <- !app_assoc.
        assert (Hnum : exists l,
                   ms numParams (n ++ groupsText ns' ++ f :: rest)
                   = (f :: rest) :: l).
        { unfold numParams.
          apply cat_head with (t1 := groupsText ns' ++ f :: rest).
          - apply class_run_head; try assumption.
            + now apply groups_start.
            + destruct n; [contradiction|simpl; lia].
            + intros m [= <-]. exact Hn4.
          - apply (@groups_head digit (Some 4%nat) Hdsemi); assumption. }
        destruct Hnum as [l Hnum].
        apply rep_head with (n := 1%nat); [|lia|split; [lia|intros; lia]].
        apply run_more with (s' := f :: rest) (l := l);
          [exact Hnum| |constructor].
        rewrite !length_app. destruct n; [contradiction|simpl; lia]. }
  destruct Hy as (Hstart & Hnobel & Hopt).
  assert (Hgy : guarded y = true).
  { unfold y. apply guarded_app; [exact Hnobel|].
    simpl. replace (cIntro f) with false by (symmetry; class_arith).
    replace (cBel f) with false by (symmetry; class_arith). exact Hrest. }
  unfold ansiRegex.
  apply cat_head with (t1 := p ++ y); [now apply class_head|].
  apply cat_head with (t1 := y).
  - apply class_run_head; try assumption; [lia|intros m Hm; discriminate].
  - change (ms (Alt belBranch finalBranch) y)
      with (ms belBranch y ++ ms finalBranch y).
    rewrite (@belBranch_fails y Hgy). cbn [app].
    unfold finalBranch. apply cat_head with (t1 := f :: rest);
      [exact Hopt|now apply class_head].
Qed.

(** A well-formed BEL-terminated sequence is the first match at its
    introducer, whatever follows. *)
Lemma bel_seq_head (i : N) (p w : jsstring) (gs : list jsstring)
    (rest : jsstring) :
  escapeOk (BelSeq i p w gs) = true ->
  exists l, ms ansiRegex (escapeText (BelSeq i p w gs) ++ rest) = rest :: l.
Proof.
  intros Hok. cbn [escapeOk] in Hok. rewrite !andb_true_iff in Hok.
  destruct Hok as [[[[Hi Hp] Hw0] Hw] Hgs].
  apply negb_true_iff, Nat.eqb_neq in Hw0.
  set (z := BEL :: rest).
  set (y := w ++ groupsText gs ++ z).
  replace (escapeText (BelSeq i p w gs) ++ rest) with (i :: p ++ y)
    by (unfold y, z; cbn [escapeText app]; now rewrite <- !app_assoc).
  assert (Hzp : startsOutside cParam z = true) by reflexivity.
  assert (Hzs : startsOutside cSemi z = true) by reflexivity.
  assert (Hza : startsOutside cAlnum z = true) by reflexivity.
  assert (Hpsemi : cParam semi = false) by reflexivity.
  assert (Hasemi : cAlnum semi = false) by reflexivity.
  assert (Hfits : Forall (fun g => forallb cParam g = true
             /\ forall m, @None nat = Some m -> (length g <= m)%nat) gs).
  { apply Forall_forall. intros g Hg. rewrite forallb_forall in Hgs.
    split; [now apply Hgs|]. intros m Hm. discriminate. }
  destruct w as [|c w']; [contradiction|].
  assert (Hc : cAlnum c = true).
  { simpl in Hw. now apply andb_true_iff in Hw. }
  assert (Hstart : startsOutside cPrefix y = true) by (simpl; class_arith).
  (* the branch with a leading word *)
  assert (Hword : exists l,
             ms (Cat (Plus (Class cAlnum))
                     (Star (Cat (Class cSemi) (Star (Class cParam))))) y
             = z :: l).
  { apply cat_head with (t1 := groupsText gs ++ z).
    - unfold y. apply class_run_head; try assumption.
      + now apply groups_start.
      + simpl. lia.
      + intros m Hm. discriminate.
    - apply (@groups_head cParam None Hpsemi); assumption. }
  destruct Hword as [l Hword].
  (* the branch without a word matches nothing in front of a letter *)
  assert (Hbare : ms (Star (Cat (Class cSemi) (Plus (Class cParam)))) y
                  = [y]).
  { unfold Star.
    change (ms (Rep 0 None (Cat (Class cSemi) (Plus (Class cParam)))) y)
      with (reps (ms (Cat (Class cSemi) (Plus (Class cParam)))) 0
                 (length y) y).
    apply reps_stuck. unfold y. cbn [app].
    change (ms (Cat (Class cSemi) (Plus (Class cParam)))
               (c :: w' ++ groupsText gs ++ z))
      with (flat_map (ms (Plus (Class cParam)))
              (ms (Class cSemi) (c :: w' ++ groupsText gs ++ z))).
    rewrite class_stops; [reflexivity|]. simpl. class_arith. }
  assert (Hopt : exists l', ms belParams y = z :: l').
  { unfold belParams. apply opt_alt_head with (l := l); try assumption.
    unfold y. rewrite !length_app. simpl. lia. }
  unfold ansiRegex.
  apply cat_head with (t1 := p ++ y); [now apply class_head|].
  apply cat_head with (t1 := y).
  - apply class_run_head; try assumption; [lia|intros m Hm; discriminate].
  - assert (Hbel : exists l', ms belBranch y = rest :: l').
    { unfold belBranch. apply cat_head with (t1 := z);
        [exact Hopt|now apply class_head]. }
    destruct Hbel as [l' Hbel].
    change (ms (Alt belBranch finalBranch) y)
      with (ms belBranch y ++ ms finalBranch y).
    rewrite Hbel. eexists. reflexivity.
Qed.

Lemma escape_head (e : escape) (rest : jsstring) :
  escapeOk e = true -> guarded rest = true ->
  exists l, ms ansiRegex (escapeText e ++ rest) = rest :: l.
Proof.
  destruct e; intros Hok Hg;
    [now apply final_seq_head | now apply bel_seq_head].
Qed.

Lemma pieces_guarded (ps : list piece) :
  forallb pieceOk ps = true -> guarded (piecesText ps) = true.
Proof.
  unfold piecesText.
  induction ps as [|[t|e] ps IH]; simpl; [trivial| |];
    rewrite andb_true_iff; intros [Hp Hps].
  - apply guarded_app; [|now apply IH].
    apply forallb_weaken with (2 := Hp). intros c Hc.
    now apply andb_true_iff in Hc.
  - destruct e; cbn [escapeOk] in Hp; rewrite !andb_true_iff in Hp;
      cbn [escapeText app guarded];
      destruct Hp as [[[[Hi _] _] _] _]; now rewrite Hi.
Qed.

Lemma strip_pieces (ps : list piece) :
  forallb pieceOk ps = true -> strip (piecesText ps) = piecesVisible ps.
Proof.
  unfold piecesText, piecesVisible.
  induction ps as [|[t|e] ps IH]; [reflexivity| |];
    cbn [forallb map concat pieceText pieceVisible pieceOk];
    rewrite andb_true_iff; intros [Hp Hps].
  - rewrite strip_plain; [now rewrite IH|].
    unfold plainOk in Hp.
    apply forallb_weaken with (2 := Hp). intros c Hc.
    now apply andb_true_iff in Hc.
  - destruct (@escape_head e (concat (map pieceText ps)) Hp) as [l Hl].
    { now apply pieces_guarded. }
    rewrite (@strip_drop _ _ _ Hl). cbn [app]. now apply IH.
Qed.

End EscapeFacts.

(** ** Text metrics: what [strip] removes *)

Module TextMetrics.
Import MatcherFacts StripFacts EscapeFacts.

(** C7 (as amended). For a string made of plain runs (no introducer, no
    BEL) and of well-formed sequences of the two shapes of the pattern,
    [strip] returns exactly the plain runs: the visible length is the
    length of the string with the sequences removed by hand, and a string
    made of sequences only has visible length 0. [strip] is a function of
    its argument; the argument itself is not changed. *)
Theorem strip_removes_escape_sequences :
  forall (ps : list piece) (es : list escape),
    forallb pieceOk ps = true ->
    forallb escapeOk es = true -> es <> [] ->
    strip (piecesText ps) = piecesVisible ps
    /\ visibleLength (piecesText ps) = len (piecesVisible ps)
    /\ piecesText (map Escape es) <> []
    /\ visibleLength (piecesText (map Escape es)) = 0.
Proof.
  intros ps es Hok Hes Hne. pose proof (strip_pieces ps Hok) as E.
  split; [exact E|]. split; [unfold visibleLength; now rewrite E|]. split.
  - destruct es as [|e es]; [contradiction|].
    unfold piecesText. destruct e; discriminate.
  - unfold visibleLength. rewrite strip_pieces.
    + clear. unfold piecesVisible.
      induction es as [|e es IH]; [reflexivity|exact IH].
    + clear -Hes. induction es as [|e es IH]; [reflexivity|].
      simpl in *. apply andb_true_iff in Hes. destruct Hes as [-> Hes].
      now apply IH.
Qed.

Lemma strip_removes_escape_sequences_witness :
  let red := FinalSeq ESC (lit "[") [lit "38"; lit "5"; lit "196"]
                      (chr "m") in
  let off := FinalSeq ESC (lit "[") [lit "0"] (chr "m") in
  let title := BelSeq ESC (lit "]") (lit "0") [lit "title"] in
  let ps := [Plain (lit "ab"); Escape red; Plain (lit "red"); Escape off;
             Escape title] in
  strip (piecesText ps) = lit "abred"
  /\ visibleLength (piecesText ps) = 5
  /\ visibleLength (piecesText (map Escape [red; title; off])) = 0.
Proof.
  cbv zeta.
  destruct (@strip_removes_escape_sequences
              [Plain (lit "ab");
               Escape (FinalSeq ESC (lit "[")
                                [lit "38"; lit "5"; lit "196"] (chr "m"));
               Plain (lit "red");
               Escape (FinalSeq ESC (lit "[") [lit "0"] (chr "m"));
               Escape (BelSeq ESC (lit "]") (lit "0") [lit "title"])]
              [FinalSeq ESC (lit "[") [lit "38"; lit "5"; lit "196"]
                        (chr "m");
               BelSeq ESC (lit "]") (lit "0") [lit "title"];
               FinalSeq ESC (lit "[") [lit "0"] (chr "m")])
    as (H1 & H2 & _ & H3).
  - vm_compute. reflexivity.
  - vm_compute. reflexivity.
  - discriminate.
  - split; [exact H1|]. split; [exact H2 | exact H3].
Defined.

(** C7 (as stated) fails. A window-title sequence ends with BEL, but the
    blank in its text is outside the pattern: only [ESC ] 0 ; m] is
    removed and eight code units stay visible. An erase-characters
    sequence [ESC [ 1 X] loses all but its final unit. And a BEL in the
    text after a colour sequence makes the pattern take the text too. *)
Lemma strip_misses_sequences :
  let title := ESC :: lit "]0;my title" ++ [BEL] in
  strip title = lit "y title" ++ [BEL]
  /\ visibleLength title = 8
  /\ strip (ESC :: lit "[1X") = lit "X"
  /\ strip (ESC :: lit "[0m" ++ lit "ok" ++ [BEL]) = []
  /\ lit "ok" ++ [BEL] <> [].
Proof.
  cbv zeta. repeat split; try reflexivity. discriminate.
Qed.

End TextMetrics.

(** ** Box layout *)

Module BoxFacts.
Import MatcherFacts StripFacts.

Lemma split_nl_nonempty (s : jsstring) :
  exists l ls, split_nl s = l :: ls.
Proof.
  induction s as [|c s (l & ls & IH)]; simpl; [now exists [], []|].
  destruct (N.eqb c newline); [now eexists; eexists|].
  rewrite IH. now eexists; eexists.
Qed.

Lemma split_nl_app (a b : jsstring) :
  split_nl (a ++ newline :: b) = split_nl a ++ split_nl b.
Proof.
  induction a as [|c a IH]; simpl; [reflexivity|].
  destruct (N.eqb c newline); [now rewrite IH|].
  rewrite IH. destruct (split_nl_nonempty a) as (l & ls & ->). reflexivity.
Qed.

(** A line without a newline is one piece. *)
Lemma split_nl_line (s : jsstring) :
  forallb (fun c => negb (N.eqb c newline)) s = true -> split_nl s = [s].
Proof.
  induction s as [|c s IH]; simpl; [reflexivity|].
  rewrite andb_true_iff. intros [Hc Hs]. apply negb_true_iff in Hc.
  now rewrite Hc, IH.
Qed.

Lemma bodyLines_shape (message : jsstring) :
  Box.bodyLines message = [] :: split_nl message ++ [[]].
Proof.
  unfold Box.bodyLines, nl. cbn [app].
  change (split_nl (newline :: message ++ [newline]))
    with (split_nl ([] ++ newline :: message ++ [newline])).
  rewrite split_nl_app, split_nl_app. reflexivity.
Qed.

Lemma widest_from (lines : list jsstring) :
  forall a, 0 <= a ->
    fold_left (fun sum ln => let ln := strip ln in
                             if len ln >? sum then len ln else sum)
              lines a
    = Z.max a (fold_right Z.max 0 (map visibleLength lines)).
Proof.
  induction lines as [|ln lines IH]; intros a Ha; simpl; [lia|].
  unfold visibleLength at 1.
  rewrite Z.gtb_ltb. destruct (Z.ltb_spec a (len (strip ln))).
  - rewrite IH by lia. lia.
  - rewrite IH by lia. lia.
Qed.

Lemma widest_max (lines : list jsstring) :
  Box.widest lines = fold_right Z.max 0 (map visibleLength lines).
Proof.
  unfold Box.widest. rewrite widest_from by lia.
  assert (0 <= fold_right Z.max 0 (map visibleLength lines)).
  { induction lines; simpl; lia. }
  lia.
Qed.

Lemma widest_bound (lines : list jsstring) (ln : jsstring) :
  In ln lines ->
  visibleLength ln <= fold_right Z.max 0 (map visibleLength lines).
Proof.
  induction lines as [|x lines IH]; simpl; [contradiction|].
  intros [->|Hin]; [lia|]. specialize (IH Hin). lia.
Qed.

Lemma repeat_one (c : N) (n : Z) :
  repeat_str [c] n = repeat c (Z.to_nat n).
Proof.
  unfold repeat_str. induction (Z.to_nat n) as [|k IH]; simpl;
    [reflexivity|now rewrite IH].
Qed.

Lemma len_repeat_one (c : N) (n : Z) : 0 <= n -> len (repeat_str [c] n) = n.
Proof.
  intros Hn. rewrite repeat_one. unfold len. rewrite repeat_length. lia.
Qed.

Lemma len_rule (unicode : bool) (n : Z) :
  0 <= n -> len (repeat_str (S_BAR_H unicode) n) = n.
Proof. intros Hn. destruct unicode; now apply len_repeat_one. Qed.

(** Blanks pass through [strip] and keep what is on their two sides
    apart. *)
Lemma strip_blanks (a b : jsstring) (n : nat) :
  (1 <= n)%nat ->
  strip (a ++ repeat 32%N n ++ b) = strip a ++ repeat 32%N n ++ strip b.
Proof.
  intros Hn. destruct n as [|k]; [lia|]. cbn [repeat app].
  rewrite (strip_separator space_is_separator). do 2 f_equal.
  apply strip_plain. clear. induction k; simpl; [reflexivity|assumption].
Qed.

Section Rows.
Variable unicode : bool.
Variable color : Colors.

Lemma strip_bodyRow (dimmed : bool) (w : Z) (ln : jsstring) :
  1 <= w - len (strip ln) ->
  strip (Box.bodyRow unicode color dimmed w ln)
  = strip (gray color (S_BAR unicode)) ++ lit "  "
    ++ strip (Box.painted color dimmed ln)
    ++ repeat_str (lit " ") (w - len (strip ln))
    ++ strip (gray color (S_BAR unicode)).
Proof.
  intros Hw. unfold Box.bodyRow, Box.painted.
  change (lit "  ") with [32%N; 32%N]. change (lit " ") with [32%N].
  rewrite repeat_one. cbn [app].
  rewrite (strip_separator space_is_separator). f_equal. f_equal.
  change (32%N :: ?x) with ([32%N] ++ x).
  rewrite strip_plain by reflexivity. cbn [app]. f_equal.
  apply strip_blanks. lia.
Qed.

End Rows.

(** With colours on, the dim style is invisible on a line that holds no
    introducer and no BEL: the premise of the layout theorem below holds
    for such lines. *)
Lemma dim_is_invisible (ln : jsstring) :
  plainOk ln = true ->
  visibleLength (dim sgrColors ln) = visibleLength ln.
Proof.
  intros Hln. unfold visibleLength. f_equal.
  transitivity ln.
  - change (dim sgrColors ln) with (sgr "2" "22" ln).
    replace (sgr "2" "22" ln)
      with (piecesText
              [Escape (FinalSeq ESC (lit "[") [lit "2"] (chr "m"));
               Plain ln;
               Escape (FinalSeq ESC (lit "[") [lit "22"] (chr "m"))]).
    + rewrite EscapeFacts.strip_pieces.
      * unfold piecesVisible. cbn. now rewrite app_nil_r.
      * cbn [forallb pieceOk]. rewrite Hln. reflexivity.
    + unfold piecesText, sgr. cbn. reflexivity.
  - symmetry. rewrite <- (app_nil_r ln) at 1.
    rewrite strip_plain; [now rewrite app_nil_r|].
    unfold plainOk in Hln.
    apply EscapeFacts.forallb_weaken with (2 := Hln).
    intros c Hc. now apply andb_true_iff in Hc.
Qed.

(** C6 (as amended). The box builder splits the body into lines between
    two blank lines, takes [contentWidth] = max(widest visible line,
    visible title) + 2, and writes one string: a top border whose rule has
    max(contentWidth - titleLength - 1, 1) glyphs, one row per line, and a
    bottom border whose rule has contentWidth + 2 glyphs. Every row pads
    its line with contentWidth - visibleLength(line) >= 2 blanks, so the
    visible line and its padding take contentWidth columns in every row.
    The visible width of a whole row is that of the two bars, the two
    blanks, the styled line and the padding. So a row has the common
    width contentWidth + 2 + 2 bars whenever the style applied to its line
    leaves the visible length of the line alone: every row of [box], which
    applies no style, and, with colours on, every row of [note] whose line
    holds no ESC, no U+009B and no BEL. *)
Theorem buildBox_layout :
  forall (unicode : bool) (color : Colors) (message title : jsstring)
         (dimmed : bool),
    let lines := Box.bodyLines message in
    let width := Box.contentWidth message title in
    let titleLen := visibleLength title in
    let bar := gray color (S_BAR unicode) in
    lines = [] :: split_nl message ++ [[]]
    /\ Box.boxLen message title = width
    /\ Box.buildBox unicode color message title dimmed
       = [Text (bar ++ nl
                ++ green color (S_STEP_SUBMIT unicode) ++ lit "  "
                ++ reset color title ++ lit " "
                ++ gray color
                     (repeat_str (S_BAR_H unicode)
                                 (Z.max (width - titleLen - 1) 1)
                      ++ S_CORNER_TOP_RIGHT unicode) ++ nl
                ++ join nl (map (Box.bodyRow unicode color dimmed width)
                                lines) ++ nl
                ++ gray color
                     (S_CONNECT_LEFT unicode
                      ++ repeat_str (S_BAR_H unicode) (width + 2)
                      ++ S_CORNER_BOTTOM_RIGHT unicode) ++ nl)]
    /\ len (repeat_str (S_BAR_H unicode) (Z.max (width - titleLen - 1) 1))
       = Z.max (width - titleLen - 1) 1
    /\ len (repeat_str (S_BAR_H unicode) (width + 2)) = width + 2
    /\ Forall (fun ln =>
                 2 <= width - visibleLength ln
                 /\ visibleLength ln
                    + len (repeat_str (lit " ") (width - visibleLength ln))
                    = width
                 /\ visibleLength (Box.bodyRow unicode color dimmed width ln)
                    = visibleLength (Box.painted color dimmed ln)
                      + (width - visibleLength ln)
                      + 2 + 2 * visibleLength bar
                 /\ (visibleLength (Box.painted color dimmed ln)
                     = visibleLength ln ->
                     visibleLength
                       (Box.bodyRow unicode color dimmed width ln)
                     = width + 2 + 2 * visibleLength bar))
              lines
    /\ (dimmed = false ->
        Forall (fun ln =>
                  visibleLength (Box.bodyRow unicode color dimmed width ln)
                  = width + 2 + 2 * visibleLength bar)
               lines)
    /\ Forall (fun ln =>
                 plainOk ln = true ->
                 visibleLength (Box.bodyRow unicode sgrColors true width ln)
                 = width + 4)
              lines.
Proof.
  intros unicode color message title dimmed lines width titleLen bar.
  assert (Ewidth : Box.boxLen message title = width).
  { unfold Box.boxLen, width, Box.contentWidth. now rewrite widest_max. }
  assert (Hw0 : 0 <= width).
  { unfold width, Box.contentWidth.
    assert (0 <= visibleLength title) by apply JSFacts.len_nonneg. lia. }
  assert (Hln : forall ln, In ln lines -> visibleLength ln <= width - 2).
  { intros ln Hin. pose proof (widest_bound lines ln Hin).
    unfold width, Box.contentWidth. fold lines. lia. }
  assert (Hrow : forall (col : Colors) (dm : bool) (ln : jsstring),
             In ln lines ->
             visibleLength (Box.bodyRow unicode col dm width ln)
             = visibleLength (Box.painted col dm ln)
               + (width - visibleLength ln)
               + 2 + 2 * visibleLength (gray col (S_BAR unicode))).
  { intros col dm ln Hin. specialize (Hln ln Hin).
    assert (Hpad : len (repeat_str (lit " ") (width - visibleLength ln))
                   = width - visibleLength ln).
    { change (lit " ") with [32%N]. apply len_repeat_one. lia. }
    unfold visibleLength in *.
    rewrite (strip_bodyRow unicode col dm) by lia.
    unfold len, jsstring in *. rewrite !length_app.
    change (length (lit "  ")) with 2%nat. lia. }
  split; [apply bodyLines_shape|]. split; [exact Ewidth|].
  split; [unfold Box.buildBox, Box.topBorder, Box.bottomBorder;
          fold lines; rewrite Ewidth; reflexivity|].
  split; [apply len_rule; lia|]. split; [apply len_rule; lia|].
  split; [|split].
  - apply Forall_forall. intros ln Hin. specialize (Hln ln Hin).
    assert (Hpad : len (repeat_str (lit " ") (width - visibleLength ln))
                   = width - visibleLength ln).
    { change (lit " ") with [32%N]. apply len_repeat_one. lia. }
    split; [lia|]. split; [lia|]. split; [now apply Hrow|].
    intros Hstyle. rewrite (Hrow color dimmed ln Hin). fold bar. lia.
  - intros ->. apply Forall_forall. intros ln Hin.
    rewrite (Hrow color false ln Hin). unfold Box.painted. fold bar. lia.
  - apply Forall_forall. intros ln Hin Hplain.
    rewrite (Hrow sgrColors true ln Hin). unfold Box.painted.
    rewrite (dim_is_invisible ln Hplain).
    assert (Hb : visibleLength (gray sgrColors (S_BAR unicode)) = 1)
      by (destruct unicode; vm_compute; reflexivity).
    lia.
Qed.

(** Lines of visible length 3, 10 and 1 under a title of visible length
    6: with colours on in a dimmed box, and in a box without style. *)
Lemma buildBox_layout_witness :
  Box.contentWidth (lit "abc" ++ nl ++ lit "abcdefghij" ++ nl ++ lit "x")
                   (lit "Title!") = 12
  /\ Forall (fun ln =>
               visibleLength (Box.bodyRow true sgrColors true 12 ln)
               = 12 + 2 + 2 * 1)
            (Box.bodyLines
               (lit "abc" ++ nl ++ lit "abcdefghij" ++ nl ++ lit "x"))
  /\ Forall (fun ln =>
               visibleLength (Box.bodyRow true sgrColors false 12 ln)
               = 12 + 2 + 2 * 1)
            (Box.bodyLines
               (lit "abc" ++ nl ++ lit "abcdefghij" ++ nl ++ lit "x"))
  /\ visibleLength (Box.bodyRow true sgrColors true 12 (lit "abcdefghij"))
     = 12 + 4.
Proof.
  destruct (@buildBox_layout true sgrColors
              (lit "abc" ++ nl ++ lit "abcdefghij" ++ nl ++ lit "x")
              (lit "Title!") true)
    as (_ & _ & _ & _ & _ & Hrows & _ & Hsgr).
  destruct (@buildBox_layout true sgrColors
              (lit "abc" ++ nl ++ lit "abcdefghij" ++ nl ++ lit "x")
              (lit "Title!") false)
    as (_ & _ & _ & _ & _ & _ & Hbox & _).
  split; [vm_compute; reflexivity|].
  change (Box.bodyLines
            (lit "abc" ++ nl ++ lit "abcdefghij" ++ nl ++ lit "x"))
    with [[]; lit "abc"; lit "abcdefghij"; lit "x"; []] in *.
  change (Box.contentWidth
            (lit "abc" ++ nl ++ lit "abcdefghij" ++ nl ++ lit "x")
            (lit "Title!")) with 12 in *.
  split; [|split; [exact (Hbox eq_refl)|]].
  - rewrite Forall_forall in Hrows. apply Forall_forall.
    intros ln Hin. destruct (Hrows ln Hin) as (_ & _ & _ & H).
    cbn [In] in Hin.
    destruct Hin as [<-|[<-|[<-|[<-|[<-|[]]]]]];
      apply H; vm_compute; reflexivity.
  - rewrite Forall_forall in Hsgr.
    apply (Hsgr (lit "abcdefghij")); [|reflexivity].
    right. right. now left.
Defined.

(** C6 (as stated) fails for [note] with colours on when a line holds a
    BEL: the dim style puts an escape sequence in front of the line, and
    the pattern then takes the sequence, the text and the BEL for one
    match. For the message "ok" BEL the content width is 3 + 2 = 5; the
    two blank rows measure 9 columns, the row of the message only 6. *)
Lemma note_row_shrinks_after_bell :
  let message := lit "ok" ++ [BEL] in
  let width := Box.contentWidth message [] in
  width = 5
  /\ Box.bodyLines message = [[]; message; []]
  /\ visibleLength message = 3
  /\ visibleLength (dim sgrColors message) = 0
  /\ Box.note true sgrColors message []
     = [Text (gray sgrColors (S_BAR true) ++ nl
              ++ green sgrColors (S_STEP_SUBMIT true) ++ lit "  "
              ++ reset sgrColors [] ++ lit " "
              ++ Box.topBorder true sgrColors width 0 ++ nl
              ++ join nl (map (Box.bodyRow true sgrColors true width)
                              (Box.bodyLines message)) ++ nl
              ++ Box.bottomBorder true sgrColors width ++ nl)]
  /\ map (fun ln =>
            visibleLength (Box.bodyRow true sgrColors true width ln))
         (Box.bodyLines message)
     = [9; 6; 9].
Proof. cbv zeta. repeat split; vm_compute; reflexivity. Qed.

End BoxFacts.

(** ** Live log *)

Module TaskLogFacts.
Import JSFacts BoxFacts TaskLog.

(** [ceil_div] is the ceiling of the quotient. *)
Lemma ceil_div_spec (a b : Z) :
  0 < b -> b * (ceil_div a b - 1) < a <= b * ceil_div a b.
Proof.
  intros Hb. unfold ceil_div.
  pose proof (Z.div_mod (a + b - 1) b ltac:(lia)) as E.
  pose proof (Z.mod_pos_bound (a + b - 1) b Hb). lia.
Qed.

Lemma ceil_div_zero (b : Z) : 0 < b -> ceil_div 0 b = 0.
Proof. intros Hb. unfold ceil_div. apply Z.div_small. lia. Qed.

Lemma sum_from (f : jsstring -> Z) (l : list jsstring) :
  forall a, fold_left (fun height line => height + f line) l a
            = a + fold_right Z.add 0 (map f l).
Proof.
  induction l as [|x l IH]; intros a; simpl; [lia|]. rewrite IH. lia.
Qed.

(** The frame height is the sum, over the lines of the frame, of the rows
    each line wraps to. *)
Lemma frameHeight_sum (w : Z) (f : jsstring) :
  frameHeight w f
  = fold_right Z.add 0 (map (fun line => ceil_div (len line) w)
                            (split_nl f)).
Proof. unfold frameHeight. now rewrite sum_from. Qed.

Lemma noNewline_app (a b : jsstring) :
  noNewline (a ++ b) = noNewline a && noNewline b.
Proof. unfold noNewline. apply forallb_app. Qed.

Lemma noNewline_concat (ds : list jsstring) :
  Forall (fun d => noNewline d = true) ds -> noNewline (concat ds) = true.
Proof.
  induction 1 as [|d ds Hd _ IH]; simpl; [reflexivity|].
  now rewrite noNewline_app, Hd, IH.
Qed.

Section OneLine.
Variable unicode : bool.
Variable color : Colors.
Hypothesis bar_line : noNewline (BAR unicode color) = true.

Local Abbreviation oneLine := (TaskLog.oneLine unicode color).

Lemma print_line (st : state) :
  noNewline st.(output) = true ->
  print unicode color None 0 st
  = ({| output := st.(output); frame := oneLine st.(output) |},
     [Text (dim color (oneLine st.(output)))]).
Proof.
  intros Ho. unfold print. rewrite (split_nl_line _ Ho). reflexivity.
Qed.

Lemma text_line (columns : Z) (data : jsstring) (st : state) :
  noNewline (st.(output) ++ data) = true ->
  text unicode color None columns data st
  = ({| output := st.(output) ++ data;
        frame := oneLine (st.(output) ++ data) |},
     clear columns false st
     ++ [Text (dim color (oneLine (st.(output) ++ data)))]).
Proof.
  intros Ho. unfold text. rewrite print_line by exact Ho. reflexivity.
Qed.

Lemma appendAll_line (columns : Z) (ds : list jsstring) :
  forall (st : state) (w : list chunk) (d : jsstring),
    noNewline (st.(output) ++ d) = true ->
    Forall (fun d => noNewline d = true) ds ->
    exists w',
      fold_left (fun acc data =>
                   let (st', w) :=
                     text unicode color None columns data (fst acc) in
                   (st', snd acc ++ w))
                (d :: ds) (st, w)
      = ({| output := st.(output) ++ d ++ concat ds;
            frame := oneLine (st.(output) ++ d ++ concat ds) |},
         w' ++ [Text (dim color (oneLine (st.(output) ++ d ++ concat ds)))]).
Proof.
  induction ds as [|d' ds IH] using rev_ind; intros st w d Hd Hds.
  - cbn [fold_left fst snd concat]. rewrite text_line by exact Hd.
    rewrite app_nil_r.
    exists (w ++ clear columns false st). now rewrite <- app_assoc.
  - apply Forall_app in Hds. destruct Hds as [Hds Hd'].
    apply Forall_inv in Hd'.
    destruct (IH st w d Hd Hds) as [w0 E].
    rewrite app_comm_cons, fold_left_app, E. cbn [fold_left fst snd].
    rewrite text_line.
    + cbn [output]. rewrite concat_app. cbn [concat]. rewrite app_nil_r.
      replace ((output st ++ d ++ concat ds) ++ d')
        with (output st ++ d ++ concat ds ++ d')
        by now rewrite <- !app_assoc.
      eexists. rewrite (app_assoc (w0 ++ _) (clear _ _ _) _). reflexivity.
    + cbn [output]. rewrite !noNewline_app in *.
      rewrite (noNewline_concat Hds), Hd'.
      apply andb_true_iff in Hd. destruct Hd as [-> ->]. reflexivity.
Qed.

Lemma frameHeight_line (w : Z) (o : jsstring) :
  0 < w -> noNewline o = true ->
  frameHeight w (oneLine o)
  = ceil_div (len (BAR unicode color ++ lit "  " ++ o)) w.
Proof.
  intros Hw Ho. rewrite frameHeight_sum. unfold oneLine, nl.
  rewrite !app_assoc, split_nl_app, <- !app_assoc.
  rewrite split_nl_line.
  - cbn. rewrite ceil_div_zero by exact Hw. lia.
  - fold (noNewline (BAR unicode color ++ lit "  " ++ o)).
    now rewrite !noNewline_app, bar_line, Ho.
Qed.

End OneLine.

(** Replacing matches by nothing never makes a string longer. *)
Lemma replaceAll_shorter (r : regex) :
  forall (n : nat) (s : jsstring),
    (length (replaceAll r n s) <= length s)%nat.
Proof.
  induction n as [|n IH]; intros s; cbn [replaceAll]; [lia|].
  destruct s as [|c s']; [lia|].
  destruct (ms r (c :: s')) as [|rest l].
  - cbn [length]. specialize (IH s'). lia.
  - destruct (Nat.ltb_spec (length rest) (length (c :: s'))).
    + specialize (IH rest). lia.
    + cbn [length]. specialize (IH s'). lia.
Qed.

Lemma ceil_div_mono (a b w : Z) :
  0 < w -> a <= b -> ceil_div a w <= ceil_div b w.
Proof.
  intros Hw Hab. unfold ceil_div. apply Z.div_le_mono; lia.
Qed.




(** C10. On a freshly made task log the stored frame is empty and [clear]
    writes nothing, with or without the title: the first append writes
    only the new frame, [fail] writes only its message and the frame, and
    [success] only its message. No cursor movement and no erasure reaches
    the output, so the heading stays as it was written. *)
Theorem taskLog_fresh_clear_is_silent :
  forall (unicode : bool) (color : Colors)
         (parser : option (jsstring -> jsstring))
         (title data message : jsstring) (columns : Z) (eraseTitle : bool),
    let st0 := fst (taskLog unicode color title) in
    snd (taskLog unicode color title)
    = [Text (BAR unicode color ++ nl);
       Text (ACTIVE unicode color ++ lit "  " ++ title ++ nl)]
    /\ st0.(frame) = []
    /\ clear columns eraseTitle st0 = []
    /\ snd (text unicode color parser columns data st0)
       = [Text (dim color
                  (fst (text unicode color parser columns data st0)).(frame))]
    /\ snd (fail unicode color parser columns message st0)
       = [Text (ERROR unicode color ++ lit "  " ++ message ++ nl);
          Text (dim color
                  (fst (fail unicode color parser columns message st0))
                    .(frame))]
    /\ snd (success unicode color columns message st0)
       = [Text (SUCCESS unicode color ++ lit "  " ++ message ++ nl)].
Proof.
  intros. repeat split; reflexivity.
Qed.

End TaskLogFacts.

(** ** Frame clock and lifecycle guard *)

Module SpinnerFacts.
Import Spinner SpinnerUse.

Lemma removeFirst_found (x : eventName * handler)
    (a b : list (eventName * handler)) :
  same x x = true ->
  forallb (fun y => negb (same x y)) a = true ->
  removeFirst x (a ++ x :: b) = a ++ b.
Proof.
  intros Hx. induction a as [|y a IH]; cbn [app removeFirst forallb].
  - now rewrite Hx.
  - rewrite andb_true_iff. intros [Hy Ha]. apply negb_true_iff in Hy.
    rewrite Hy. f_equal. now apply IH.
Qed.

Lemma removeLast_found (x : eventName * handler)
    (a b : list (eventName * handler)) :
  same x x = true ->
  forallb (fun y => negb (same x y)) b = true ->
  removeLast x (a ++ x :: b) = a ++ b.
Proof.
  intros Hx Hb. unfold removeLast.
  rewrite rev_app_distr. cbn [rev]. rewrite <- app_assoc. cbn [app].
  rewrite removeFirst_found.
  - now rewrite rev_app_distr, !rev_involutive.
  - exact Hx.
  - rewrite forallb_forall in *. intros y Hy. apply Hb.
    now apply in_rev.
Qed.

Lemma hooksTimes_snoc (n : nat) :
  hooksTimes (S n) = hooksTimes n ++ hooks.
Proof.
  unfold hooksTimes. induction n as [|n IH]; [reflexivity|].
  change (concat (repeat hooks (S (S n))))
    with (hooks ++ concat (repeat hooks (S n))).
  rewrite IH at 1. cbn [repeat concat]. now rewrite app_assoc.
Qed.

(** [clearHooks] takes one copy of the hooks away, if there is one. *)
Lemma clearHooks_times (n : nat) :
  removeLast (exit, handleExitListener)
    (removeLast (SIGTERM, signalEventHandler)
       (removeLast (SIGINT, signalEventHandler)
          (removeLast (unhandledRejection, errorEventHandler)
             (removeLast (uncaughtExceptionMonitor, errorEventHandler)
                (hooksTimes n)))))
  = hooksTimes (Nat.pred n).
Proof.
  destruct n as [|n]; [reflexivity|]. cbn [Nat.pred].
  rewrite hooksTimes_snoc. unfold hooks.
  rewrite removeLast_found by reflexivity.
  rewrite removeLast_found by reflexivity.
  rewrite removeLast_found by reflexivity.
  rewrite removeLast_found by reflexivity.
  rewrite removeLast_found by reflexivity.
  apply app_nil_r.
Qed.

Section Facts.
Variable unicode : bool.
Variable color : Colors.

Local Abbreviation start := (Spinner.start unicode color).
Local Abbreviation stop := (Spinner.stop unicode color).
Local Abbreviation tick := (Spinner.tick unicode color).
Local Abbreviation emit := (Spinner.emit unicode color).
Local Abbreviation call := (Spinner.call unicode color).
Local Abbreviation handleExit := (Spinner.handleExit unicode color).
Local Abbreviation lifecycle := (Spinner.lifecycle unicode color).
Local Abbreviation anyUse := (SpinnerUse.anyUse unicode color).

(** The glyph chosen by the conditional is the glyph of the three cases. *)
Lemma step_finalGlyph (code : Z) :
  step unicode color code = finalGlyph unicode color code.
Proof. destruct code as [|[p|p|]|p]; reflexivity. Qed.

Lemma stop_running (st : state) (msg : jsstring) (code : Z) :
  phaseInv Running st ->
  exists id,
    st.(loop) = Some id
    /\ stop msg code st
       = ({| isSpinnerActive := false; _message := msg; unblock := true;
             loop := Some id; frameIndex := st.(frameIndex);
             dotsTimer8 := st.(dotsTimer8); timers := [];
             nextTimer := st.(nextTimer); listeners := [];
             inputBlocked := false;
             trace := st.(trace)
                      ++ stopEffects unicode color id msg code |},
          Normal).
Proof.
  destruct st as [a m u lp fi dt ts nt ls ib tr]. cbn [phaseInv].
  cbn [isSpinnerActive unblock loop timers listeners inputBlocked].
  intros (-> & -> & (id & -> & ->) & -> & ->).
  exists id. split; [reflexivity|].
  unfold Spinner.stop, stopEffects. cbn. rewrite Nat.eqb_refl. cbn.
  rewrite step_finalGlyph. now rewrite <- !app_assoc.
Qed.

Lemma stopped_after_stop (st : state) (msg : jsstring) (code : Z) :
  phaseInv Running st -> phaseInv Stopped (fst (stop msg code st)).
Proof.
  intros H. destruct (stop_running msg code H) as (id & _ & ->).
  cbn. repeat split.
Qed.

Lemma emit_stopped (st : state) (ev : eventName) (arg : Z) :
  phaseInv Stopped st -> emit ev arg st = (st, Normal).
Proof.
  intros (_ & _ & Hl & _). unfold Spinner.emit, listenersOf.
  now rewrite Hl.
Qed.

Lemma emit_running (st : state) (ev : eventName) (arg : Z) :
  phaseInv Running st ->
  emit ev arg st
  = stop (exitMessage (exitCodeOf ev arg)) (exitCodeOf ev arg) st.
Proof.
  intros H.
  destruct (stop_running (exitMessage (exitCodeOf ev arg))
                         (exitCodeOf ev arg) H) as (id & _ & E).
  destruct H as (Ha & _ & _ & Hl & _).
  unfold Spinner.emit, listenersOf. rewrite Hl.
  destruct ev; cbn [hooks filter eventName_eqb fst snd map runAll
                    Spinner.call exitCodeOf] in *;
    unfold Spinner.handleExit; cbv zeta; rewrite Ha, E; reflexivity.
Qed.

Lemma lifecycle_inv (ph : phase) (st : state) :
  lifecycle ph st -> phaseInv ph st.
Proof.
  induction 1 as [|st msg _ IH|st _ IH|ph st msg _ IH|st msg code _ IH
                 |ph st ev arg _ IH].
  - cbn. repeat split.
  - destruct st as [a m u lp fi dt ts nt ls ib tr]. cbn in IH.
    destruct IH as (-> & -> & -> & ->).
    cbn. repeat split. now exists nt.
  - destruct st as [a m u lp fi dt ts nt ls ib tr]. cbn in IH.
    destruct IH as (-> & -> & (id & -> & ->) & -> & ->).
    unfold Spinner.tick. cbn. rewrite Nat.eqb_refl. cbn.
    repeat split. now exists id.
  - destruct st as [a m u lp fi dt ts nt ls ib tr]. destruct ph; exact IH.
  - now apply stopped_after_stop.
  - destruct ph.
    + now rewrite emit_stopped.
    + rewrite emit_running by exact IH. now apply stopped_after_stop.
Qed.

Lemma stop_leaves_a_trace (st : state) (msg : jsstring) (code : Z) :
  fst (stop msg code st) <> st.
Proof.
  intros H. apply (f_equal trace) in H. apply (f_equal (@length effect)) in H.
  destruct st as [a m u lp fi dt ts nt ls ib tr].
  unfold Spinner.stop in H.
  cbn in H. destruct u; cbn in H; rewrite !length_app in H; cbn in H; lia.
Qed.

(** C8. Stopping a running spinner, with any message and exit code, ends
    normally and does, in this order: cancel the interval, move to the
    line start and erase, write one final line made of the glyph, two
    blanks, the message and a newline, remove the five process listeners,
    and call the unblock function taken by [start]. The glyph is the
    success glyph for code 0, the cancel glyph for code 1 and the error
    glyph for any other code. Afterwards no interval is scheduled (a tick
    changes nothing), no listener is registered and input is not
    blocked. *)
Theorem stop_finalizes :
  forall (st : state) (msg : jsstring) (code : Z),
    lifecycle Running st ->
    exists (id : nat) (st' : state),
      st.(loop) = Some id /\ In id st.(timers)
      /\ st.(listeners) = hooks /\ st.(inputBlocked) = true
      /\ stop msg code st = (st', Normal)
      /\ st'.(trace)
         = st.(trace)
           ++ [ClearInterval (Some id);
               Write (CursorMove (-999) 0);
               Write (EraseDown 1);
               Write (Text (finalGlyph unicode color code ++ lit "  "
                            ++ msg ++ nl));
               RemoveListener uncaughtExceptionMonitor errorEventHandler;
               RemoveListener unhandledRejection errorEventHandler;
               RemoveListener SIGINT signalEventHandler;
               RemoveListener SIGTERM signalEventHandler;
               RemoveListener exit handleExitListener;
               Unblock]
      /\ finalGlyph unicode color 0 = green color (S_STEP_SUBMIT unicode)
      /\ finalGlyph unicode color 1 = red color (S_STEP_CANCEL unicode)
      /\ (code <> 0 -> code <> 1 ->
          finalGlyph unicode color code = red color (S_STEP_ERROR unicode))
      /\ st'.(isSpinnerActive) = false /\ st'.(timers) = []
      /\ st'.(listeners) = [] /\ st'.(inputBlocked) = false
      /\ tick st' = st'.
Proof.
  intros st msg code Hlife. apply lifecycle_inv in Hlife.
  destruct (stop_running msg code Hlife) as (id & Hloop & E).
  destruct Hlife as (_ & _ & (id' & Hloop' & Htimers) & Hl & Hb).
  assert (id' = id) as -> by congruence.
  eexists id, _. split; [exact Hloop|]. split; [rewrite Htimers; now left|].
  split; [exact Hl|]. split; [exact Hb|]. split; [exact E|].
  cbn. repeat split.
  intros H0 H1. destruct code as [|[p|p|]|p]; try reflexivity; contradiction.
Qed.

Lemma stop_fields (st : state) (msg : jsstring) (code : Z) :
  let st' := fst (stop msg code st) in
  st'.(isSpinnerActive) = false
  /\ st'.(unblock) = st.(unblock)
  /\ st'.(listeners)
     = removeLast (exit, handleExitListener)
         (removeLast (SIGTERM, signalEventHandler)
            (removeLast (SIGINT, signalEventHandler)
               (removeLast (unhandledRejection, errorEventHandler)
                  (removeLast (uncaughtExceptionMonitor, errorEventHandler)
                     st.(listeners)))))
  /\ snd (stop msg code st)
     = (if st.(unblock) then Normal else TypeError).
Proof.
  destruct st as [a m u lp fi dt ts nt ls ib tr].
  unfold Spinner.stop.
  cbn [setMessage setActive clearInterval logEffect write clearHooks
       removeListener callUnblock Spinner.unblock loop nextTimer].
  destruct u; cbn [fst snd isSpinnerActive Spinner.unblock listeners
                   callUnblock logEffect]; repeat split.
Qed.

Lemma start_fields (st : state) (msg : jsstring) :
  (start msg st).(isSpinnerActive) = true
  /\ (start msg st).(unblock) = true
  /\ (start msg st).(listeners) = st.(listeners) ++ hooks.
Proof.
  destruct st as [a m u lp fi dt ts nt ls ib tr].
  unfold Spinner.start. cbn. rewrite <- !app_assoc. repeat split.
Qed.

Lemma tick_fields (st : state) :
  (tick st).(isSpinnerActive) = st.(isSpinnerActive)
  /\ (tick st).(unblock) = st.(unblock)
  /\ (tick st).(listeners) = st.(listeners).
Proof.
  destruct st as [a m u lp fi dt ts nt ls ib tr].
  unfold Spinner.tick. cbn [loop timers].
  destruct lp as [id|]; [|repeat split].
  destruct (existsb (Nat.eqb id) ts); repeat split.
Qed.

(** Firing a handler: [stop] runs exactly when the spinner is active. *)
Lemma call_guard (h : handler) (arg : Z) (st : state) :
  call h arg st
  = (if st.(isSpinnerActive)
     then stop (exitMessage (codeOf h arg)) (codeOf h arg) st
     else (st, Normal)).
Proof. destruct h; reflexivity. Qed.

Lemma runAll_inactive (h : handler) (arg : Z) (k : nat) (st : state) :
  st.(isSpinnerActive) = false ->
  runAll unicode color (repeat h k) arg st = (st, Normal).
Proof.
  intros Ha. induction k as [|k IH]; [reflexivity|].
  cbn [repeat runAll]. rewrite call_guard, Ha. exact IH.
Qed.

Lemma runAll_active (h : handler) (arg : Z) (k : nat) (st : state) :
  st.(isSpinnerActive) = true -> st.(unblock) = true ->
  runAll unicode color (repeat h (S k)) arg st
  = stop (exitMessage (codeOf h arg)) (codeOf h arg) st.
Proof.
  intros Ha Hu. cbn [repeat runAll]. rewrite call_guard, Ha.
  destruct (stop_fields st (exitMessage (codeOf h arg)) (codeOf h arg))
    as (Ha' & _ & _ & Hs).
  rewrite Hu in Hs.
  destruct (stop _ _ st) as [st' c]. cbn [fst snd] in *. subst c.
  now apply runAll_inactive.
Qed.

(** The handlers that an event reaches are the copies of one handler,
    which passes on the exit code of the event. *)
Lemma listenersOf_times (ev : eventName) (st : state) (n : nat) :
  st.(listeners) = hooksTimes n ->
  exists h, listenersOf ev st = repeat h n
            /\ forall arg, codeOf h arg = exitCodeOf ev arg.
Proof.
  intros Hl. unfold listenersOf. rewrite Hl. clear Hl.
  exists (match ev with
          | uncaughtExceptionMonitor | unhandledRejection =>
              errorEventHandler
          | SIGINT | SIGTERM => signalEventHandler
          | exit => handleExitListener
          end).
  split; [|destruct ev; reflexivity].
  induction n as [|n IH]; [reflexivity|].
  change (hooksTimes (S n)) with (hooks ++ hooksTimes n).
  rewrite filter_app, map_app, IH. destruct ev; reflexivity.
Qed.

Lemma emit_guard (ev : eventName) (arg : Z) (st : state) :
  useInv st ->
  emit ev arg st
  = (if st.(isSpinnerActive)
     then stop (exitMessage (exitCodeOf ev arg)) (exitCodeOf ev arg) st
     else (st, Normal)).
Proof.
  intros (n & Hl & Hact).
  destruct (@listenersOf_times ev st n Hl) as (h & Eh & Hcode).
  unfold Spinner.emit. rewrite Eh.
  destruct (isSpinnerActive st) eqn:Ha.
  - destruct (Hact eq_refl) as (Hu & Hn).
    destruct n as [|n]; [lia|].
    rewrite runAll_active by assumption. now rewrite Hcode.
  - now apply runAll_inactive.
Qed.

Lemma anyUse_inv (st : state) : anyUse st -> useInv st.
Proof.
  induction 1 as [|st msg _ IH|st _ IH|st msg _ IH|st msg code _ IH
                 |st ev arg _ IH|st c _ IH].
  - exists 0%nat. split; [reflexivity|discriminate].
  - destruct IH as (n & Hl & _).
    destruct (start_fields st msg) as (Ha & Hu & Hl').
    exists (S n). split.
    + now rewrite Hl', Hl, hooksTimes_snoc.
    + intros _. split; [exact Hu|lia].
  - destruct IH as (n & Hl & Hact).
    destruct (tick_fields st) as (Ha & Hu & Hl').
    exists n. rewrite Hl', Ha, Hu. now split.
  - destruct st as [a m u lp fi dt ts nt ls ib tr]. exact IH.
  - destruct IH as (n & Hl & _).
    destruct (stop_fields st msg code) as (Ha & _ & Hl' & _).
    exists (Nat.pred n). split.
    + now rewrite Hl', Hl, clearHooks_times.
    + rewrite Ha. discriminate.
  - rewrite (@emit_guard ev arg st IH).
    destruct (isSpinnerActive st) eqn:Hact; [|exact IH].
    destruct IH as (n & Hl & _).
    destruct (stop_fields st (exitMessage (exitCodeOf ev arg))
                          (exitCodeOf ev arg)) as (Ha & _ & Hl' & _).
    exists (Nat.pred n). split.
    + now rewrite Hl', Hl, clearHooks_times.
    + rewrite Ha. discriminate.
  - destruct st as [a m u lp fi dt ts nt ls ib tr]. exact IH.
Qed.

(** C9. Firing a handler of the guard runs [stop] if and only if the
    spinner is active at that moment, whatever the state: the handler of
    the two fault events passes exit code 2, the handler of the two
    signals passes 1, the exit handler passes the process's own code, and
    with an inactive spinner the handler changes nothing and writes
    nothing ([stop] always leaves a trace, so the two cases differ). Hence,
    however the spinner has been used - also when the same handler is
    registered more than once, or is still registered for an inactive
    spinner - an event runs [stop] once if the spinner is active and does
    nothing otherwise, and after any [stop] no event runs [stop] again. A
    [stop] of a spinner that was started once ends normally and leaves no
    listener registered. *)
Theorem guard_stops_active_spinner :
  (forall (st : state) (h : handler) (arg : Z),
      let code := codeOf h arg in
      codeOf errorEventHandler arg = 2
      /\ codeOf signalEventHandler arg = 1
      /\ codeOf handleExitListener arg = arg
      /\ call h arg st
         = (if st.(isSpinnerActive)
            then stop (exitMessage code) code st
            else (st, Normal))
      /\ fst (stop (exitMessage code) code st) <> st)
  /\ (forall (st : state) (ev : eventName) (arg : Z),
        anyUse st ->
        let code := exitCodeOf ev arg in
        exitCodeOf uncaughtExceptionMonitor arg = 2
        /\ exitCodeOf unhandledRejection arg = 2
        /\ exitCodeOf SIGINT arg = 1
        /\ exitCodeOf SIGTERM arg = 1
        /\ exitCodeOf exit arg = arg
        /\ emit ev arg st
           = (if st.(isSpinnerActive)
              then stop (exitMessage code) code st
              else (st, Normal))
        /\ (st.(isSpinnerActive) = true ->
            snd (stop (exitMessage code) code st) = Normal)
        /\ forall (msg : jsstring) (c : Z),
             let st' := fst (stop msg c st) in
             st'.(isSpinnerActive) = false
             /\ forall (ev' : eventName) (arg' : Z),
                  emit ev' arg' st' = (st', Normal))
  /\ (forall (ph : phase) (st : state),
        lifecycle ph st ->
        (st.(isSpinnerActive) = true <-> ph = Running)
        /\ (ph = Running ->
            forall (msg : jsstring) (c : Z),
              let st' := fst (stop msg c st) in
              snd (stop msg c st) = Normal
              /\ st'.(listeners) = []
              /\ st'.(isSpinnerActive) = false
              /\ forall (ev' : eventName) (arg' : Z),
                   emit ev' arg' st' = (st', Normal))).
Proof.
  split; [|split].
  - intros st h arg code. do 3 (split; [reflexivity|]).
    split; [apply call_guard|apply stop_leaves_a_trace].
  - intros st ev arg Huse code. do 5 (split; [reflexivity|]).
    pose proof (anyUse_inv Huse) as Hinv.
    split; [now apply emit_guard|]. split.
    + intros Ha. destruct Hinv as (n & _ & Hact).
      destruct (Hact Ha) as (Hu & _).
      destruct (stop_fields st (exitMessage code) code) as (_ & _ & _ & Hs).
      now rewrite Hs, Hu.
    + intros msg c st'.
      destruct (stop_fields st msg c) as (Ha & _).
      split; [exact Ha|]. intros ev' arg'.
      assert (Hinv' : useInv st') by (apply anyUse_inv; now apply use_stop).
      rewrite (@emit_guard ev' arg' st' Hinv'). fold st' in Ha.
      now rewrite Ha.
  - intros ph st Hlife. apply lifecycle_inv in Hlife. split.
    { destruct ph; cbn in Hlife.
      - destruct Hlife as (-> & _). split; discriminate.
      - destruct Hlife as (-> & _). split; reflexivity. }
    intros -> msg c st'.
    pose proof (stopped_after_stop msg c Hlife) as Hs. fold st' in Hs.
    destruct (stop_running msg c Hlife) as (id & _ & E).
    split; [now rewrite E|].
    split; [apply Hs|]. split; [apply Hs|].
    intros ev' arg'. now apply emit_stopped.
Qed.

End Facts.

Lemma stop_finalizes_witness :
  exists (id : nat) (st' : state),
    Spinner.stop true sgrColors (lit "Failed") 2
      (Spinner.tick true sgrColors
         (Spinner.start true sgrColors (lit "Working...") init))
    = (st', Normal)
    /\ finalGlyph true sgrColors 2 = red sgrColors (S_STEP_ERROR true)
    /\ st'.(timers) = [] /\ st'.(listeners) = []
    /\ st'.(inputBlocked) = false.
Proof.
  destruct (@stop_finalizes true sgrColors
              (Spinner.tick true sgrColors
                 (Spinner.start true sgrColors (lit "Working...") init))
              (lit "Failed") 2)
    as (id & st' & _ & _ & _ & _ & E & _ & _ & _ & Hg & _ & Ht & Hl & Hb & _).
  - apply life_tick, life_start, life_init.
  - exists id, st'. split; [exact E|].
    split; [apply Hg; discriminate|]. repeat split; assumption.
Defined.

Lemma guard_stops_active_spinner_witness :
  let st1 := Spinner.start true sgrColors (lit "Working") init in
  let st2 := Spinner.start true sgrColors (lit "again") st1 in
  let st3 := fst (Spinner.stop true sgrColors (lit "Done") 0 st2) in
  let st' := fst (Spinner.stop true sgrColors (lit "Done") 0 st1) in
  st3.(listeners) = hooks
  /\ Spinner.emit true sgrColors SIGINT 0 st3 = (st3, Normal)
  /\ Spinner.emit true sgrColors SIGINT 0 st2
     = Spinner.stop true sgrColors (lit "Canceled") 1 st2
  /\ snd (Spinner.stop true sgrColors (lit "Canceled") 1 st2) = Normal
  /\ st'.(listeners) = []
  /\ Spinner.emit true sgrColors SIGTERM 0 st' = (st', Normal).
Proof.
  cbv zeta.
  destruct (@guard_stops_active_spinner true sgrColors)
    as (_ & Hany & Hlife).
  assert (U2 : SpinnerUse.anyUse true sgrColors
                 (Spinner.start true sgrColors (lit "again")
                    (Spinner.start true sgrColors (lit "Working") init)))
    by (apply use_start, use_start, use_init).
  split; [reflexivity|]. split.
  - destruct (Hany _ SIGINT 0 (use_stop (lit "Done") 0 U2))
      as (_ & _ & _ & _ & _ & E & _).
    exact E.
  - destruct (Hany _ SIGINT 0 U2) as (_ & _ & _ & _ & _ & E & Hn & _).
    split; [exact E|]. split; [apply Hn; reflexivity|].
    destruct (Hlife Running
                (Spinner.start true sgrColors (lit "Working") init)
                (life_start (lit "Working") (life_init true sgrColors)))
      as (_ & Hclean).
    destruct (Hclean eq_refl (lit "Done") 0) as (_ & Hl & _ & Hq).
    split; [exact Hl|apply Hq].
Defined.

End SpinnerFacts.

(* ===================================================================== *)
(** * More properties of [index.ts] *)
(* ===================================================================== *)

(** ** The viewport window as the cursor moves *)

Module ViewportMore.
Import Viewport JSFacts ViewportFacts.

(** X1. The window follows the cursor without jumps: when the cursor moves
    down the window start never moves up, and it moves down by no more than
    the cursor did. The start is never negative and, when the list is
    longer than the window, never so large that the window runs past the
    end of the list. *)
Theorem window_follows_cursor :
  forall c1 c2 m L : Z,
    c1 <= c2 ->
    slidingWindowLocation c1 m L <= slidingWindowLocation c2 m L
    /\ slidingWindowLocation c2 m L
       <= slidingWindowLocation c1 m L + (c2 - c1)
    /\ 0 <= slidingWindowLocation c1 m L <= Z.max (L - m) 0.
Proof.
  intros c1 c2 m L H.
  pose proof (window_cases c1 m L) as H1.
  pose proof (window_cases c2 m L) as H2. cbv zeta in H1, H2. lia.
Qed.

Lemma window_follows_cursor_witness :
  slidingWindowLocation 50 10 100 <= slidingWindowLocation 51 10 100
  /\ slidingWindowLocation 51 10 100
     <= slidingWindowLocation 50 10 100 + (51 - 50)
  /\ 0 <= slidingWindowLocation 50 10 100 <= Z.max (100 - 10) 0.
Proof. apply (@window_follows_cursor 50 51 10 100). lia. Defined.

(** X2. When the whole list fits in the effective maximum, [limitOptions]
    returns one row per option, in order, each row the style function
    applied to the option, with the active flag set exactly at the
    cursor's index: nothing is cut and no ellipsis is drawn. *)
Theorem limitOptions_whole_list :
  forall (TOption : Type) (dim : jsstring -> jsstring) (rows : Z)
         (p : @LimitOptionsParams TOption jsstring),
    len p.(options) <= effectiveMax p.(maxItems) rows ->
    limitOptions dim rows p
    = mapi (fun i option => p.(style) option (i =? p.(cursor))) p.(options).
Proof.
  intros T dim rows p Hfit.
  unfold limitOptions, limitOptionsWith.
  rewrite (window_whole p.(cursor) Hfit).
  assert (Hs : slice 0 (0 + effectiveMax p.(maxItems) rows) p.(options)
               = p.(options)).
  { rewrite slice_nonneg by (pose proof (len_nonneg p.(options)); lia).
    pose proof (len_nonneg p.(options)) as H0.
    replace (Z.min (0 + effectiveMax (maxItems p) rows) (len (options p))
             - Z.min 0 (len (options p))) with (len (options p)) by lia.
    replace (Z.to_nat (Z.min 0 (len (options p)))) with 0%nat by lia.
    unfold len. rewrite Nat2Z.id. simpl. apply firstn_all. }
  rewrite Hs. unfold mapi. apply mapi_from_ext. intros k x.
  unfold shouldRenderTopEllipsis, shouldRenderBottomEllipsis.
  destruct (Z.ltb_spec (effectiveMax p.(maxItems) rows) (len p.(options)));
    [lia|].
  cbn. rewrite !andb_false_r. cbn. now rewrite Z.add_0_r.
Qed.

Lemma limitOptions_whole_list_witness :
  limitOptions (fun x => x) 24
    {| options := [lit "a"; lit "b"; lit "c"]; maxItems := Some 2;
       cursor := 1;
       style := fun o (active : bool) =>
                  (if active then lit "> " else lit "  ") ++ o |}
  = [lit "  a"; lit "> b"; lit "  c"].
Proof.
  rewrite (@limitOptions_whole_list jsstring (fun x => x) 24
             {| options := [lit "a"; lit "b"; lit "c"]; maxItems := Some 2;
                cursor := 1;
                style := fun o (active : bool) =>
                           (if active then lit "> " else lit "  ") ++ o |}).
  - reflexivity.
  - vm_compute. intro; discriminate.
Defined.

(** X3. Whatever the terminal and the cursor, the rows that [limitOptions]
    returns are consecutive options in their order: row [k] is either an
    ellipsis, and then it is the first or the last row, or the option at
    index [start + k], flagged active exactly when that index is the
    cursor. Hence at most one row is flagged active. *)
Theorem limitOptions_rows_in_order :
  forall (TOption : Type) (opts : list TOption) (mi : option Z)
         (c rows : Z),
    let out := limitRows rows opts mi c in
    let st := slidingWindowLocation c (effectiveMax mi rows) (len opts) in
    (forall (k : nat) (r : row TOption),
        nth_error out k = Some r ->
        (r = Ellipsis /\ (k = 0%nat \/ k = (length out - 1)%nat))
        \/ exists o,
             nth_error opts (Z.to_nat (st + Z.of_nat k)) = Some o
             /\ r = Styled o (st + Z.of_nat k =? c))
    /\ (forall (k1 k2 : nat) (o1 o2 : TOption),
           nth_error out k1 = Some (Styled o1 true) ->
           nth_error out k2 = Some (Styled o2 true) -> k1 = k2).
Proof.
  intros T opts mi c rows out st.
  assert (Hlen : len out = Z.min (effectiveMax mi rows) (len opts))
    by apply limitRows_length.
  assert (Hrow : forall (k : nat) (r : row T),
             nth_error out k = Some r ->
             (r = Ellipsis /\ (k = 0%nat \/ k = (length out - 1)%nat))
             \/ exists o,
                  nth_error opts (Z.to_nat (st + Z.of_nat k)) = Some o
                  /\ r = Styled o (st + Z.of_nat k =? c)).
  { intros k r Hk.
    assert (Hlt : (k < length out)%nat)
      by (apply nth_error_Some; rewrite Hk; discriminate).
    destruct (limitRows_nth rows opts mi c (k := Z.of_nat k))
      as (o & Ho & Hr); [unfold len in *; lia|].
    fold st in Ho, Hr. rewrite Nat2Z.id in Hr. fold out in Hr.
    rewrite Hk in Hr. injection Hr as ->.
    destruct (Z.eqb_spec (Z.of_nat k) 0) as [E0|E0];
      destruct (Z.eqb_spec (Z.of_nat k)
                  (Z.min (effectiveMax mi rows) (len opts) - 1)) as [E1|E1];
      destruct (shouldRenderTopEllipsis _ _ _);
      destruct (shouldRenderBottomEllipsis _ _ _); cbn;
      try (left; split; [reflexivity|unfold len in *; lia]);
      right; exists o; (split; [exact Ho|]);
      now rewrite (Z.add_comm (Z.of_nat k) st). }
  split; [exact Hrow|].
  intros k1 k2 o1 o2 H1 H2.
  destruct (Hrow _ _ H1) as [[E _]|(o & _ & E)]; [discriminate|].
  destruct (Hrow _ _ H2) as [[E' _]|(o' & _ & E')]; [discriminate|].
  injection E as _ E. injection E' as _ E'.
  symmetry in E, E'. apply Z.eqb_eq in E, E'. lia.
Qed.

End ViewportMore.

(** ** More on [strip] *)

Module StripMore.
Import MatcherFacts StripFacts BoxFacts.

Lemma subseq_refl {A : Type} (l : list A) : subseq l l.
Proof. induction l; constructor; assumption. Qed.

Lemma subseq_suffix {A : Type} (pre t : list A) : subseq t (pre ++ t).
Proof.
  induction pre as [|x pre IH]; simpl; [apply subseq_refl|].
  now constructor.
Qed.

Lemma subseq_trans {A : Type} (a b c : list A) :
  subseq a b -> subseq b c -> subseq a c.
Proof.
  intros Hab Hbc. revert a Hab.
  induction Hbc as [|x b c _ IH|x b c _ IH]; intros a Hab.
  - exact Hab.
  - constructor. now apply IH.
  - inversion Hab; subst.
    + apply subseq_skip. now apply IH.
    + apply subseq_keep. now apply IH.
Qed.

Lemma subseq_length {A : Type} (a b : list A) :
  subseq a b -> (length a <= length b)%nat.
Proof. induction 1; simpl; lia. Qed.

Lemma subseq_forallb {A : Type} (p : A -> bool) (a b : list A) :
  subseq a b -> forallb p b = true -> forallb p a = true.
Proof.
  induction 1 as [|x a b _ IH|x a b _ IH]; simpl; [trivial| |];
    rewrite ?andb_true_iff; intros [Hx Hb]; auto.
Qed.

Lemma replaceAll_subseq (r : regex) :
  forall n s, subseq (replaceAll r n s) s.
Proof.
  induction n as [|n IH]; intros s; simpl; [apply subseq_refl|].
  destruct s as [|c s']; [constructor|].
  destruct (ms r (c :: s')) as [|rest l] eqn:Hm.
  - apply subseq_keep. apply IH.
  - destruct (Nat.ltb_spec (length rest) (length (c :: s'))).
    + assert (Hin : In rest (ms r (c :: s'))) by (rewrite Hm; now left).
      destruct (ms_suffix _ _ _ Hin) as [pre E].
      apply subseq_trans with (b := rest); [apply IH|].
      rewrite E. apply subseq_suffix.
    + apply subseq_keep. apply IH.
Qed.

(** X4. [strip] only removes: its result is the argument with some code
    units left out, in the same order, so it is never longer than the
    argument, and a string without a newline stays without one. *)
Theorem strip_only_removes :
  forall s : jsstring,
    subseq (strip s) s
    /\ visibleLength s <= len s
    /\ (noNewline s = true -> noNewline (strip s) = true).
Proof.
  intros s. assert (H : subseq (strip s) s) by apply replaceAll_subseq.
  split; [exact H|]. split.
  - unfold visibleLength, len. apply subseq_length in H. lia.
  - intros Hs. unfold noNewline in *. now apply subseq_forallb with (b := s).
Qed.

Lemma strip_only_removes_witness :
  noNewline (strip (ESC :: lit "[1Xab")) = true.
Proof.
  apply (strip_only_removes (ESC :: lit "[1Xab")). reflexivity.
Defined.

(** X5. A string that holds neither ESC nor U+009B is left as it is,
    whatever else it holds; its visible length is its length. *)
Theorem strip_keeps_plain_text :
  forall s : jsstring,
    forallb (fun c => negb (cIntro c)) s = true ->
    strip s = s /\ visibleLength s = len s.
Proof.
  intros s Hs.
  assert (E : strip s = s).
  { rewrite <- (app_nil_r s) at 1. rewrite strip_plain by exact Hs.
    now rewrite strip_nil, app_nil_r. }
  split; [exact E|]. unfold visibleLength. now rewrite E.
Qed.

Lemma strip_keeps_plain_text_witness :
  strip (lit "50% done; [ok]" ++ [BEL]) = lit "50% done; [ok]" ++ [BEL].
Proof.
  apply (strip_keeps_plain_text (lit "50% done; [ok]" ++ [BEL])).
  reflexivity.
Defined.

Lemma split_first_line (s : jsstring) :
  noNewline s = true
  \/ exists a b, s = a ++ newline :: b /\ noNewline a = true.
Proof.
  induction s as [|c s IH]; [now left|].
  destruct (N.eqb_spec c newline) as [->|Hc].
  - right. exists [], s. split; reflexivity.
  - destruct IH as [Hs|(a & b & -> & Ha)].
    + left. unfold noNewline in *. simpl. rewrite Hs.
      apply N.eqb_neq in Hc. now rewrite Hc.
    + right. exists (c :: a), b. split; [reflexivity|].
      unfold noNewline in *. simpl. rewrite Ha.
      apply N.eqb_neq in Hc. now rewrite Hc.
Qed.

(** X6. Stripping commutes with splitting into lines: the lines of the
    stripped text are the stripped lines of the text. An escape sequence
    is never matched across a newline, so measuring a message line by
    line, as [buildBox] does, measures what stripping the whole message
    would leave. *)
Theorem strip_line_by_line :
  forall s : jsstring,
    split_nl (strip s) = map strip (split_nl s).
Proof.
  intros s. remember (length s) as n eqn:Hn. revert s Hn.
  induction n as [n IH] using lt_wf_ind. intros s Hn.
  destruct (split_first_line s) as [Hs|(a & b & -> & Ha)].
  - rewrite (split_nl_line _ Hs). cbn [map].
    apply split_nl_line. now apply strip_only_removes.
  - rewrite (strip_separator newline_is_separator).
    rewrite !split_nl_app, map_app. f_equal.
    + rewrite (split_nl_line _ Ha). cbn [map].
      apply split_nl_line. now apply strip_only_removes.
    + apply (IH (length b)); [|reflexivity].
      subst n. rewrite length_app. simpl. lia.
Qed.

End StripMore.

(** ** The box as a rectangle *)

Module BoxMore.
Import MatcherFacts StripFacts BoxFacts.

(** X7. The box is a rectangle. When the colour functions are invisible to
    [strip] on the pieces they are applied to (the bar, the step glyph, the
    title, the two border rules and the body lines), the top line (glyph,
    title and rule), every body row and the bottom border all have the
    same visible width, contentWidth + 4; this also holds when the title is
    wider than every body line. *)
Theorem buildBox_is_rectangular :
  forall (unicode : bool) (color : Colors) (message title : jsstring)
         (dimmed : bool),
    let lines := Box.bodyLines message in
    let width := Box.contentWidth message title in
    let titleLen := visibleLength title in
    let topRule := repeat_str (S_BAR_H unicode)
                              (Z.max (width - titleLen - 1) 1)
                   ++ S_CORNER_TOP_RIGHT unicode in
    let bottomRule := S_CONNECT_LEFT unicode
                      ++ repeat_str (S_BAR_H unicode) (width + 2)
                      ++ S_CORNER_BOTTOM_RIGHT unicode in
    let top := green color (S_STEP_SUBMIT unicode) ++ lit "  "
               ++ reset color title ++ lit " " ++ gray color topRule in
    let rows := map (Box.bodyRow unicode color dimmed width) lines in
    visibleLength (gray color (S_BAR unicode)) = 1 ->
    visibleLength (green color (S_STEP_SUBMIT unicode)) = 1 ->
    visibleLength (reset color title) = titleLen ->
    visibleLength (gray color topRule) = len topRule ->
    visibleLength (gray color bottomRule) = len bottomRule ->
    Forall (fun ln => visibleLength (Box.painted color dimmed ln)
                      = visibleLength ln) lines ->
    Box.buildBox unicode color message title dimmed
    = [Text (gray color (S_BAR unicode) ++ nl ++ top ++ nl
             ++ join nl rows ++ nl ++ gray color bottomRule ++ nl)]
    /\ visibleLength top = width + 4
    /\ Forall (fun row => visibleLength row = width + 4) rows
    /\ visibleLength (gray color bottomRule) = width + 4.
Proof.
  intros unicode color message title dimmed lines width titleLen topRule
         bottomRule top rows Hbar Hstep Htitle Htop Hbottom Hstyle.
  assert (Ewidth : Box.boxLen message title = width).
  { unfold Box.boxLen, width, Box.contentWidth. now rewrite widest_max. }
  assert (Ht0 : 0 <= titleLen) by apply JSFacts.len_nonneg.
  assert (Hwt : titleLen + 2 <= width).
  { unfold width, Box.contentWidth. fold titleLen. lia. }
  assert (Hc1 : length (S_CORNER_TOP_RIGHT unicode) = 1%nat)
    by (destruct unicode; reflexivity).
  assert (Hc2 : length (S_CONNECT_LEFT unicode) = 1%nat)
    by (destruct unicode; reflexivity).
  assert (Hc3 : length (S_CORNER_BOTTOM_RIGHT unicode) = 1%nat)
    by (destruct unicode; reflexivity).
  assert (Ltop : len topRule = width - titleLen).
  { unfold topRule, len. rewrite length_app, Hc1.
    pose proof (len_rule unicode (n := Z.max (width - titleLen - 1) 1)
                  ltac:(lia)) as E1. unfold len in E1. lia. }
  assert (Lbottom : len bottomRule = width + 4).
  { unfold bottomRule, len. rewrite !length_app, Hc2, Hc3.
    pose proof (len_rule unicode (n := width + 2) ltac:(lia)) as E1.
    unfold len in E1. lia. }
  split.
  { unfold Box.buildBox, Box.topBorder, Box.bottomBorder.
    fold lines. rewrite Ewidth. fold titleLen. fold topRule bottomRule rows.
    unfold top. now rewrite <- !app_assoc. }
  split; [|split].
  - unfold top, visibleLength in *.
    change (lit "  ") with [32%N; 32%N]. change (lit " ") with [32%N].
    cbn [app].
    rewrite (strip_separator space_is_separator).
    change (32%N :: reset color title ++ 32%N :: gray color topRule)
      with ([32%N] ++ reset color title ++ 32%N :: gray color topRule).
    rewrite strip_plain by reflexivity.
    rewrite (strip_separator space_is_separator).
    unfold len in *. rewrite !length_app. cbn [length].
    rewrite !length_app. cbn [length]. lia.
  - unfold rows. apply Forall_forall. intros row Hrow.
    apply in_map_iff in Hrow. destruct Hrow as (ln & <- & Hin).
    assert (Hln : visibleLength ln <= width - 2).
    { pose proof (widest_bound lines ln Hin).
      unfold width, Box.contentWidth. fold lines. lia. }
    rewrite Forall_forall in Hstyle. specialize (Hstyle ln Hin).
    unfold visibleLength in *.
    rewrite (strip_bodyRow unicode color dimmed) by lia.
    change (lit " ") with [32%N].
    pose proof (len_repeat_one 32%N (n := width - len (strip ln))
                  ltac:(lia)) as Hpad.
    unfold len in *. rewrite !length_app.
    change (length (lit "  ")) with 2%nat. lia.
  - rewrite Hbottom. exact Lbottom.
Qed.

Lemma buildBox_is_rectangular_witness :
  Forall (fun row => visibleLength row = 12)
         (map (Box.bodyRow true sgrColors true 8)
              (Box.bodyLines (lit "ab" ++ nl ++ lit "abc"))).
Proof.
  destruct (@buildBox_is_rectangular true sgrColors
              (lit "ab" ++ nl ++ lit "abc") (lit "Title!") true)
    as (_ & _ & Hrows & _).
  - vm_compute. reflexivity.
  - vm_compute. reflexivity.
  - vm_compute. reflexivity.
  - vm_compute. reflexivity.
  - vm_compute. reflexivity.
  - change (Box.bodyLines (lit "ab" ++ nl ++ lit "abc"))
      with [[]; lit "ab"; lit "abc"; []].
    repeat (apply Forall_cons; [vm_compute; reflexivity|]).
    apply Forall_nil.
  - exact Hrows.
Defined.

End BoxMore.

(** ** The live log with text of any shape *)

Module TaskLogMore.
Import JSFacts BoxFacts TaskLogFacts TaskLog TaskLogLines.

Lemma slice_all {A : Type} (l : list A) : slice (- 0) (len l) l = l.
Proof.
  pose proof (len_nonneg l). rewrite slice_nonneg by lia.
  replace (Z.min (len l) (len l) - Z.min (- 0) (len l)) with (len l) by lia.
  replace (Z.to_nat (Z.min (- 0) (len l))) with 0%nat by lia.
  unfold len. rewrite Nat2Z.id. apply firstn_all.
Qed.

Lemma split_nl_lines (s : jsstring) :
  Forall (fun l => noNewline l = true) (split_nl s).
Proof.
  induction s as [|c s IH]; simpl; [repeat constructor|].
  destruct (N.eqb_spec c newline) as [->|Hc].
  - constructor; [reflexivity|exact IH].
  - destruct (split_nl s) as [|l ls]; [repeat constructor|].
    + unfold noNewline. simpl. apply N.eqb_neq in Hc. now rewrite Hc.
    + inversion IH; subst. constructor; [|assumption].
      unfold noNewline in *. simpl. apply N.eqb_neq in Hc.
      now rewrite Hc.
Qed.

Section Frames.
Variable unicode : bool.
Variable color : Colors.
Variable parser : option (jsstring -> jsstring).

Local Abbreviation BAR := (TaskLog.BAR unicode color).
Local Abbreviation paintLine := (TaskLogLines.paintLine unicode color).
Local Abbreviation paintedFrame :=
  (TaskLogLines.paintedFrame unicode color parser).
Local Abbreviation rowsOf := (TaskLogLines.rowsOf unicode color parser).

Lemma paint_from (lines : list jsstring) :
  forall acc,
    fold_left (fun frame line => frame ++ BAR ++ lit "  " ++ line ++ nl)
              lines acc
    = acc ++ concat (map paintLine lines).
Proof.
  induction lines as [|l lines IH]; intros acc; cbn [fold_left map concat];
    [now rewrite app_nil_r|].
  rewrite IH. unfold TaskLogLines.paintLine. now rewrite <- !app_assoc.
Qed.

Lemma print_paints (st : state) :
  print unicode color parser 0 st
  = ({| output := st.(output); frame := paintedFrame st.(output) |},
     [Text (dim color (paintedFrame st.(output)))]).
Proof.
  unfold print, TaskLogLines.paintedFrame, TaskLogLines.parsed.
  rewrite slice_all, paint_from. reflexivity.
Qed.

Lemma text_paints (columns : Z) (data : jsstring) (st : state) :
  text unicode color parser columns data st
  = ({| output := st.(output) ++ data;
        frame := paintedFrame (st.(output) ++ data) |},
     clear columns false st
     ++ [Text (dim color (paintedFrame (st.(output) ++ data)))]).
Proof. unfold text. rewrite print_paints. reflexivity. Qed.

Hypothesis bar_line : noNewline BAR = true.

Lemma split_painted (lines : list jsstring) :
  Forall (fun l => noNewline l = true) lines ->
  split_nl (concat (map paintLine lines))
  = map (fun l => BAR ++ lit "  " ++ l) lines ++ [[]].
Proof.
  induction 1 as [|l lines Hl _ IH]; [reflexivity|].
  cbn [map concat]. unfold TaskLogLines.paintLine at 1, nl.
  rewrite <- !app_assoc. cbn [app].
  rewrite !app_assoc, split_nl_app, IH, <- !app_assoc.
  rewrite split_nl_line; [reflexivity|].
  now rewrite !noNewline_app, bar_line, Hl.
Qed.

Lemma frameHeight_painted (w : Z) (o : jsstring) :
  0 < w -> frameHeight w (paintedFrame o) = rowsOf w o.
Proof.
  intros Hw. rewrite frameHeight_sum.
  unfold TaskLogLines.paintedFrame, TaskLogLines.rowsOf.
  rewrite split_painted by apply split_nl_lines.
  rewrite map_app, map_map, fold_right_app. cbn [map fold_right].
  rewrite ceil_div_zero by exact Hw.
  f_equal. apply map_ext. intros l. f_equal.
  unfold len. rewrite !length_app. change (length (lit "  ")) with 2%nat.
  lia.
Qed.

Lemma painted_not_empty (o : jsstring) : paintedFrame o <> [].
Proof.
  unfold TaskLogLines.paintedFrame.
  destruct (split_nl_nonempty (TaskLogLines.parsed parser o))
    as (l & ls & ->).
  cbn [map concat]. unfold TaskLogLines.paintLine, nl.
  intros E. apply app_eq_nil in E. destruct E as [E _].
  apply app_eq_nil in E. destruct E as [_ E].
  apply app_eq_nil in E. destruct E as [_ E].
  apply app_eq_nil in E. destruct E as [_ E]. discriminate.
Qed.

Lemma clear_painted (w : Z) (et : bool) (o : jsstring) :
  0 < w ->
  clear w et {| output := o; frame := paintedFrame o |}
  = [CursorUp (rowsOf w o + (if et then 1 else 0)); EraseDown 1].
Proof.
  intros Hw. unfold clear. cbn [frame].
  destruct (paintedFrame o) as [|c f] eqn:E;
    [now apply painted_not_empty in E|].
  rewrite <- E. now rewrite frameHeight_painted.
Qed.

End Frames.

(** X8. After an append of any text - with or without newlines, with or
    without a parser - the buffer is the old buffer followed by the text,
    the stored frame is the whole parsed buffer painted line by line, and
    the next [clear] moves up by the sum, over the lines of the parsed
    buffer, of ceil((bar prefix + 2 + line length) / columns) rows, plus
    one when the title is erased. *)
Theorem taskLog_rows_of_any_text :
  forall (unicode : bool) (color : Colors)
         (parser : option (jsstring -> jsstring))
         (columns w : Z) (data : jsstring) (st : state) (eraseTitle : bool),
    0 < w ->
    noNewline (BAR unicode color) = true ->
    let st' := fst (text unicode color parser columns data st) in
    st'.(output) = st.(output) ++ data
    /\ st'.(frame)
       = concat (map (paintLine unicode color)
                     (split_nl (parsed parser st'.(output))))
    /\ clear w eraseTitle st'
       = [CursorUp (rowsOf unicode color parser w st'.(output)
                    + (if eraseTitle then 1 else 0));
          EraseDown 1].
Proof.
  intros unicode color parser columns w data st eraseTitle Hw Hbar st'.
  unfold st'. rewrite text_paints. cbn [fst output frame].
  split; [reflexivity|]. split; [reflexivity|].
  now apply clear_painted.
Qed.

Lemma taskLog_rows_of_any_text_witness :
  clear 10 true
        (fst (text false plainColors None 10
                   (lit "first line is long" ++ nl ++ lit "second")
                   (fst (taskLog false plainColors (lit "Build")))))
  = [CursorUp (3 + 1 + 1); EraseDown 1].
Proof.
  destruct (@taskLog_rows_of_any_text false plainColors None 10 10
              (lit "first line is long" ++ nl ++ lit "second")
              (fst (taskLog false plainColors (lit "Build"))) true)
    as (_ & _ & E).
  - reflexivity.
  - reflexivity.
  - exact E.
Defined.

(** X9. Once text has been appended, [fail] erases the frame and the
    title line, writes its message and paints the same frame again below
    it; [success] erases the frame and the title line and writes only its
    message. Neither changes the buffer or the stored frame. *)
Theorem taskLog_fail_keeps_the_log :
  forall (unicode : bool) (color : Colors)
         (parser : option (jsstring -> jsstring))
         (columns w : Z) (data message : jsstring) (st : state),
    0 < w ->
    noNewline (BAR unicode color) = true ->
    let st' := fst (text unicode color parser columns data st) in
    let up := CursorUp (rowsOf unicode color parser w st'.(output) + 1) in
    fail unicode color parser w message st'
    = (st', [up; EraseDown 1;
             Text (ERROR unicode color ++ lit "  " ++ message ++ nl);
             Text (dim color st'.(frame))])
    /\ success unicode color w message st'
       = (st', [up; EraseDown 1;
                Text (SUCCESS unicode color ++ lit "  " ++ message ++ nl)]).
Proof.
  intros unicode color parser columns w data message st Hw Hbar st' up.
  unfold st', up. rewrite text_paints. cbn [fst output frame].
  unfold fail, success. rewrite print_paints. cbn [output].
  rewrite (@clear_painted unicode color parser Hbar w true _ Hw).
  split; reflexivity.
Qed.

Lemma taskLog_fail_keeps_the_log_witness :
  snd (fail false plainColors None 80 (lit "failed")
         (fst (text false plainColors None 80 (lit "step 1")
                    (fst (taskLog false plainColors (lit "Build"))))))
  = [CursorUp (1 + 1); EraseDown 1; Text (lit "x  failed" ++ nl);
     Text (lit "|  step 1" ++ nl)].
Proof.
  destruct (@taskLog_fail_keeps_the_log false plainColors None 80 80
              (lit "step 1") (lit "failed")
              (fst (taskLog false plainColors (lit "Build"))))
    as (E & _).
  - reflexivity.
  - reflexivity.
  - rewrite E. reflexivity.
Defined.

(** X10. Appends compose: several appends in a row leave the same buffer
    and the same stored frame as one append of the concatenated text,
    whatever the parser and the terminal widths in between. *)
Theorem taskLog_appends_compose :
  forall (unicode : bool) (color : Colors)
         (parser : option (jsstring -> jsstring))
         (columns columns' : Z) (d : jsstring) (ds : list jsstring)
         (st : state),
    fst (appendAll unicode color parser columns (d :: ds) st)
    = fst (text unicode color parser columns' (concat (d :: ds)) st).
Proof.
  intros unicode color parser columns columns' d ds st.
  unfold appendAll.
  assert (H : forall ds st w,
             fst (fold_left
                    (fun acc data =>
                       let (st', w0) :=
                         text unicode color parser columns data (fst acc) in
                       (st', snd acc ++ w0))
                    ds (st, w))
             = match ds with
               | [] => st
               | _ :: _ =>
                   {| output := st.(output) ++ concat ds;
                      frame := paintedFrame unicode color parser
                                 (st.(output) ++ concat ds) |}
               end).
  { clear. induction ds as [|d ds IH]; intros st w; [reflexivity|].
    cbn [fold_left fst snd]. rewrite text_paints, IH.
    destruct ds as [|d' ds]; cbn [concat output].
    - now rewrite app_nil_r.
    - now rewrite <- app_assoc. }
  rewrite H, text_paints. reflexivity.
Qed.

End TaskLogMore.

(** ** The spinner over time *)

Module SpinnerMore.
Import Spinner SpinnerFacts SpinnerRuns.

Lemma dropDots_spec (r : jsstring) :
  exists k, r = repeat dot k ++ dropDots r
            /\ hd_error (dropDots r) <> Some dot.
Proof.
  induction r as [|c r (k & E & H)]; [exists 0%nat; split; easy|].
  cbn [dropDots]. destruct (N.eqb_spec c dot) as [->|Hc].
  - exists (S k). cbn [repeat app]. split; [now rewrite <- E|exact H].
  - exists 0%nat. split; [reflexivity|]. cbn [hd_error].
    intros E'. apply Hc. now injection E'.
Qed.

Lemma repeat_rev {A : Type} (x : A) (k : nat) : rev (repeat x k) = repeat x k.
Proof.
  induction k as [|k IH]; [reflexivity|]. cbn [repeat rev]. rewrite IH.
  clear IH. induction k; [reflexivity|]. cbn. now f_equal.
Qed.

(** X11. [start] stores the message without its trailing dots: the stored
    message followed by some number of dots is the message that was passed,
    the stored message does not end with a dot, and dots inside the
    message are kept. A message made of dots only is stored as the empty
    string. *)
Theorem start_drops_trailing_dots :
  forall (unicode : bool) (color : Colors) (msg : jsstring) (st : state),
    let stored := (start unicode color msg st).(_message) in
    stored = stripTrailingDots msg
    /\ (exists k, msg = stored ++ repeat dot k)
    /\ (forall pre, stored <> pre ++ [dot])
    /\ stripTrailingDots stored = stored
    /\ (forall k, stripTrailingDots (repeat dot k) = []).
Proof.
  intros unicode color msg st stored.
  assert (E : stored = stripTrailingDots msg).
  { unfold stored. destruct st. reflexivity. }
  assert (Hend : forall m pre, stripTrailingDots m <> pre ++ [dot]).
  { intros m pre H. unfold stripTrailingDots in H.
    destruct (dropDots_spec (rev m)) as (k & _ & Hhd).
    apply (f_equal (@rev N)) in H. rewrite rev_involutive, rev_app_distr in H.
    cbn in H. rewrite H in Hhd. now apply Hhd. }
  assert (Hfix : forall m, (forall pre, m <> pre ++ [dot]) ->
                           stripTrailingDots m = m).
  { intros m Hm. unfold stripTrailingDots.
    destruct (rev m) as [|c r] eqn:Er; [now rewrite <- (rev_involutive m), Er|].
    cbn [dropDots]. destruct (N.eqb_spec c dot) as [->|Hc].
    - exfalso. apply (Hm (rev r)).
      rewrite <- (rev_involutive m), Er. reflexivity.
    - now rewrite <- Er, rev_involutive. }
  rewrite E. split; [reflexivity|]. split; [|split; [apply Hend|split]].
  - unfold stripTrailingDots.
    destruct (dropDots_spec (rev msg)) as (k & Hk & _). exists k.
    rewrite <- (rev_involutive msg) at 1. rewrite Hk at 1.
    now rewrite rev_app_distr, repeat_rev.
  - apply Hfix. apply Hend.
  - intros k. unfold stripTrailingDots. rewrite repeat_rev.
    induction k as [|k IH]; [reflexivity|]. cbn [repeat dropDots].
    now rewrite N.eqb_refl.
Qed.

(** Counters stay in range and interval handles stay below the next
    handle, all through the life of a spinner. *)
Lemma lifecycle_ranges (unicode : bool) (color : Colors) (ph : phase)
    (st : state) :
  lifecycle unicode color ph st ->
  0 <= st.(frameIndex) < 4 /\ 0 <= st.(dotsTimer8) <= 32
  /\ forall id, In id st.(timers) -> (id < st.(nextTimer))%nat.
Proof.
  induction 1 as [|st msg Hl IH|st Hl IH|ph st msg Hl IH|st msg code Hl IH
                 |ph st ev arg Hl IH].
  - cbn. split; [lia|]. split; [lia|]. intros id [].
  - apply lifecycle_inv in Hl.
    destruct st as [a m u lp fi dt ts nt ls ib tr]. cbn in *.
    destruct Hl as (_ & -> & _ & _).
    split; [lia|]. split; [lia|]. intros id [<-|[]]. lia.
  - apply lifecycle_inv in Hl.
    destruct st as [a m u lp fi dt ts nt ls ib tr]. cbn in *.
    destruct Hl as (_ & _ & (id & -> & ->) & _ & _).
    destruct IH as (Hfi & Hdt & Hts).
    unfold tick. cbn. rewrite Nat.eqb_refl. cbn.
    assert (Hf : len (frames unicode) = 4) by (destruct unicode; reflexivity).
    rewrite Hf.
    destruct (Z.ltb_spec (fi + 1) 4); destruct (Z.ltb_spec dt 32);
      (split; [lia|]; split; [lia|exact Hts]).
  - destruct st as [a m u lp fi dt ts nt ls ib tr]. exact IH.
  - apply lifecycle_inv in Hl.
    destruct (@stop_running unicode color st msg code Hl) as (id & _ & ->).
    cbn. destruct IH as (Hfi & Hdt & _).
    split; [lia|]. split; [lia|]. intros i [].
  - apply lifecycle_inv in Hl. destruct ph.
    + rewrite (@emit_stopped unicode color st ev arg Hl). exact IH.
    + rewrite (@emit_running unicode color st ev arg Hl).
      destruct (@stop_running unicode color st
                  (exitMessage (exitCodeOf ev arg)) (exitCodeOf ev arg) Hl)
        as (id & _ & ->).
      cbn. destruct IH as (Hfi & Hdt & _).
      split; [lia|]. split; [lia|]. intros i [].
Qed.

Lemma firstn_repeat_min {A : Type} (x : A) (n k : nat) :
  firstn n (repeat x k) = repeat x (Nat.min k n).
Proof.
  revert k. induction n as [|n IH]; intros k.
  - now rewrite Nat.min_0_r.
  - destruct k as [|k]; [reflexivity|]. cbn. now rewrite IH.
Qed.

Lemma loadingDots_spec (q : Z) :
  0 <= q ->
  firstn 3 (repeat_str [dot] q) = repeat dot (Z.to_nat (Z.min q 3)).
Proof.
  intros Hq. rewrite BoxFacts.repeat_one, firstn_repeat_min.
  f_equal. lia.
Qed.

Lemma tick_scheduled (unicode : bool) (color : Colors) (a : bool)
    (m : jsstring) (u : bool) (id : nat) (fi dt : Z) (ts : list nat)
    (nt : nat) (ls : list (eventName * handler)) (ib : bool)
    (tr : list effect) :
  tick unicode color
    (Build_state a m u (Some id) fi dt (id :: ts) nt ls ib tr)
  = Build_state a m u (Some id)
      (if fi + 1 <? len (frames unicode) then fi + 1 else 0)
      (if dt <? 8 * len (frames unicode) then dt + 1 else 0)
      (id :: ts) nt ls ib
      (((tr ++ [Write (CursorMove (-999) 0)]) ++ [Write (EraseDown 1)])
       ++ [Write (Text (magenta color
                          (nth (Z.to_nat fi) (frames unicode) [])
                        ++ lit "  " ++ m
                        ++ firstn 3 (repeat_str [dot] (dt / 8))))]).
Proof.
  unfold tick. cbn [loop timers existsb]. rewrite Nat.eqb_refl.
  reflexivity.
Qed.

Lemma frames_len (unicode : bool) : len (frames unicode) = 4.
Proof. destruct unicode; reflexivity. Qed.

Lemma ticks_scheduled (unicode : bool) (color : Colors) (a : bool)
    (m : jsstring) (u : bool) (id : nat) (ts : list nat)
    (nt : nat) (ls : list (eventName * handler)) (ib : bool)
    (tr : list effect) (k : nat) :
  ticks unicode color k
    (Build_state a m u (Some id) 0 0 (id :: ts) nt ls ib tr)
  = Build_state a m u (Some id)
      (Z.of_nat k mod 4) (Z.of_nat k mod 33) (id :: ts) nt ls ib
      (tr ++ concat
               (map (fun i =>
                       [Write (CursorMove (-999) 0);
                        Write (EraseDown 1);
                        Write (tickLine unicode color (Z.of_nat i mod 4)
                                        (Z.of_nat i mod 33) m)])
                    (seq 0 k))).
Proof.
  induction k as [|k IH].
  - cbn [ticks seq map concat]. now rewrite app_nil_r.
  - cbn [ticks]. rewrite IH, tick_scheduled, frames_len.
    pose proof (Z.mod_pos_bound (Z.of_nat k) 4 ltac:(lia)) as H4.
    pose proof (Z.mod_pos_bound (Z.of_nat k) 33 ltac:(lia)) as H33.
    rewrite seq_S, map_app, concat_app. cbn [map concat Nat.add].
    rewrite app_nil_r, <- !app_assoc. cbn [app].
    replace (Z.of_nat (S k)) with (Z.of_nat k + 1) by lia.
    rewrite <- (Z.add_mod_idemp_l (Z.of_nat k) 1 4) by lia.
    rewrite <- (Z.add_mod_idemp_l (Z.of_nat k) 1 33) by lia.
    f_equal.
    + destruct (Z.ltb_spec (Z.of_nat k mod 4 + 1) 4).
      * symmetry. apply Z.mod_small. lia.
      * replace (Z.of_nat k mod 4) with 3 by lia. reflexivity.
    + destruct (Z.ltb_spec (Z.of_nat k mod 33) (8 * 4)).
      * symmetry. apply Z.mod_small. lia.
      * replace (Z.of_nat k mod 33) with 32 by lia. reflexivity.
Qed.

(** X12. Every tick of a running spinner writes exactly three chunks: move
    to the start of the line, erase, and the line itself - the glyph at the
    current frame index, two blanks, the current message and at most three
    dots. The frame index stays within the four frames and advances
    cyclically; the dot counter runs from 0 to 32 and starts over, so the
    line shows 0, 1, 2 and 3 dots for eight ticks each (three dots for a
    ninth tick) and never more than three. A tick changes nothing else. *)
Theorem tick_writes_one_line :
  forall (unicode : bool) (color : Colors) (st : state),
    lifecycle unicode color Running st ->
    let fi := st.(frameIndex) in
    let dt := st.(dotsTimer8) in
    let st' := tick unicode color st in
    0 <= fi < 4 /\ 0 <= dt <= 32
    /\ (exists glyph, nth_error (frames unicode) (Z.to_nat fi) = Some glyph
          /\ st'.(trace)
             = st.(trace)
               ++ [Write (CursorMove (-999) 0);
                   Write (EraseDown 1);
                   Write (Text (magenta color glyph ++ lit "  "
                                ++ st.(_message)
                                ++ repeat dot (Z.to_nat (Z.min (dt / 8) 3))))])
    /\ st'.(frameIndex) = (fi + 1) mod 4
    /\ st'.(dotsTimer8) = (dt + 1) mod 33
    /\ st'.(_message) = st.(_message)
    /\ st'.(timers) = st.(timers) /\ st'.(listeners) = st.(listeners)
    /\ st'.(isSpinnerActive) = true.
Proof.
  intros unicode color st Hl fi dt st'.
  destruct (lifecycle_ranges Hl) as (Hfi & Hdt & _).
  apply lifecycle_inv in Hl. fold fi in Hfi. fold dt in Hdt.
  split; [exact Hfi|]. split; [exact Hdt|].
  destruct st as [a m u lp fi0 dt0 ts nt ls ib tr].
  cbn [phaseInv isSpinnerActive unblock loop timers listeners inputBlocked]
    in Hl.
  destruct Hl as (-> & _ & (id & -> & ->) & _ & _).
  cbn [frameIndex dotsTimer8] in fi, dt. subst fi dt.
  unfold st'. rewrite tick_scheduled.
  cbn [trace frameIndex dotsTimer8 _message timers listeners
       isSpinnerActive].
  assert (Hf : len (frames unicode) = 4) by (destruct unicode; reflexivity).
  assert (Hlen : length (frames unicode) = 4%nat)
    by (destruct unicode; reflexivity).
  rewrite Hf.
  split.
  - destruct (nth_error (frames unicode) (Z.to_nat fi0)) as [g|] eqn:Eg.
    2:{ apply nth_error_None in Eg. lia. }
    exists g. split; [reflexivity|].
    erewrite nth_error_nth by exact Eg.
    rewrite loadingDots_spec by (apply Z.div_pos; lia).
    rewrite <- !app_assoc. reflexivity.
  - destruct (Z.ltb_spec (fi0 + 1) 4); destruct (Z.ltb_spec dt0 (8 * 4)).
    + rewrite !Z.mod_small by lia. repeat split.
    + replace dt0 with 32 by lia. rewrite Z.mod_small by lia.
      repeat split.
    + replace fi0 with 3 by lia. rewrite (Z.mod_small (dt0 + 1)) by lia.
      repeat split.
    + replace fi0 with 3 by lia. replace dt0 with 32 by lia. repeat split.
Qed.

Lemma tick_writes_one_line_witness :
  (tick true sgrColors
     (tick true sgrColors (start true sgrColors (lit "Loading...") init)))
  .(frameIndex) = (1 + 1) mod 4.
Proof.
  destruct (@tick_writes_one_line true sgrColors
              (tick true sgrColors
                 (start true sgrColors (lit "Loading...") init)))
    as (_ & _ & _ & E & _).
  - apply life_tick, life_start, life_init.
  - exact E.
Defined.

(** X13. [stop] on a spinner that was never started raises a TypeError,
    because [unblock] is still undefined; the exception comes last, after
    the interval was cleared, the final line was written and the listeners
    were removed. *)
Theorem stop_before_start_throws :
  forall (unicode : bool) (color : Colors) (msg : jsstring) (code : Z)
         (st : state),
    st.(unblock) = false ->
    let st' := fst (stop unicode color msg code st) in
    snd (stop unicode color msg code st) = TypeError
    /\ st'.(trace)
       = st.(trace)
         ++ [ClearInterval st.(loop);
             Write (CursorMove (-999) 0);
             Write (EraseDown 1);
             Write (Text (finalGlyph unicode color code ++ lit "  "
                          ++ msg ++ nl));
             RemoveListener uncaughtExceptionMonitor errorEventHandler;
             RemoveListener unhandledRejection errorEventHandler;
             RemoveListener SIGINT signalEventHandler;
             RemoveListener SIGTERM signalEventHandler;
             RemoveListener exit handleExitListener]
    /\ st'.(isSpinnerActive) = false /\ st'.(_message) = msg
    /\ st'.(inputBlocked) = st.(inputBlocked).
Proof.
  intros unicode color msg code st Hu st'. unfold st'.
  destruct st as [a m u lp fi dt ts nt ls ib tr]. cbn in Hu. subst u.
  unfold stop. cbn. rewrite step_finalGlyph, <- !app_assoc.
  repeat split.
Qed.

Lemma stop_before_start_throws_witness :
  snd (stop true sgrColors (lit "Done") 0 init) = TypeError.
Proof.
  apply (@stop_before_start_throws true sgrColors (lit "Done") 0 init).
  reflexivity.
Defined.

Lemma heldBlocks_app (a b : list effect) :
  heldBlocks (a ++ b) = heldBlocks a + heldBlocks b.
Proof. unfold heldBlocks, len. rewrite !filter_app, !length_app. lia. Qed.

Lemma heldBlocks_cons (e : effect) (tr : list effect) :
  heldBlocks (e :: tr)
  = match e with Block => 1 | Unblock => -1 | _ => 0 end + heldBlocks tr.
Proof. unfold heldBlocks, len. destruct e; cbn [filter length]; lia. Qed.

Lemma start_trace (unicode : bool) (color : Colors) (msg : jsstring)
    (st : state) :
  (start unicode color msg st).(trace)
  = st.(trace)
    ++ [Block;
        Write (Text (gray color (S_BAR unicode) ++ nl));
        On uncaughtExceptionMonitor errorEventHandler;
        On unhandledRejection errorEventHandler;
        On SIGINT signalEventHandler;
        On SIGTERM signalEventHandler;
        On exit handleExitListener;
        SetInterval st.(nextTimer)].
Proof.
  destruct st as [a m u lp fi dt ts nt ls ib tr].
  unfold start. cbn. now rewrite <- !app_assoc.
Qed.

(** While a spinner that was started once runs, one acquisition of the
    input is held; none is held while it is stopped. *)
Lemma lifecycle_held (unicode : bool) (color : Colors) (ph : phase)
    (st : state) :
  lifecycle unicode color ph st ->
  heldBlocks st.(trace) = match ph with Running => 1 | Stopped => 0 end.
Proof.
  induction 1 as [|st msg Hl IH|st Hl IH|ph st msg Hl IH|st msg code Hl IH
                 |ph st ev arg Hl IH].
  - reflexivity.
  - rewrite start_trace, heldBlocks_app, IH, !heldBlocks_cons.
    reflexivity.
  - apply lifecycle_inv in Hl.
    destruct st as [a m u lp fi dt ts nt ls ib tr]. cbn in Hl, IH.
    destruct Hl as (_ & _ & (id & -> & ->) & _ & _).
    rewrite tick_scheduled. cbn [trace].
    rewrite !heldBlocks_app, IH, !heldBlocks_cons. reflexivity.
  - destruct st as [a m u lp fi dt ts nt ls ib tr]. exact IH.
  - apply lifecycle_inv in Hl.
    destruct (@stop_running unicode color st msg code Hl) as (id & _ & ->).
    cbn [fst trace]. unfold stopEffects.
    rewrite heldBlocks_app, IH, !heldBlocks_cons. reflexivity.
  - apply lifecycle_inv in Hl. destruct ph.
    + rewrite (@emit_stopped unicode color st ev arg Hl). exact IH.
    + rewrite (@emit_running unicode color st ev arg Hl).
      destruct (@stop_running unicode color st
                  (exitMessage (exitCodeOf ev arg)) (exitCodeOf ev arg) Hl)
        as (id & _ & ->).
      cbn [fst trace]. unfold stopEffects.
      rewrite heldBlocks_app, IH, !heldBlocks_cons. reflexivity.
Qed.

(** X14. Starting a running spinner a second time leaks: the one [stop]
    that follows ends normally and clears the second interval, but the
    first interval stays scheduled and one copy of each of the five
    process listeners stays registered, although the spinner is no longer
    active. The input stays taken as well: each [start] calls [block()],
    the second overwrites the only reference to the release function of
    the first, and the one [stop] calls one release function, so the trace
    still holds one call of [block()] more than calls of a release
    function, as it did while the spinner ran. *)
Theorem second_start_leaks :
  forall (unicode : bool) (color : Colors) (st : state)
         (msg final : jsstring) (code : Z),
    lifecycle unicode color Running st ->
    let st2 := start unicode color msg st in
    let st3 := fst (stop unicode color final code st2) in
    snd (stop unicode color final code st2) = Normal
    /\ st2.(listeners) = hooks ++ hooks
    /\ (exists id, st.(loop) = Some id /\ st3.(timers) = [id])
    /\ st3.(listeners) = hooks
    /\ st3.(isSpinnerActive) = false
    /\ heldBlocks st.(trace) = 1
    /\ heldBlocks st2.(trace) = 2
    /\ heldBlocks st3.(trace) = 1.
Proof.
  intros unicode color st msg final code Hl st2 st3.
  destruct (lifecycle_ranges Hl) as (_ & _ & Hts).
  pose proof (lifecycle_held Hl) as Hheld.
  apply lifecycle_inv in Hl.
  assert (H2 : heldBlocks st2.(trace) = 2).
  { unfold st2. rewrite start_trace, heldBlocks_app, Hheld,
      !heldBlocks_cons. reflexivity. }
  assert (H3 : heldBlocks st3.(trace) = 1).
  { assert (E : st3.(trace)
                = st2.(trace)
                  ++ [ClearInterval st2.(loop);
                      Write (CursorMove (-999) 0);
                      Write (EraseDown 1);
                      Write (Text (step unicode color code ++ lit "  "
                                   ++ final ++ nl));
                      RemoveListener uncaughtExceptionMonitor
                                     errorEventHandler;
                      RemoveListener unhandledRejection errorEventHandler;
                      RemoveListener SIGINT signalEventHandler;
                      RemoveListener SIGTERM signalEventHandler;
                      RemoveListener exit handleExitListener;
                      Unblock]).
    { unfold st3, st2. destruct st as [a m u lp fi dt ts nt ls ib tr].
      unfold start, stop. cbn. now rewrite <- !app_assoc. }
    rewrite E, heldBlocks_app, H2, !heldBlocks_cons. reflexivity. }
  destruct st as [a m u lp fi dt ts nt ls ib tr]. cbn in Hl, Hts, Hheld.
  destruct Hl as (-> & -> & (id & -> & ->) & -> & ->).
  assert (Hid : (id < nt)%nat) by (apply Hts; now left).
  split; [reflexivity|]. split; [reflexivity|]. split.
  { exists id. split; [reflexivity|].
    unfold st3, st2, start, stop. cbn. rewrite Nat.eqb_refl.
    destruct (Nat.eqb_spec nt id) as [E|_]; [lia|]. reflexivity. }
  split; [reflexivity|]. split; [reflexivity|].
  split; [exact Hheld|]. split; [exact H2|exact H3].
Qed.

Lemma second_start_leaks_witness :
  (fst (stop true sgrColors (lit "Done") 0
          (start true sgrColors (lit "again")
             (start true sgrColors (lit "Working") init)))).(listeners)
  = hooks
  /\ heldBlocks
       (fst (stop true sgrColors (lit "Done") 0
               (start true sgrColors (lit "again")
                  (start true sgrColors (lit "Working") init)))).(trace)
     = 1.
Proof.
  destruct (@second_start_leaks true sgrColors
              (start true sgrColors (lit "Working") init)
              (lit "again") (lit "Done") 0)
    as (_ & _ & _ & E & _ & _ & _ & H).
  - apply life_start, life_init.
  - split; [exact E|exact H].
Defined.

(** X15. A whole run of the animation: after [start] and [k] firings of
    the interval the spinner has written, after the bar line of [start],
    [k] frames of three chunks each. Frame [i] shows the glyph number
    [i mod 4] and the dots of counter [i mod 33]: the glyphs repeat every
    4 frames and the dots every 33 frames, whatever the state the spinner
    was started in. *)
Theorem animation_is_periodic :
  forall (unicode : bool) (color : Colors) (st : state) (msg : jsstring)
         (k : nat),
    let run := ticks unicode color k (start unicode color msg st) in
    run.(frameIndex) = Z.of_nat k mod 4
    /\ run.(dotsTimer8) = Z.of_nat k mod 33
    /\ run.(_message) = stripTrailingDots msg
    /\ run.(trace)
       = (start unicode color msg st).(trace)
         ++ concat
              (map (fun i =>
                      [Write (CursorMove (-999) 0);
                       Write (EraseDown 1);
                       Write (tickLine unicode color (Z.of_nat i mod 4)
                                       (Z.of_nat i mod 33)
                                       (stripTrailingDots msg))])
                   (seq 0 k)).
Proof.
  intros unicode color st msg k run. unfold run.
  destruct st as [a m u lp fi dt ts nt ls ib tr].
  unfold start. cbn. rewrite ticks_scheduled. cbn. repeat split.
Qed.

End SpinnerMore.

(** ** [tasks]: one spinner after another *)

Module TasksMore.
Import Spinner SpinnerFacts SpinnerRuns Tasks SpinnerMore.

Section Facts.
Variable unicode : bool.
Variable color : Colors.

Local Abbreviation tasks := (Tasks.tasks unicode color).
Local Abbreviation runStep := (Tasks.runStep unicode color).

(** The effects of [start], in order, when the interval gets handle
    [id]. *)
Local Abbreviation startTrace id :=
  [Block;
   Write (Text (gray color (S_BAR unicode) ++ nl));
   On uncaughtExceptionMonitor errorEventHandler;
   On unhandledRejection errorEventHandler;
   On SIGINT signalEventHandler;
   On SIGTERM signalEventHandler;
   On exit handleExitListener;
   SetInterval id].

Lemma script_writes (steps : list taskStep) :
  forall (a : bool) (m : jsstring) (u : bool) (id : nat) (fi dt : Z)
         (nt : nat) (ls : list (eventName * handler)) (ib : bool)
         (tr : list effect),
  exists m' fi' dt' mid,
    fold_left runStep steps
      (Build_state a m u (Some id) fi dt [id] nt ls ib tr)
    = Build_state a m' u (Some id) fi' dt' [id] nt ls ib (tr ++ mid)
    /\ forallb isWrite mid = true.
Proof.
  induction steps as [|s steps IH]; intros a m u id fi dt nt ls ib tr.
  - exists m, fi, dt, []. cbn [fold_left]. now rewrite app_nil_r.
  - cbn [fold_left]. destruct s as [msg|]; cbn [Tasks.runStep].
    + apply IH.
    + rewrite tick_scheduled.
      edestruct IH as (m' & fi' & dt' & mid & E & Hmid).
      rewrite E. do 3 eexists.
      eexists ([_; _; _] ++ mid). split.
      * rewrite <- !app_assoc. cbn [app]. reflexivity.
      * cbn [app forallb isWrite andb]. exact Hmid.
Qed.

Lemma task_body (title : jsstring) (steps : list taskStep) (st : state) :
  phaseInv Stopped st ->
  exists m fi dt mid,
    fold_left runStep steps (start unicode color title (spinner st))
    = Build_state true m true (Some st.(nextTimer)) fi dt
        [st.(nextTimer)] (S st.(nextTimer)) hooks true
        (st.(trace) ++ startTrace st.(nextTimer) ++ mid)
    /\ forallb isWrite mid = true.
Proof.
  intros Hst. destruct st as [a m u lp fi dt ts nt ls ib tr]. cbn in Hst.
  destruct Hst as (_ & -> & -> & ->).
  unfold start, spinner. cbn.
  edestruct (script_writes steps) as (m' & fi' & dt' & mid & E & Hmid).
  rewrite E. exists m', fi', dt', mid. split; [|exact Hmid].
  rewrite <- !app_assoc. reflexivity.
Qed.

Lemma nonWrites_app (a b : list effect) :
  nonWrites (a ++ b) = nonWrites a ++ nonWrites b.
Proof. apply filter_app. Qed.

Lemma nonWrites_writes (mid : list effect) :
  forallb isWrite mid = true -> nonWrites mid = [].
Proof.
  induction mid as [|e mid IH]; [reflexivity|]. cbn [forallb].
  rewrite andb_true_iff. intros [He Hmid]. unfold nonWrites in *.
  cbn [filter]. rewrite He. cbn [negb]. now apply IH.
Qed.

(** One task that is not skipped and does not throw, from a quiet
    process. *)
Lemma task_once (t : Task) (rest : list Task) (st : state)
    (result : option jsstring) :
  phaseInv Stopped st ->
  skipped t = false ->
  t.(ending) = Returns result ->
  exists st1 mid,
    tasks (t :: rest) st = tasks rest st1
    /\ phaseInv Stopped st1
    /\ st1.(nextTimer) = S st.(nextTimer)
    /\ st1.(_message) = resultOrTitle result t.(title)
    /\ forallb isWrite mid = true
    /\ st1.(trace)
       = st.(trace) ++ startTrace st.(nextTimer) ++ mid
         ++ stopEffects unicode color st.(nextTimer)
              (resultOrTitle result t.(title)) 0.
Proof.
  intros Hst Hsk Hend.
  destruct (task_body t.(title) t.(script) Hst)
    as (m & fi & dt & mid & E & Hmid).
  cbn [Tasks.tasks]. rewrite Hsk, Hend. cbv zeta. rewrite E.
  match goal with
  | |- context [stop unicode color ?msg 0 ?s] =>
      destruct (@stop_running unicode color s msg 0) as (id & Hid & ->)
  end.
  { cbn. repeat split. now eexists. }
  cbn in Hid. injection Hid as <-. cbn [trace frameIndex dotsTimer8 nextTimer].
  eexists. exists mid. split; [reflexivity|].
  cbn. repeat split; try exact Hmid.
  now rewrite <- !app_assoc.
Qed.

(** X16. A run of [tasks] in which no task throws resolves and leaves no
    spinner behind: afterwards no interval is scheduled, no process
    listener is registered and the input is unblocked, whatever the tasks
    do with their [message] function and however often the interval
    fires. The spinners are never nested: apart from the writes, the run
    consists of one start and stop bracket for each task that is not
    skipped, each with a new interval handle. *)
Theorem tasks_leave_no_spinner_behind :
  forall (ts : list Task) (st : state),
    phaseInv Stopped st ->
    Forall (fun t => skipped t = true \/ t.(ending) <> Throws) ts ->
    let done := tasks ts st in
    snd done = Resolved
    /\ phaseInv Stopped (fst done)
    /\ nonWrites (fst done).(trace)
       = nonWrites st.(trace)
         ++ concat (map bracket
                        (seq st.(nextTimer)
                             (length (filter (fun t => negb (skipped t))
                                             ts)))).
Proof.
  induction ts as [|t ts IH]; intros st Hst Hts.
  - cbn. split; [reflexivity|]. split; [exact Hst|]. now rewrite app_nil_r.
  - inversion Hts as [|? ? Ht Hts']; subst.
    destruct (skipped t) eqn:Hsk.
    + cbn [Tasks.tasks filter negb]. rewrite Hsk. cbn [negb].
      now apply IH.
    + destruct Ht as [Ht|Ht]; [discriminate|].
      destruct (ending t) as [result|] eqn:Hend; [|congruence].
      destruct (@task_once t ts st result Hst Hsk Hend)
        as (st1 & mid & E & Hst1 & Hnt & _ & Hmid & Htr).
      cbv zeta. rewrite E.
      destruct (IH st1 Hst1 Hts') as (Hr & Hq & Hnw).
      split; [exact Hr|]. split; [exact Hq|].
      rewrite Hnw, Htr, Hnt. cbn [filter]. rewrite Hsk.
      cbn [negb length seq map concat].
      rewrite !nonWrites_app, (@nonWrites_writes mid Hmid).
      rewrite <- !app_assoc. reflexivity.
Qed.

(** X17. Tasks with [enabled: false] leave no mark: a run is the run of
    the tasks that are not skipped. And a run of a list followed by
    another is the run of the first and then, if that one resolved, the
    run of the second from the state the first left; if the first is
    rejected, nothing of the second is run. *)
Theorem tasks_skip_and_compose :
  forall (ts1 ts2 : list Task) (st : state),
    tasks ts1 st = tasks (filter (fun t => negb (skipped t)) ts1) st
    /\ tasks (ts1 ++ ts2) st
       = match tasks ts1 st with
         | (st1, Resolved) => tasks ts2 st1
         | (st1, Rejected) => (st1, Rejected)
         end.
Proof.
  induction ts1 as [|t ts1 IH]; intros ts2 st; [split; reflexivity|].
  cbn [Tasks.tasks filter app].
  destruct (skipped t) eqn:Hsk; cbn [negb].
  - apply IH.
  - cbn [Tasks.tasks]. rewrite Hsk. cbv zeta.
    destruct (ending t) as [result|]; [|split; reflexivity].
    destruct (stop unicode color _ 0 _) as [st1 [|]];
      [apply IH|split; reflexivity].
Qed.

(** X18. What a task shows: from a quiet process, a task that is not
    skipped and returns writes the bar line of [start], then nothing but
    frames of the animation, and [stop] ends it with the final line - the
    green submit glyph, two blanks and the task's result, or its title
    when the result is undefined or the empty string. The process is quiet
    again when the next task begins. *)
Theorem task_final_line :
  forall (t : Task) (rest : list Task) (st : state)
         (result : option jsstring),
    phaseInv Stopped st ->
    skipped t = false ->
    t.(ending) = Returns result ->
    let shown := match result with
                 | Some (c :: r) => c :: r
                 | _ => t.(title)
                 end in
    exists st1 frames,
      tasks (t :: rest) st = tasks rest st1
      /\ phaseInv Stopped st1
      /\ forallb isWrite frames = true
      /\ st1.(trace)
         = st.(trace) ++ startTrace st.(nextTimer) ++ frames
           ++ [ClearInterval (Some st.(nextTimer));
               Write (CursorMove (-999) 0);
               Write (EraseDown 1);
               Write (Text (green color (S_STEP_SUBMIT unicode)
                            ++ lit "  " ++ shown ++ nl));
               RemoveListener uncaughtExceptionMonitor errorEventHandler;
               RemoveListener unhandledRejection errorEventHandler;
               RemoveListener SIGINT signalEventHandler;
               RemoveListener SIGTERM signalEventHandler;
               RemoveListener exit handleExitListener;
               Unblock].
Proof.
  intros t rest st result Hst Hsk Hend shown.
  destruct (@task_once t rest st result Hst Hsk Hend)
    as (st1 & mid & E & Hst1 & _ & _ & Hmid & Htr).
  exists st1, mid. split; [exact E|]. split; [exact Hst1|].
  split; [exact Hmid|]. rewrite Htr. unfold shown.
  destruct result as [[|c r]|]; reflexivity.
Qed.

(** X19. A task that throws leaves its spinner running: the promise of
    [tasks] is rejected, the tasks after it are not run and [stop] is
    never called, so the interval stays scheduled, the five process
    listeners stay registered and the input stays blocked. *)
Theorem throwing_task_leaves_spinner_running :
  forall (t : Task) (rest : list Task) (st : state),
    phaseInv Stopped st ->
    skipped t = false ->
    t.(ending) = Throws ->
    let failed := tasks (t :: rest) st in
    snd failed = Rejected
    /\ tasks (t :: rest) st = tasks [t] st
    /\ phaseInv Running (fst failed)
    /\ exists frames,
         forallb isWrite frames = true
         /\ (fst failed).(trace)
            = st.(trace) ++ startTrace st.(nextTimer) ++ frames.
Proof.
  intros t rest st Hst Hsk Hend failed.
  destruct (task_body t.(title) t.(script) Hst)
    as (m & fi & dt & mid & E & Hmid).
  unfold failed. cbn [Tasks.tasks]. rewrite Hsk, Hend. cbv zeta.
  rewrite E. cbn [fst snd].
  split; [reflexivity|]. split; [reflexivity|]. split.
  - cbn. repeat split. now eexists.
  - exists mid. split; [exact Hmid|reflexivity].
Qed.

End Facts.

Lemma tasks_leave_no_spinner_behind_witness :
  snd (Tasks.tasks true sgrColors
         [ {| title := lit "Installing";
              script := [Fires; Says (lit "Linking"); Fires; Fires];
              ending := Returns (Some (lit "Installed"));
              enabled := None |};
           {| title := lit "Skipped"; script := []; ending := Throws;
              enabled := Some false |};
           {| title := lit "Cleaning..."; script := [Fires];
              ending := Returns None; enabled := Some true |} ]
         (init))
  = Resolved.
Proof.
  destruct (@tasks_leave_no_spinner_behind true sgrColors
              [ {| title := lit "Installing";
                   script := [Fires; Says (lit "Linking"); Fires; Fires];
                   ending := Returns (Some (lit "Installed"));
                   enabled := None |};
                {| title := lit "Skipped"; script := []; ending := Throws;
                   enabled := Some false |};
                {| title := lit "Cleaning..."; script := [Fires];
                   ending := Returns None; enabled := Some true |} ]
              init)
    as (E & _).
  - cbn. repeat split.
  - apply Forall_cons; [right; discriminate|].
    apply Forall_cons; [left; reflexivity|].
    apply Forall_cons; [right; discriminate|]. apply Forall_nil.
  - exact E.
Defined.

Lemma task_final_line_witness :
  exists st1,
    Tasks.tasks true sgrColors
      [ {| title := lit "Cleaning..."; script := [Fires; Fires];
           ending := Returns (Some []); enabled := Some true |} ]
      init
    = (st1, Resolved)
    /\ phaseInv Stopped st1.
Proof.
  destruct (@task_final_line true sgrColors
              {| title := lit "Cleaning..."; script := [Fires; Fires];
                 ending := Returns (Some []); enabled := Some true |}
              [] init (Some []))
    as (st1 & frames & E & H & _).
  - cbn. repeat split.
  - reflexivity.
  - reflexivity.
  - exists st1. split; [exact E|exact H].
Defined.

Lemma throwing_task_leaves_spinner_running_witness :
  snd (Tasks.tasks true sgrColors
         [ {| title := lit "Downloading"; script := [Fires];
              ending := Throws; enabled := None |};
           {| title := lit "Never run"; script := [];
              ending := Returns None; enabled := None |} ]
         init)
  = Rejected.
Proof.
  destruct (@throwing_task_leaves_spinner_running true sgrColors
              {| title := lit "Downloading"; script := [Fires];
                 ending := Throws; enabled := None |}
              [ {| title := lit "Never run"; script := [];
                   ending := Returns None; enabled := None |} ]
              init)
    as (E & _).
  - cbn. repeat split.
  - reflexivity.
  - reflexivity.
  - exact E.
Defined.

End TasksMore.

(** ** [log.message] *)

Module LogMore.
Import BoxFacts TaskLogFacts TaskLogMore.

Lemma join_lines (parts : list jsstring) :
  parts <> [] ->
  join nl parts ++ nl = concat (map (fun p => p ++ nl) parts).
Proof.
  induction parts as [|p [|q parts] IH]; intros H; [congruence| |].
  - cbn. now rewrite app_nil_r.
  - change (join nl (p :: q :: parts))
      with (p ++ nl ++ join nl (q :: parts)).
    change (concat (map (fun p => p ++ nl) (p :: q :: parts)))
      with ((p ++ nl)
            ++ concat (map (fun p => p ++ nl) (q :: parts))).
    rewrite <- IH by discriminate. now rewrite <- !app_assoc.
Qed.

Lemma split_lines (parts : list jsstring) :
  Forall (fun p => noNewline p = true) parts ->
  split_nl (concat (map (fun p => p ++ nl) parts)) = parts ++ [[]].
Proof.
  induction 1 as [|p parts Hp _ IH]; [reflexivity|].
  cbn [map concat]. unfold nl at 1. rewrite <- app_assoc. cbn [app].
  rewrite split_nl_app, IH, split_nl_line by exact Hp. reflexivity.
Qed.

(** X20. [log.message] writes the message line by line. With a bar and a
    symbol that hold no newline, the text written is, split at its
    newlines: a line with the bar alone; then, for a message that is not
    empty, its first line behind the symbol and two blanks and each
    further line behind the bar and two blanks, in order; and nothing
    after the last newline. An empty message writes the bar line only. So
    a message of n lines takes n + 1 terminal lines. *)
Theorem log_message_lines :
  forall (unicode : bool) (color : Colors) (msg : jsstring)
         (sym : option jsstring),
    let bar := gray color (S_BAR unicode) in
    let symbol := match sym with Some x => x | None => bar end in
    let written := split_nl (Log.message unicode color msg sym) in
    noNewline bar = true ->
    noNewline symbol = true ->
    (msg = [] -> written = [bar; []])
    /\ (msg <> [] ->
        exists first rest,
          split_nl msg = first :: rest
          /\ written
             = bar :: (symbol ++ lit "  " ++ first)
                   :: map (fun ln => bar ++ lit "  " ++ ln) rest ++ [[]])
    /\ len written = (if len msg =? 0 then 2 else len (split_nl msg) + 2).
Proof.
  intros unicode color msg sym bar symbol written Hbar Hsym.
  assert (Hblank : noNewline (lit "  ") = true) by reflexivity.
  destruct msg as [|c msg].
  - assert (E : written = [bar; []]).
    { unfold written, Log.message. cbn [join]. fold bar.
      unfold nl. rewrite split_nl_app, split_nl_line by exact Hbar.
      reflexivity. }
    split; [intros _; exact E|]. split; [congruence|]. now rewrite E.
  - destruct (split_nl_nonempty (c :: msg)) as (first & rest & Es).
    pose proof (split_nl_lines (c :: msg)) as Hl. rewrite Es in Hl.
    inversion Hl as [|? ? Hfirst Hrest]; subst.
    assert (E : written
                = bar :: (symbol ++ lit "  " ++ first)
                      :: map (fun ln => bar ++ lit "  " ++ ln) rest
                      ++ [[]]).
    { unfold written, Log.message. rewrite Es. fold bar. fold symbol.
      rewrite join_lines by discriminate. rewrite split_lines.
      - reflexivity.
      - constructor; [exact Hbar|]. constructor.
        + now rewrite !noNewline_app, Hsym, Hfirst.
        + apply Forall_map. revert Hrest. apply Forall_impl.
          intros ln Hln. now rewrite !noNewline_app, Hbar, Hln. }
    split; [discriminate|]. split.
    + intros _. exists first, rest. split; [exact Es|exact E].
    + rewrite E, Es. unfold len. cbn [length].
      rewrite length_app, length_map. cbn [length].
      unfold jsstring in *.
      destruct (Z.eqb_spec (Z.of_nat (S (length msg))) 0); lia.
Qed.

Lemma log_message_lines_witness :
  len (split_nl (Log.message true sgrColors (lit "one" ++ nl ++ lit "two")
                   (Some (green sgrColors (S_SUCCESS true)))))
  = 4.
Proof.
  destruct (@log_message_lines true sgrColors (lit "one" ++ nl ++ lit "two")
              (Some (green sgrColors (S_SUCCESS true))))
    as (_ & _ & E).
  - reflexivity.
  - reflexivity.
  - exact E.
Defined.

End LogMore.

(** ** The frame of [select] *)

Module SelectMore.
Import Viewport JSFacts ViewportFacts BoxFacts TaskLogFacts Select.

Lemma countNl_app (a b : jsstring) :
  countNl (a ++ b) = countNl a + countNl b.
Proof. unfold countNl, len. rewrite filter_app, length_app. lia. Qed.

Lemma countNl_line (s : jsstring) : noNewline s = true -> countNl s = 0.
Proof.
  unfold countNl, noNewline. induction s as [|c s IH]; [reflexivity|].
  cbn [forallb filter]. rewrite andb_true_iff. intros [Hc Hs].
  apply negb_true_iff in Hc. rewrite Hc. now apply IH.
Qed.

Lemma countNl_join (sep : jsstring) (rows : list jsstring) :
  Forall (fun r => noNewline r = true) rows ->
  countNl (join sep rows) = Z.max (len rows - 1) 0 * countNl sep.
Proof.
  induction 1 as [|r [|q rows] Hr Hrows IH]; [reflexivity| |].
  - cbn [join]. rewrite (countNl_line _ Hr). reflexivity.
  - change (join sep (r :: q :: rows))
      with (r ++ sep ++ join sep (q :: rows)).
    rewrite !countNl_app, IH, (countNl_line _ Hr).
    unfold len. cbn [length]. lia.
Qed.

Lemma In_firstn {A : Type} (n : nat) (l : list A) (x : A) :
  In x (firstn n l) -> In x l.
Proof.
  revert l. induction n as [|n IH]; intros [|y l]; cbn; try tauto.
  intros [H|H]; [now left|right; now apply IH].
Qed.

Lemma In_skipn {A : Type} (n : nat) (l : list A) (x : A) :
  In x (skipn n l) -> In x l.
Proof.
  revert l. induction n as [|n IH]; intros [|y l]; cbn; try tauto.
  intros H. right. now apply IH.
Qed.

Lemma In_slice {A : Type} (a b : Z) (l : list A) (x : A) :
  In x (slice a b l) -> In x l.
Proof.
  unfold slice. cbv zeta. intros H.
  apply In_firstn in H. now apply In_skipn in H.
Qed.

Lemma mapi_from_Forall {A B : Type} (P : B -> Prop) (f : Z -> A -> B)
    (l : list A) :
  (forall i x, In x l -> P (f i x)) ->
  forall i, Forall P (mapi_from f i l).
Proof.
  induction l as [|x l IH]; intros H i; cbn [mapi_from]; constructor.
  - apply H. now left.
  - apply IH. intros j y Hy. apply H. now right.
Qed.

(** Every row that [limitOptions] returns is the ellipsis or the style of
    one of the options. *)
Lemma limitOptions_rows {TOption : Type} (P : jsstring -> Prop)
    (dim : jsstring -> jsstring) (rows : Z)
    (p : @LimitOptionsParams TOption jsstring) :
  P (dim (lit "...")) ->
  (forall o b, In o p.(options) -> P (p.(style) o b)) ->
  Forall P (limitOptions dim rows p).
Proof.
  intros He Hs. unfold limitOptions, limitOptionsWith, mapi. cbv zeta.
  apply mapi_from_Forall. intros i x Hx. apply In_slice in Hx.
  destruct (_ || _); [exact He|]. now apply Hs.
Qed.

Section Facts.
Variable unicode : bool.
Variable color : Colors.
Variable cyan yellow strikethrough : jsstring -> jsstring.
Variable Value : Type.
Variable toString : Value -> jsstring.

Local Abbreviation render :=
  (@Select.render unicode color cyan yellow strikethrough Value toString).
Local Abbreviation opt :=
  (@Select.opt unicode color strikethrough Value toString).

(** X21. The frame of [select] fits the terminal. While the prompt is not
    submitted or cancelled, and when neither the message, the labels and
    hints nor the colour functions bring in a newline, the frame holds
    exactly 4 + max(k - 1, 0) newlines, where k = min(effectiveMax, number
    of options) is the number of rows [limitOptions] returns: two for the
    title, one between any two rows, two for the end. On a terminal of 5
    rows or more that is less than the number of its rows, so the frame
    and the line below it are on the screen together. *)
Theorem select_frame_fits :
  forall (rows : Z) (message : jsstring) (maxItems : option Z)
         (state : State) (options : list (Option Value)) (cursor : Z),
    lineSafe (gray color) -> lineSafe (dim color) ->
    lineSafe (green color) -> lineSafe cyan -> lineSafe yellow ->
    noNewline message = true ->
    Forall (fun o => noNewline (labelOf toString o) = true
                     /\ forall h, hint o = Some h -> noNewline h = true)
           options ->
    state <> Submit -> state <> Cancel ->
    exists frame,
      render rows message maxItems state options cursor = Some frame
      /\ countNl frame
         = 4 + Z.max (Z.min (effectiveMax maxItems rows) (len options) - 1)
                     0
      /\ (5 <= rows -> countNl frame < rows).
Proof.
  intros rows message maxItems state options cursor
         Hgray Hdim Hgreen Hcyan Hyellow Hmsg Hopts Hs Hc.
  assert (Hglyph : forall c f, noNewline f = true -> noNewline c = true ->
                               noNewline (s unicode c f) = true).
  { intros c f Hf Hcc. now destruct unicode. }
  assert (Hbar : noNewline (S_BAR unicode) = true)
    by (apply Hglyph; reflexivity).
  assert (Hsym : noNewline (symbol unicode color cyan yellow state) = true).
  { destruct state; try congruence; cbn [symbol];
      [apply Hcyan|apply Hcyan|apply Hyellow]; apply Hglyph; reflexivity. }
  set (p := {| Viewport.cursor := cursor; Viewport.options := options;
               Viewport.maxItems := maxItems;
               Viewport.style :=
                 fun item act =>
                   opt item (if act : bool then active else inactive) |}).
  assert (Hrows : Forall (fun r => noNewline r = true)
                         (limitOptions (dim color) rows p)).
  { apply limitOptions_rows; [now apply Hdim|].
    intros o b Ho. cbn [Viewport.options p] in Ho.
    rewrite Forall_forall in Hopts. destruct (Hopts o Ho) as (Hl & Hh).
    assert (Hon : noNewline (S_RADIO_ACTIVE unicode) = true)
      by (apply Hglyph; reflexivity).
    assert (Hoff : noNewline (S_RADIO_INACTIVE unicode) = true)
      by (apply Hglyph; reflexivity).
    assert (Hhint : noNewline (hintOf color o) = true).
    { unfold hintOf. destruct (hint o) as [[|c h]|] eqn:Eh;
        try reflexivity.
      apply Hdim. rewrite !noNewline_app, (Hh (c :: h) eq_refl).
      reflexivity. }
    cbn [Viewport.style p]. destruct b; cbn [Select.opt].
    - rewrite !noNewline_app, Hl, Hhint, (Hgreen _ Hon). reflexivity.
    - rewrite !noNewline_app, (Hdim _ Hoff), (Hdim _ Hl). reflexivity. }
  assert (E : render rows message maxItems state options cursor
              = Some (gray color (S_BAR unicode) ++ nl
                      ++ symbol unicode color cyan yellow state
                      ++ lit "  " ++ message ++ nl
                      ++ cyan (S_BAR unicode) ++ lit "  "
                      ++ join (nl ++ cyan (S_BAR unicode) ++ lit "  ")
                           (limitOptions (dim color) rows p)
                      ++ nl ++ cyan (S_BAR_END unicode) ++ nl)).
  { unfold Select.render. cbv zeta. fold p.
    destruct state; try congruence; now rewrite <- !app_assoc. }
  eexists. split; [exact E|].
  assert (Hn : countNl nl = 1) by reflexivity.
  assert (Hk : countNl
                 (gray color (S_BAR unicode) ++ nl
                  ++ symbol unicode color cyan yellow state
                  ++ lit "  " ++ message ++ nl
                  ++ cyan (S_BAR unicode) ++ lit "  "
                  ++ join (nl ++ cyan (S_BAR unicode) ++ lit "  ")
                       (limitOptions (dim color) rows p)
                  ++ nl ++ cyan (S_BAR_END unicode) ++ nl)
               = 4 + Z.max (Z.min (effectiveMax maxItems rows)
                                  (len options) - 1) 0).
  { rewrite !countNl_app, (countNl_join _ Hrows), !countNl_app, Hn.
    rewrite (countNl_line _ (Hgray _ Hbar)), (countNl_line _ Hsym),
      (countNl_line _ Hmsg), (countNl_line _ (Hcyan _ Hbar)).
    rewrite (countNl_line (cyan (S_BAR_END unicode)))
      by (apply Hcyan, Hglyph; reflexivity).
    rewrite (countNl_line (lit "  ")) by reflexivity.
    unfold limitOptions. rewrite limitOptionsWith_length.
    cbn [Viewport.maxItems Viewport.options p]. lia. }
  split; [exact Hk|]. intros H5. rewrite Hk.
  unfold effectiveMax. destruct maxItems; lia.
Qed.

End Facts.

(** The SGR wrapping of picocolors adds no newline. *)
Lemma sgr_lineSafe (open close : string) :
  noNewline (lit open) = true -> noNewline (lit close) = true ->
  lineSafe (sgr open close).
Proof.
  intros Ho Hc x Hx. unfold sgr.
  change (noNewline
            ([ESC] ++ lit "[" ++ lit open ++ lit "m" ++ x
             ++ [ESC] ++ lit "[" ++ lit close ++ lit "m") = true).
  rewrite !noNewline_app, Ho, Hc, Hx. reflexivity.
Qed.

Lemma select_frame_fits_witness :
  exists frame,
    Select.render true sgrColors (sgr "36" "39") (sgr "33" "39")
      (sgr "9" "29") (fun v : jsstring => v) 9 (lit "Pick a colour") None
      Active
      (map (fun v => {| value := v; label := None;
                        hint := Some (lit "a colour") |})
           [lit "red"; lit "green"; lit "blue"; lit "cyan"; lit "pink";
            lit "gray"; lit "white"])
      4
    = Some frame
    /\ countNl frame < 9.
Proof.
  destruct (@select_frame_fits true sgrColors (sgr "36" "39")
              (sgr "33" "39") (sgr "9" "29") jsstring (fun v => v)
              9 (lit "Pick a colour") None Active
              (map (fun v => {| value := v; label := None;
                                hint := Some (lit "a colour") |})
                   [lit "red"; lit "green"; lit "blue"; lit "cyan";
                    lit "pink"; lit "gray"; lit "white"])
              4)
    as (frame & E & _ & H).
  - apply sgr_lineSafe; reflexivity.
  - apply sgr_lineSafe; reflexivity.
  - apply sgr_lineSafe; reflexivity.
  - apply sgr_lineSafe; reflexivity.
  - apply sgr_lineSafe; reflexivity.
  - reflexivity.
  - cbn [map].
    repeat (apply Forall_cons;
            [split; [reflexivity|intros h Hh; injection Hh as <-;
                                 reflexivity]|]).
    apply Forall_nil.
  - discriminate.
  - discriminate.
  - exists frame. split; [exact E|]. apply H. lia.
Defined.

End SelectMore.
